(** * Cognitive memory engine: retention, reinforcement, links, retrieval
      and consolidation

    A shallow embedding of [scripts/setup-db-v2.py] (the schema and the three
    server-side routines [calculate_retention], [reinforce_memory] and
    [strengthen_link]) and of [scripts/memory-utils.py] (the client functions
    [store_memory], [retrieve_memories], [consolidate_memories] and
    [link_memories]), together with the reading of the language model's
    replies in [extract_topics] and [score_importance] and the statement
    splitter of [scripts/setup-db.py].

    Conventions of the model.
    - SQL [FLOAT] and Python [float] values are real numbers (type [R]):
      rounding of binary floating point is not modelled.
    - A [TIMESTAMPTZ] is a real number of seconds; [NOW()] is an explicit
      argument [now], constant during one transaction as in PostgreSQL.
    - A table is the list of its rows in scan order; [INSERT] appends, [UPDATE]
      rewrites rows in place.  [ORDER BY] is a stable insertion sort, so rows
      with equal keys keep their scan order (PostgreSQL leaves it open).
    - A statement that violates a [CHECK] constraint, a foreign key or the
      range of [INTEGER] raises; the length limits of the [VARCHAR] columns
      and the dimension of [vector(1536)] are not modelled.
    - The embedding provider, the cosine distance of pgvector and the language
      model calls are parameters of the client functions. *)

From Stdlib Require Import Reals Lra Lia List String ZArith NArith Bool.
From Stdlib Require Import Sorting.Sorted Permutation.
Import ListNotations.

Open Scope R_scope.

(** ** Comparisons and results *)

Definition Rltb (x y : R) : bool := if Rlt_dec x y then true else false.
Definition Rleb (x y : R) : bool := if Rle_dec x y then true else false.

(** [x BETWEEN lo AND hi]. *)
Definition between (x lo hi : R) : bool := Rleb lo x && Rleb x hi.

Inductive db_error : Type :=
| check_violation (constraint : string)
| integer_out_of_range
| foreign_key_violation (constraint : string).

(** The result of a statement or of a client call: a value, or the error
    that aborted the transaction. *)
Inductive outcome (A : Type) : Type :=
| Done (a : A)
| Raised (e : db_error).
Arguments Done {A} a.
Arguments Raised {A} e.

Definition bind {A B : Type} (c : outcome A) (k : A -> outcome B) : outcome B :=
  match c with
  | Done a => k a
  | Raised e => Raised e
  end.

Notation "x <- c ;; k" := (bind c (fun x => k))
  (at level 61, c at next level, right associativity).

(** ** Ordering of rows *)

Section OrderBy.
Context {A : Type} (le : A -> A -> bool).

Fixpoint insert_sorted (x : A) (l : list A) : list A :=
  match l with
  | [] => [x]
  | y :: t => if le x y then x :: l else y :: insert_sorted x t
  end.

Definition order_by (l : list A) : list A := fold_right insert_sorted [] l.
End OrderBy.

(** ** Schema *)

Module Schema.

Definition uuid := N.
Definition timestamptz := R.
Definition date := Z.
Definition vector := list R.

Inductive memory_type : Type := episodic | semantic | procedural.

Definition memory_type_eqb (a b : memory_type) : bool :=
  match a, b with
  | episodic, episodic | semantic, semantic | procedural, procedural => true
  | _, _ => false
  end.

(** Table [memories]. *)
Record memory : Type := mkMemory {
  id : uuid;
  agent_id : string;
  content : string;
  embedding : vector;
  mtype : memory_type;
  topics : list string;
  created_at : timestamptz;
  event_date : option date;
  expires_at : option date;
  importance : R;
  stability : R;
  last_accessed : timestamptz;
  access_count : Z;
  source_channel : option string;
  source_session : option string;
  is_summary : bool;
  summarizes : list uuid;
  is_deleted : bool
}.

(** Table [memory_links]. *)
Record link : Type := mkLink {
  source_id : uuid;
  target_id : uuid;
  strength : R;
  link_type : string;
  link_created_at : timestamptz;
  updated_at : timestamptz
}.

Record database : Type := mkDatabase {
  memories : list memory;
  memory_links : list link
}.

(** Largest value of the SQL type [INTEGER]. *)
Definition integer_max : Z := 2147483647.

(** [gen_random_uuid()]: an identifier carried by no row of the table.
    The source draws it at random; the model takes the successor of the
    largest stored identifier, and the statements below use nothing of it
    but that it is fresh. *)
Definition gen_random_uuid (ms : list memory) : uuid :=
  N.succ (fold_right N.max 0%N (map id ms)).

(** [UPDATE memories SET ... WHERE cond]: every row that satisfies [cond]
    is replaced; the statement raises as soon as one new row does. *)
Fixpoint update_where (cond : memory -> bool) (set : memory -> outcome memory)
    (ms : list memory) : outcome (list memory) :=
  match ms with
  | [] => Done []
  | m :: rest =>
      m' <- (if cond m then set m else Done m) ;;
      rest' <- update_where cond set rest ;;
      Done (m' :: rest')
  end.

End Schema.

(** ** Server-side routines ([setup-db-v2.py]) *)

Module Server.
Import Schema.

(** [calculate_retention(p_stability, p_importance, p_last_accessed)]. *)
Definition calculate_retention (now : timestamptz)
    (p_stability p_importance : R) (p_last_accessed : timestamptz) : R :=
  let days_elapsed := (now - p_last_accessed) / 86400 in
  let importance_boost := 1 + p_importance * 2 in
  let decay_constant := p_stability * importance_boost * 30 in
  let decay_constant :=
    if Rlt_dec decay_constant 1 then 1 else decay_constant in
  Rmax 0 (Rmin 1 (exp (- days_elapsed / decay_constant))).

(** [LEAST(a, b)] where [b] may be [NULL]: [NULL] arguments are ignored. *)
Definition least (a : R) (b : option R) : R :=
  match b with
  | Some y => Rmin a y
  | None => a
  end.

(** The [SET] clause of [reinforce_memory] on one row. *)
Definition reinforce_row (now : timestamptz) (current_stability : option R)
    (spacing_bonus : R) (m : memory) : outcome memory :=
  let stability' :=
    least 1 (option_map (fun s => s + 0.1 * spacing_bonus) current_stability) in
  let access_count' := (access_count m + 1)%Z in
  if (integer_max <? access_count')%Z then Raised integer_out_of_range
  else if negb (between stability' 0 1)
  then Raised (check_violation "memories_stability_check")
  else Done (mkMemory (id m) (agent_id m) (content m) (embedding m) (mtype m)
               (topics m) (created_at m) (event_date m) (expires_at m)
               (importance m) stability' now access_count'
               (source_channel m) (source_session m) (is_summary m)
               (summarizes m) (is_deleted m)).

(** [reinforce_memory(p_memory_id)]: [SELECT ... INTO] leaves its targets
    [NULL] when no row matches. *)
Definition reinforce_memory (now : timestamptz) (p_memory_id : uuid)
    (ms : list memory) : outcome (list memory) :=
  let selected := find (fun m => N.eqb (id m) p_memory_id) ms in
  let current_stability := option_map stability selected in
  let days_since_access :=
    option_map (fun m => (now - last_accessed m) / 86400) selected in
  let spacing_bonus :=
    least 2 (option_map (fun d => d / 7) days_since_access) in
  update_where (fun m => N.eqb (id m) p_memory_id)
               (reinforce_row now current_stability spacing_bonus) ms.

(** Default of [p_increment] in [strengthen_link]. *)
Definition default_increment : R := 0.1.

Definition link_keyed (s t : uuid) (l : link) : bool :=
  N.eqb (source_id l) s && N.eqb (target_id l) t.

Definition references (ms : list memory) (i : uuid) : bool :=
  existsb (fun m => N.eqb (id m) i) ms.

(** [INSERT INTO memory_links (source_id, target_id, strength)
    VALUES (s, t, 0.5) ON CONFLICT (source_id, target_id) DO UPDATE SET
    strength = LEAST(1.0, memory_links.strength + p_increment),
    updated_at = NOW()].  A row that is inserted must reference two rows of
    [ms], the table [memories]. *)
Fixpoint upsert_link (now : timestamptz) (ms : list memory) (s t : uuid)
    (p_increment : R) (ls : list link) : outcome (list link) :=
  match ls with
  | [] =>
      if negb (references ms s)
      then Raised (foreign_key_violation "memory_links_source_id_fkey")
      else if negb (references ms t)
      then Raised (foreign_key_violation "memory_links_target_id_fkey")
      else Done [mkLink s t 0.5 "association" now now]
  | l :: rest =>
      if link_keyed s t l then
        let strength' := Rmin 1 (strength l + p_increment) in
        if between strength' 0 1
        then Done (mkLink (source_id l) (target_id l) strength' (link_type l)
                     (link_created_at l) now :: rest)
        else Raised (check_violation "memory_links_strength_check")
      else
        rest' <- upsert_link now ms s t p_increment rest ;;
        Done (l :: rest')
  end.

(** [strengthen_link(p_source_id, p_target_id, p_increment)]. *)
Definition strengthen_link (now : timestamptz) (p_source_id p_target_id : uuid)
    (p_increment : R) (db : database) : outcome database :=
  ls1 <- upsert_link now (memories db) p_source_id p_target_id p_increment
           (memory_links db) ;;
  ls2 <- upsert_link now (memories db) p_target_id p_source_id p_increment
           ls1 ;;
  Done (mkDatabase (memories db) ls2).

End Server.

(** ** Client functions ([memory-utils.py]) *)

Module Client.
Import Schema.

(** [calculate_retention(stability, importance, last_accessed)];
    [datetime.now] is the argument [now]. *)
Definition calculate_retention (now : timestamptz) (stability importance : R)
    (last_accessed : timestamptz) : R :=
  let days_elapsed := (now - last_accessed) / 86400 in
  let importance_boost := 1 + importance * 2 in
  let decay_constant := stability * importance_boost * 30 in
  let decay_constant :=
    if Rlt_dec decay_constant 1 then 1 else decay_constant in
  Rmax 0 (Rmin 1 (exp (- days_elapsed / decay_constant))).

(** Keyword arguments of [store_memory]. *)
Record store_options : Type := mkStoreOptions {
  kw_memory_type : memory_type;
  kw_importance : option R;
  kw_topics : option (list string);
  kw_event_date : option date;
  kw_expires_at : option date;
  kw_source_channel : option string;
  kw_source_session : option string;
  kw_skip_dedup : bool;
  kw_dedup_threshold : R;
  kw_auto_score_importance : bool;
  kw_auto_extract_topics : bool
}.

Definition store_defaults : store_options :=
  mkStoreOptions episodic None None None None None None false 0.92 false false.

(** The dictionary returned by [store_memory]. *)
Inductive store_result : Type :=
| reinforced (rid : uuid) (existing_content : string) (similarity : R)
| created (rid : uuid) (rcreated_at : timestamptz).

Definition result_id (r : store_result) : uuid :=
  match r with
  | reinforced i _ _ => i
  | created i _ => i
  end.

(** Keyword arguments of [retrieve_memories]. *)
Record retrieve_options : Type := mkRetrieveOptions {
  kw_limit : nat;
  kw_include_associations : bool;
  kw_min_retention : R;
  kw_memory_types : option (list memory_type)
}.

Definition retrieve_defaults : retrieve_options :=
  mkRetrieveOptions 5 true 0.2 None.

(** A row of the semantic search: the stored row as it was read, with the
    two computed columns. *)
Record retrieved : Type := mkRetrieved {
  row : memory;
  similarity : R;
  retention : R
}.

(** A row of the association query. *)
Record associated : Type := mkAssociated {
  assoc_row : memory;
  link_strength : R;
  assoc_retention : R
}.

Record retrieval : Type := mkRetrieval {
  result_memories : list retrieved;
  result_associations : list associated;
  query : string;
  retrieved_count : nat;
  association_count : nat
}.

(** A row of the decayed scan of [consolidate_memories]. *)
Record fading_memory : Type := mkFading {
  f_id : uuid;
  f_content : string;
  f_memory_type : memory_type;
  f_topics : list string;
  f_retention : R;
  f_created_at : timestamptz
}.

Record compressed_entry : Type := mkCompressed {
  c_topic : string;
  c_count : nat;
  c_summary_id : uuid;
  c_original_ids : list uuid
}.

Record report : Type := mkReport {
  decayed : list (uuid * string * R);
  compressed : list compressed_entry;
  promotion_candidates : list (uuid * string * R * Z);
  links_created : nat
}.

(** [topic_groups]: a dictionary in insertion order. *)
Definition topic_groups : Type := list (string * list fading_memory).

(** [topic_groups[topic].append(mem)], creating the entry when absent. *)
Fixpoint group_append (topic : string) (mem : fading_memory)
    (groups : topic_groups) : topic_groups :=
  match groups with
  | [] => [(topic, [mem])]
  | (t, mems) :: rest =>
      if String.eqb t topic then (t, mems ++ [mem]) :: rest
      else (t, mems) :: group_append topic mem rest
  end.

Definition group_by_topic (fading : list fading_memory) : topic_groups :=
  fold_left
    (fun groups mem =>
       fold_left (fun groups topic => group_append topic mem groups)
                 (f_topics mem) groups)
    fading [].

(** [SELECT DISTINCT ON (m.id)] over rows sorted by [m.id]: the first row of
    every run of equal identifiers is kept. *)
Fixpoint distinct_on_id (previous : option uuid) (rows : list (memory * link))
    : list (memory * link) :=
  match rows with
  | [] => []
  | (m, l) :: rest =>
      if match previous with
         | Some p => N.eqb p (id m)
         | None => false
         end
      then distinct_on_id previous rest
      else (m, l) :: distinct_on_id (Some (id m)) rest
  end.

(** [ORDER BY m.id, l.strength DESC]. *)
Definition assoc_le (a b : memory * link) : bool :=
  N.ltb (id (fst a)) (id (fst b))
  || (N.eqb (id (fst a)) (id (fst b))
      && Rleb (strength (snd b)) (strength (snd a))).

(** [memories m JOIN memory_links l ON m.id = l.target_id]. *)
Definition join_links (ms : list memory) (ls : list link)
    : list (memory * link) :=
  flat_map (fun m => map (pair m)
                       (filter (fun l => N.eqb (id m) (target_id l)) ls)) ms.

Definition any_id (i : uuid) (ids : list uuid) : bool := existsb (N.eqb i) ids.

(** The loops [for mem in ...: reinforce_memory(mem['id'])]. *)
Fixpoint reinforce_all (now : timestamptz) (ids : list uuid)
    (ms : list memory) : outcome (list memory) :=
  match ids with
  | [] => Done ms
  | i :: rest =>
      ms' <- Server.reinforce_memory now i ms ;;
      reinforce_all now rest ms'
  end.

(** Default of the argument [strength] of [link_memories]. *)
Definition default_strength : R := 0.5.

(** [link_memories(source_id, target_id, strength)]: the argument is passed
    to [strengthen_link] in the position of [p_increment]. *)
Definition link_memories (now : timestamptz) (source_id target_id : uuid)
    (strength : R) (db : database) : outcome database :=
  Server.strengthen_link now source_id target_id strength db.

Section Ports.
(** pgvector's [<=>], the embedding provider and the language model. *)
Variable cosine_distance : vector -> vector -> R.
Variable get_embedding : string -> vector.
Variable score_importance : string -> R.
Variable extract_topics : string -> list string.
Variable chat_summary : list fading_memory -> string.

(** [1 - (embedding <=> e)]. *)
Definition similarity_to (e : vector) (m : memory) : R :=
  1 - cosine_distance (embedding m) e.

(** The deduplication query of [store_memory], with [fetchone]. *)
Definition find_similar (agent : string) (e : vector) (threshold : R)
    (ms : list memory) : option memory :=
  hd_error
    (order_by (fun a b => Rleb (similarity_to e b) (similarity_to e a))
       (filter (fun m => String.eqb (agent_id m) agent
                         && negb (is_deleted m)
                         && Rltb threshold (similarity_to e m)) ms)).

(** The [INSERT] of [store_memory]: the columns that are not listed take
    their defaults. *)
Definition insert_memory (now : timestamptz) (agent text : string)
    (e : vector) (mt : memory_type) (imp : R) (tps : list string)
    (ev ex : option date) (channel session : option string)
    (ms : list memory) : outcome (memory * list memory) :=
  if negb (between imp 0 1)
  then Raised (check_violation "memories_importance_check")
  else
    let m := mkMemory (gen_random_uuid ms) agent text e mt tps now ev ex
               imp 0.3 now 0%Z channel session false [] false in
    Done (m, ms ++ [m]).

Definition falsy (tps : option (list string)) : bool :=
  match tps with
  | None | Some [] => true
  | Some (_ :: _) => false
  end.

Definition store_memory (now : timestamptz) (agent text : string)
    (kw : store_options) (db : database)
    : outcome (store_result * database) :=
  let imp :=
    match kw_importance kw with
    | Some i => i
    | None => if kw_auto_score_importance kw then score_importance text
              else 0.5
    end in
  let tps :=
    if falsy (kw_topics kw) then
      if kw_auto_extract_topics kw then extract_topics text else []
    else match kw_topics kw with Some t => t | None => [] end in
  let e := get_embedding text in
  let similar :=
    if kw_skip_dedup kw then None
    else find_similar agent e (kw_dedup_threshold kw) (memories db) in
  match similar with
  | Some s =>
      ms <- Server.reinforce_memory now (id s) (memories db) ;;
      Done (reinforced (id s) (content s) (similarity_to e s),
            mkDatabase ms (memory_links db))
  | None =>
      r <- insert_memory now agent text e (kw_memory_type kw) imp tps
             (kw_event_date kw) (kw_expires_at kw)
             (kw_source_channel kw) (kw_source_session kw) (memories db) ;;
      Done (created (id (fst r)) (created_at (fst r)),
            mkDatabase (snd r) (memory_links db))
  end.

Definition type_filter (types : option (list memory_type)) (m : memory)
    : bool :=
  match types with
  | None | Some [] => true
  | Some ts => existsb (memory_type_eqb (mtype m)) ts
  end.

Definition retention_of (now : timestamptz) (m : memory) : R :=
  Server.calculate_retention now (stability m) (importance m)
                             (last_accessed m).

(** The semantic search of [retrieve_memories]. *)
Definition select_primary (now : timestamptz) (agent : string) (q : vector)
    (kw : retrieve_options) (ms : list memory) : list retrieved :=
  let rank m := similarity_to q m * retention_of now m in
  let rows :=
    filter (fun m => String.eqb (agent_id m) agent
                     && negb (is_deleted m)
                     && Rltb (kw_min_retention kw) (retention_of now m)
                     && type_filter (kw_memory_types kw) m) ms in
  map (fun m => mkRetrieved m (similarity_to q m) (retention_of now m))
      (firstn (kw_limit kw)
         (order_by (fun a b => Rleb (rank b) (rank a)) rows)).

(** The association query of [retrieve_memories]. *)
Definition select_associations (now : timestamptz)
    (retrieved_ids : list uuid) (limit : nat) (db : database)
    : list associated :=
  let rows :=
    filter (fun r => any_id (source_id (snd r)) retrieved_ids
                     && negb (any_id (id (fst r)) retrieved_ids)
                     && negb (is_deleted (fst r))
                     && Rltb 0.3 (strength (snd r)))
           (join_links (memories db) (memory_links db)) in
  map (fun r => mkAssociated (fst r) (strength (snd r))
                  (retention_of now (fst r)))
      (firstn limit (distinct_on_id None (order_by assoc_le rows))).

Definition retrieve_memories (now : timestamptz) (agent query : string)
    (kw : retrieve_options) (db : database)
    : outcome (retrieval * database) :=
  let query_embedding := get_embedding query in
  let found := select_primary now agent query_embedding kw (memories db) in
  let retrieved_ids := map (fun r => id (row r)) found in
  ms1 <- reinforce_all now retrieved_ids (memories db) ;;
  let db1 := mkDatabase ms1 (memory_links db) in
  let associations :=
    match retrieved_ids with
    | [] => []
    | _ :: _ =>
        if kw_include_associations kw
        then select_associations now retrieved_ids (kw_limit kw) db1
        else []
    end in
  ms2 <- reinforce_all now (map (fun a => id (assoc_row a)) associations)
           ms1 ;;
  Done (mkRetrieval found associations query
          (List.length found) (List.length associations),
        mkDatabase ms2 (memory_links db)).

Definition summarize_memories (mems : list fading_memory) : string :=
  match mems with
  | [] => ""
  | [m] => f_content m
  | _ => chat_summary mems
  end.

(** Step 1 of [consolidate_memories]: the decayed scan. *)
Definition select_fading (now : timestamptz) (agent : string)
    (ms : list memory) : list fading_memory :=
  map (fun m => mkFading (id m) (content m) (mtype m) (topics m)
                  (retention_of now m) (created_at m))
      (filter (fun m => String.eqb (agent_id m) agent
                        && negb (is_deleted m)
                        && negb (is_summary m)
                        && Rltb (retention_of now m) 0.2) ms).

(** [UPDATE memories SET is_summary = TRUE WHERE id = ANY(ids)]. *)
Definition mark_summarized (ids : list uuid) (ms : list memory)
    : list memory :=
  map (fun m =>
         if any_id (id m) ids
         then mkMemory (id m) (agent_id m) (content m) (embedding m)
                (mtype m) (topics m) (created_at m) (event_date m)
                (expires_at m) (importance m) (stability m)
                (last_accessed m) (access_count m) (source_channel m)
                (source_session m) true (summarizes m) (is_deleted m)
         else m) ms.

(** Keyword arguments of the [store_memory] call of step 2. *)
Definition summary_options (topic : string) : store_options :=
  mkStoreOptions semantic (Some 0.7) (Some [topic]) None None None None
    true 0.92 false false.

(** Step 2, the loop over [topic_groups.items()].  Every [store_memory]
    call commits a transaction of its own; the call that writes the
    summary number [k] of this run sees [NOW() = store_clock k]. *)
Fixpoint compress_groups (store_clock : nat -> timestamptz)
    (agent : string) (groups : topic_groups) (db : database)
    (done : list compressed_entry)
    : outcome (list compressed_entry * database) :=
  match groups with
  | [] => Done (done, db)
  | (topic, group_mems) :: rest =>
      if (3 <=? List.length group_mems)%nat then
        let summary_text := summarize_memories group_mems in
        stored <- store_memory (store_clock (List.length done)) agent
                    summary_text (summary_options topic) db ;;
        let ids_to_mark := map f_id group_mems in
        let db' := mkDatabase
                     (mark_summarized ids_to_mark (memories (snd stored)))
                     (memory_links (snd stored)) in
        compress_groups store_clock agent rest db'
          (done ++ [mkCompressed topic (List.length group_mems)
                      (result_id (fst stored)) ids_to_mark])
      else compress_groups store_clock agent rest db done
  end.

(** Step 3: promotion candidates. *)
Definition select_promotion (agent : string) (ms : list memory)
    : list (uuid * string * R * Z) :=
  map (fun m => (id m, content m, stability m, access_count m))
      (filter (fun m => String.eqb (agent_id m) agent
                        && negb (is_deleted m)
                        && memory_type_eqb (mtype m) semantic
                        && Rltb 0.9 (stability m)
                        && (10 <? access_count m)%Z) ms).

(** The [WHERE] clause of step 4; [INTERVAL '30 days'] counted as
    [30 * 86400] seconds. *)
Definition dormant (now : timestamptz) (agent : string) (m : memory)
    : bool :=
  String.eqb (agent_id m) agent
  && negb (is_deleted m)
  && negb (is_summary m)
  && Rltb (retention_of now m) 0.05
  && Rltb (last_accessed m) (now - 30 * 86400).

(** Step 4: [UPDATE memories SET is_deleted = TRUE WHERE ...]. *)
Definition soft_delete_dormant (now : timestamptz) (agent : string)
    (ms : list memory) : list memory :=
  map (fun m =>
         if dormant now agent m
         then mkMemory (id m) (agent_id m) (content m) (embedding m)
                (mtype m) (topics m) (created_at m) (event_date m)
                (expires_at m) (importance m) (stability m)
                (last_accessed m) (access_count m) (source_channel m)
                (source_session m) (is_summary m) (summarizes m) true
         else m) ms.

Definition consolidate_memories (now : timestamptz)
    (store_clock : nat -> timestamptz) (agent : string)
    (compression_threshold : nat) (db : database)
    : outcome (report * database) :=
  let fading := select_fading now agent (memories db) in
  let decayed_rows :=
    map (fun m => (f_id m, substring 0 100 (f_content m), f_retention m))
        fading in
  step2 <- (if (compression_threshold <=? List.length fading)%nat
            then compress_groups store_clock agent (group_by_topic fading)
                   db []
            else Done ([], db)) ;;
  let db2 := snd step2 in
  let candidates := select_promotion agent (memories db2) in
  let db4 := mkDatabase (soft_delete_dormant now agent (memories db2))
                        (memory_links db2) in
  Done (mkReport decayed_rows (fst step2) candidates 0, db4).

End Ports.
End Client.

(** ** Text handling ([str.strip], [str.split], slices)

    A Python [str] is modelled by [string]: a sequence of characters with
    codes below 256.  [isspace] is the test of [str.isspace] on one
    character. *)

Module Text.
Import Ascii.
Local Open Scope string_scope.

(** Truthiness of a [str]: only the empty string is false. *)
Definition truthy (s : string) : bool :=
  match s with
  | EmptyString => false
  | String _ _ => true
  end.

Section Whitespace.
Variable isspace : ascii -> bool.

(** [s.lstrip()]. *)
Fixpoint lstrip (s : string) : string :=
  match s with
  | EmptyString => EmptyString
  | String c rest => if isspace c then lstrip rest else s
  end.

(** [s.rstrip()]. *)
Fixpoint rstrip (s : string) : string :=
  match s with
  | EmptyString => EmptyString
  | String c rest =>
      match rstrip rest with
      | EmptyString => if isspace c then EmptyString else String c EmptyString
      | String _ _ as kept => String c kept
      end
  end.

(** [s.strip()]. *)
Definition strip (s : string) : string := rstrip (lstrip s).

End Whitespace.

(** [s.split(sep)] for a separator of one character: the list is never
    empty, and two adjacent separators enclose an empty piece. *)
Fixpoint split (sep : ascii) (s : string) : list string :=
  match s with
  | EmptyString => [EmptyString]
  | String c rest =>
      if Ascii.eqb c sep then EmptyString :: split sep rest
      else match split sep rest with
           | [] => [String c EmptyString]
           | piece :: pieces => String c piece :: pieces
           end
  end.

(** [s.startswith(prefix)]. *)
Definition startswith (s prefix : string) : bool := String.prefix prefix s.

(** [l[:stop]]: a negative [stop] counts from the end of the list. *)
Definition slice_to {A : Type} (stop : Z) (l : list A) : list A :=
  if (0 <=? stop)%Z then firstn (Z.to_nat stop) l
  else firstn (List.length l - Z.to_nat (- stop)) l.

End Text.

(** ** Replies of the language model ([memory-utils.py]) *)

Module Llm.
Import Ascii.
Local Open Scope string_scope.

(** A Python [float]: a real number, an infinity or a NaN. *)
Inductive pyfloat : Type :=
| finite (x : R)
| pos_inf
| neg_inf
| nan.

(** [a < b] on floats: every comparison with a NaN is false. *)
Definition float_lt (a b : pyfloat) : bool :=
  match a, b with
  | nan, _ | _, nan => false
  | finite x, finite y => Rltb x y
  | neg_inf, neg_inf => false
  | neg_inf, _ => true
  | _, neg_inf => false
  | pos_inf, _ => false
  | finite _, pos_inf => true
  end.

(** [min(a, b)] and [max(a, b)] of two arguments: the second argument
    replaces the first only when it compares strictly below (above). *)
Definition py_min (a b : pyfloat) : pyfloat := if float_lt b a then b else a.
Definition py_max (a b : pyfloat) : pyfloat := if float_lt a b then b else a.

Section Model.
Variable isspace : ascii -> bool.

(** The text of the completion for the topic prompt, and the text of the
    completion for the rating prompt made from [text] and [context]. *)
Variable topics_reply : string -> string.
Variable rating_reply : string -> string -> string.

(** [float(s)]: [None] when it raises [ValueError]. *)
Variable parse_float : string -> option pyfloat.

(** [extract_topics(text, max_topics)]. *)
Definition extract_topics (text : string) (max_topics : Z) : list string :=
  let topics_text := Text.strip isspace (topics_reply text) in
  let topics :=
    map (Text.strip isspace)
        (filter (fun t => Text.truthy (Text.strip isspace t))
                (Text.split "," topics_text)) in
  Text.slice_to max_topics topics.

(** [score_importance(text, context)]: the bare [except] turns a reply
    that [float] rejects into 0.5. *)
Definition score_importance (text context : string) : pyfloat :=
  match parse_float (Text.strip isspace (rating_reply text context)) with
  | Some score => py_max (finite 0) (py_min (finite 1) score)
  | None => finite 0.5
  end.

End Model.

End Llm.

(** ** Schema installation ([setup-db.py]) *)

Module Setup.
Import Ascii.
Local Open Scope string_scope.

Section Statements.
Variable isspace : ascii -> bool.

(** The test [if stmt and not stmt.startswith('--')]. *)
Definition runnable (stmt : string) : bool :=
  Text.truthy stmt && negb (Text.startswith stmt "--").

(** The statements that the loop over [schema.split(';')] passes to
    [cur.execute], in order. *)
Definition statements (schema : string) : list string :=
  filter runnable (map (Text.strip isspace) (Text.split ";" schema)).

End Statements.
End Setup.

(** ** Specification vocabulary *)

Module Spec.
Import Schema.

(** [clamp(x, lo, hi)] of the retention formula. *)
Definition clamp (x lo hi : R) : R := Rmax lo (Rmin hi x).

(** The retention of the specification: [tau = max(1, s * (1 + 2 i) * 30)]
    days and [clamp(exp(- d / tau), 0, 1)] for [d] days elapsed. *)
Definition retention (s i t_a t_n : R) : R :=
  let d := (t_n - t_a) / 86400 in
  let tau := Rmax 1 (s * (1 + 2 * i) * 30) in
  clamp (exp (- d / tau)) 0 1.

(** The stability after a reinforcement at [now]. *)
Definition reinforced_stability (now : timestamptz) (m : memory) : R :=
  Rmin 1 (stability m
          + 0.1 * Rmin 2 ((now - last_accessed m) / 86400 / 7)).

(** The row after a reinforcement at [now]. *)
Definition reinforced (now : timestamptz) (m : memory) : memory :=
  mkMemory (id m) (agent_id m) (content m) (embedding m) (mtype m)
    (topics m) (created_at m) (event_date m) (expires_at m) (importance m)
    (reinforced_stability now m) now (access_count m + 1)%Z
    (source_channel m) (source_session m) (is_summary m) (summarizes m)
    (is_deleted m).

(** A row that the schema admits and that was last touched by a
    transaction that started no later than [now]. *)
Definition row_ok (now : timestamptz) (m : memory) : Prop :=
  0 <= stability m <= 1
  /\ last_accessed m <= now
  /\ (access_count m < integer_max)%Z.

(** The primary key of [memories]. *)
Definition primary_key (ms : list memory) : Prop := NoDup (map id ms).

(** The row of [ms] with identifier [i], if any. *)
Definition lookup (i : uuid) (ms : list memory) : option memory :=
  find (fun m => N.eqb (id m) i) ms.

(** The strength of the link row [(s, t)], if the row exists. *)
Definition strength_of (s t : uuid) (ls : list link) : option R :=
  option_map strength (find (Server.link_keyed s t) ls).

(** The distinct elements of a list, in the order of their first
    occurrence. *)
Fixpoint first_seen (l : list string) : list string :=
  match l with
  | [] => []
  | t :: rest => t :: filter (fun u => negb (String.eqb u t)) (first_seen rest)
  end.

(** The topics met while the fading memories are scanned, row by row. *)
Definition scanned_topics (fading : list Client.fading_memory)
    : list string :=
  flat_map Client.f_topics fading.

Definition occurrences (t : string) (l : list string) : nat :=
  List.length (filter (String.eqb t) l).

(** The number of memories filed under the topic [t]. *)
Definition group_size (t : string) (groups : Client.topic_groups) : nat :=
  match find (fun g => String.eqb (fst g) t) groups with
  | Some g => List.length (snd g)
  | None => 0%nat
  end.

(** How an entry of the consolidation report relates to the group it was
    made from. *)
Definition entry_of (e : Client.compressed_entry)
    (g : string * list Client.fading_memory) : Prop :=
  Client.c_topic e = fst g
  /\ Client.c_original_ids e = map Client.f_id (snd g)
  /\ Client.c_count e = List.length (snd g).

(** The row that [store_memory] wrote for an entry of the report; [old]
    is the table before the consolidation. *)
Definition summary_of (agent : string) (old : list memory)
    (e : Client.compressed_entry) (s : memory) : Prop :=
  id s = Client.c_summary_id e
  /\ summarizes s = [] /\ is_summary s = false
  /\ mtype s = semantic /\ importance s = 0.7
  /\ topics s = [Client.c_topic e]
  /\ agent_id s = agent /\ is_deleted s = false
  /\ ~ In (id s) (map id old).

(** The row [m] with the tombstone flag set to [b]. *)
Definition with_deleted (b : bool) (m : memory) : memory :=
  mkMemory (id m) (agent_id m) (content m) (embedding m) (mtype m)
    (topics m) (created_at m) (event_date m) (expires_at m) (importance m)
    (stability m) (last_accessed m) (access_count m) (source_channel m)
    (source_session m) (is_summary m) (summarizes m) b.

(** A memory that the dormant sweep is to delete: of the agent, not
    deleted, not a summary, retention below 0.05, last accessed more than
    30 days before [now]. *)
Definition dormant (now : timestamptz) (agent : string) (m : memory)
    : Prop :=
  agent_id m = agent /\ is_deleted m = false /\ is_summary m = false
  /\ Server.calculate_retention now (stability m) (importance m)
       (last_accessed m) < 0.05
  /\ last_accessed m < now - 30 * 86400.

(** Lexicographic order of strings, by character code. *)
Definition lexicographic (l : list string) : Prop :=
  StronglySorted (fun a b => String.leb a b = true) l.

(** A row that the deduplication query of [store_memory] selects: same
    agent, not deleted, similarity above the threshold. *)
Definition dedup_candidate (cosine_distance : vector -> vector -> R)
    (agent : string) (e : vector) (threshold : R) (m : memory) : Prop :=
  agent_id m = agent /\ is_deleted m = false
  /\ threshold < Client.similarity_to cosine_distance e m.

End Spec.

(** ** Sample data *)

Module Fixtures.
Import Schema.
Local Open Scope string_scope.

(** The cosine distance of pgvector, on non-zero vectors of equal
    dimension. *)
Fixpoint dot (u v : vector) : R :=
  match u, v with
  | x :: u', y :: v' => x * y + dot u' v'
  | _, _ => 0
  end.

Definition cosine_distance (u v : vector) : R :=
  1 - dot u v / (sqrt (dot u u) * sqrt (dot v v)).

(** A provider that embeds every text to the same unit vector, and a
    language model with constant answers. *)
Definition get_embedding (_ : string) : vector := [1].
Definition score_importance (_ : string) : R := 0.5.
Definition extract_topics (_ : string) : list string := [].
Definition chat_summary (_ : list Client.fading_memory) : string := "gist".

Definition store_memory :=
  Client.store_memory cosine_distance get_embedding score_importance
    extract_topics.
Definition retrieve_memories :=
  Client.retrieve_memories cosine_distance get_embedding.
Definition consolidate_memories :=
  Client.consolidate_memories cosine_distance get_embedding score_importance
    extract_topics chat_summary.

(** A row of agent [a] as [store_memory] inserts it at time [t]. *)
Definition row (i : uuid) (text : string) (tps : list string)
    (t : timestamptz) : memory :=
  mkMemory i "a" text [1] episodic tps t None None 0.5 0.3 t 0%Z None None
    false [] false.

Definition empty : database := mkDatabase [] [].

(** Scenario 1: a preference and its near-duplicate. *)
Definition dark_mode : string := "user prefers dark mode".
Definition dark_mode_again : string := "user prefers dark mode.".
Definition dark_mode_options : Client.store_options :=
  Client.mkStoreOptions episodic (Some 0.5) (Some ["ui"]) None None None None
    false 0.92 false false.
Definition after_first_store : database :=
  mkDatabase [row 1%N dark_mode ["ui"] 0] [].

(** 1800 days, in seconds. *)
Definition much_later : timestamptz := 155520000.

(** A week, in seconds. *)
Definition a_week : timestamptz := 604800.

Definition two_rows : list memory :=
  [row 1%N "tea" [] 0; row 2%N "coffee" [] 0].

(** One fresh memory linked to two memories last accessed 1800 days ago. *)
Definition graph : database :=
  mkDatabase
    [row 1%N "fresh" [] much_later; row 2%N "old" [] 0; row 3%N "older" [] 0]
    [mkLink 1%N 2%N 0.4 "association" 0 0;
     mkLink 1%N 3%N 0.9 "association" 0 0].

(** Five memories last accessed 1800 days ago; three carry the topics
    [b] and [a], in that order. *)
Definition faded : database :=
  mkDatabase
    [row 1%N "one" ["b"; "a"] 0; row 2%N "two" ["b"; "a"] 0;
     row 3%N "three" ["b"; "a"] 0; row 4%N "four" [] 0; row 5%N "five" [] 0]
    [].

(** Two memories without links. *)
Definition pair : database := mkDatabase two_rows [].

(** Scenario 6: 45 days, in seconds, and a memory of stability 0.3 and
    importance 0.1 last accessed at time 0, as a summary or not. *)
Definition forty_five_days : timestamptz := 3888000.
Definition dormant_row (i : uuid) (summary : bool) : memory :=
  mkMemory i "a" "dormant" [1] episodic [] 0 None None 0.1 0.3 0 0%Z None None
    summary [] false.

End Fixtures.

(** ** Further vocabulary *)

Module Laws.
Import Schema.
Import Ascii.

(** The columns that [reinforce_memory] does not write. *)
Definition same_facts (m m' : memory) : Prop :=
  id m' = id m /\ agent_id m' = agent_id m /\ content m' = content m
  /\ embedding m' = embedding m /\ mtype m' = mtype m
  /\ topics m' = topics m /\ created_at m' = created_at m
  /\ event_date m' = event_date m /\ expires_at m' = expires_at m
  /\ importance m' = importance m
  /\ source_channel m' = source_channel m
  /\ source_session m' = source_session m
  /\ is_summary m' = is_summary m /\ summarizes m' = summarizes m
  /\ is_deleted m' = is_deleted m.

(** [n] calls of [link_memories] on the same pair, the call number [k] in
    a transaction that starts at [clock k]. *)
Fixpoint link_repeatedly (n : nat) (clock : nat -> timestamptz)
    (a b : uuid) (strength : R) (db : database) : outcome database :=
  match n with
  | O => Done db
  | S k =>
      db' <- Client.link_memories (clock O) a b strength db ;;
      link_repeatedly k (fun i => clock (S i)) a b strength db'
  end.

(** A row that the semantic search of [retrieve_memories] admits. *)
Definition retrievable (now : timestamptz) (agent : string)
    (kw : Client.retrieve_options) (m : memory) : Prop :=
  agent_id m = agent /\ is_deleted m = false
  /\ Client.kw_min_retention kw
     < Server.calculate_retention now (stability m) (importance m)
         (last_accessed m)
  /\ Client.type_filter (Client.kw_memory_types kw) m = true.

(** The importance that [store_memory] writes. *)
Definition stored_importance (score_importance : string -> R)
    (kw : Client.store_options) (text : string) : R :=
  match Client.kw_importance kw with
  | Some i => i
  | None =>
      if Client.kw_auto_score_importance kw then score_importance text
      else 0.5
  end.

(** The limits of the columns of [memories] that the model does not
    enforce: [agent_id VARCHAR(50)], [embedding vector(1536)],
    [source_channel VARCHAR(50)] and [source_session VARCHAR(100)].  An
    [INSERT] outside them raises in PostgreSQL. *)
Definition fits_columns (agent : string) (e : vector)
    (kw : Client.store_options) : Prop :=
  (String.length agent <= 50)%nat
  /\ List.length e = 1536%nat
  /\ (forall c, Client.kw_source_channel kw = Some c ->
                (String.length c <= 50)%nat)
  /\ (forall s, Client.kw_source_session kw = Some s ->
                (String.length s <= 100)%nat).

(** The row [m] with its two flags set to [s] and [d]. *)
Definition with_flags (s d : bool) (m : memory) : memory :=
  mkMemory (id m) (agent_id m) (content m) (embedding m) (mtype m)
    (topics m) (created_at m) (event_date m) (expires_at m) (importance m)
    (stability m) (last_accessed m) (access_count m) (source_channel m)
    (source_session m) s (summarizes m) d.

(** [m'] is [m] with flags that were raised or kept, never lowered. *)
Definition flags_raised (m m' : memory) : Prop :=
  m' = with_flags (is_summary m') (is_deleted m') m
  /\ (is_summary m = true -> is_summary m' = true)
  /\ (is_deleted m = true -> is_deleted m' = true).

(** The list filed under [topic] in [topic_groups], empty when the key is
    absent. *)
Definition group_of (topic : string) (groups : Client.topic_groups)
    : list Client.fading_memory :=
  match find (fun g => String.eqb (fst g) topic) groups with
  | Some g => snd g
  | None => []
  end.

(** The fading memories that carry [topic], in scan order, each as many
    times as its topic list names it. *)
Definition filed_under (topic : string) (fading : list Client.fading_memory)
    : list Client.fading_memory :=
  flat_map (fun f => repeat f (Spec.occurrences topic (Client.f_topics f)))
           fading.

(** The character [c] occurs in [s]. *)
Fixpoint mentions (c : ascii) (s : string) : bool :=
  match s with
  | EmptyString => false
  | String d rest => Ascii.eqb d c || mentions c rest
  end.

(** A string that does not begin with white space. *)
Definition starts_clean (isspace : ascii -> bool) (s : string) : Prop :=
  match s with
  | EmptyString => True
  | String c _ => isspace c = false
  end.

(** A topic as [extract_topics] returns it: not empty, without a comma,
    without white space at either end. *)
Definition clean_topic (isspace : ascii -> bool) (t : string) : Prop :=
  t <> EmptyString /\ mentions "," t = false /\ Text.strip isspace t = t.

(** A statement as [setup-db.py] executes it: not empty, not starting
    with a comment mark, without a semicolon, without white space at
    either end. *)
Definition clean_statement (isspace : ascii -> bool) (stmt : string)
    : Prop :=
  Setup.runnable stmt = true /\ mentions ";" stmt = false
  /\ Text.strip isspace stmt = stmt.

(** A schema file with one statement per line, each closed by a
    semicolon. *)
Fixpoint script (stmts : list string) : string :=
  match stmts with
  | [] => EmptyString
  | stmt :: rest => (stmt ++ String ";" (String "010" (script rest)))%string
  end.

End Laws.

(** ** Further sample data *)

Module Cases.
Import Schema.
Import Ascii.
Local Open Scope string_scope.

(** The stored preference of scenario 1, soft-deleted. *)
Definition forgotten : database :=
  mkDatabase
    [mkMemory 1%N "a" Fixtures.dark_mode [1] episodic ["ui"] 0 None None
       0.5 0.3 0 0%Z None None false [] true]
    [].

(** A provider that embeds every text to the same vector of dimension
    1536. *)
Definition wide_embedding (_ : string) : vector := repeat 1 1536.

(** A memory of stability 0.5 whose [last_accessed] is one week after
    time 0. *)
Definition ahead : memory :=
  mkMemory 1%N "a" "tea" [1] episodic [] 0 None None 0.5 0.5
    Fixtures.a_week 0%Z None None false [] false.

(** Keyword arguments with an importance that the column rejects. *)
Definition overrated : Client.store_options :=
  Client.mkStoreOptions semantic (Some 1.5) None None None None None
    false 0.92 false false.

(** A retrieval that asks for no row. *)
Definition no_rows : Client.retrieve_options :=
  Client.mkRetrieveOptions 0 true 0.2 None.

(** [str.isspace] on the characters with codes below 256. *)
Definition isspace (c : ascii) : bool :=
  let n := nat_of_ascii c in
  ((9 <=? n) && (n <=? 13) || (28 <=? n) && (n <=? 32)
   || (n =? 133) || (n =? 160))%nat.

(** A reply to the topic prompt. *)
Definition two_topics (_ : string) : string := "ui, dark mode".

(** A schema file of two statements, and a piece of a schema file that
    begins with a comment line. *)
Definition two_statements : list string :=
  ["CREATE TABLE notes (body TEXT)"; "CREATE INDEX notes_idx ON notes(body)"].
Definition commented : string :=
  "-- notes" ++ String "010" "CREATE TABLE notes (body TEXT)".

End Cases.

(** * Properties *)

(** ** Comparisons *)

Lemma Rltb_true_iff (x y : R) : Rltb x y = true <-> x < y.
Proof. unfold Rltb. destruct (Rlt_dec x y); split; intros; try easy. Qed.

Lemma Rltb_false_iff (x y : R) : Rltb x y = false <-> y <= x.
Proof.
  unfold Rltb. destruct (Rlt_dec x y); split; intros; try easy; lra.
Qed.

Lemma Rleb_true_iff (x y : R) : Rleb x y = true <-> x <= y.
Proof. unfold Rleb. destruct (Rle_dec x y); split; intros; try easy. Qed.

Lemma Rleb_false_iff (x y : R) : Rleb x y = false <-> y < x.
Proof.
  unfold Rleb. destruct (Rle_dec x y); split; intros; try easy; lra.
Qed.

Lemma between_true_iff (x lo hi : R) : between x lo hi = true <-> lo <= x <= hi.
Proof.
  unfold between. rewrite andb_true_iff, !Rleb_true_iff. reflexivity.
Qed.

(** ** Retention *)

Lemma decay_constant_max (dc : R) :
  (if Rlt_dec dc 1 then 1 else dc) = Rmax 1 dc.
Proof.
  destruct (Rlt_dec dc 1).
  - rewrite Rmax_left; lra.
  - rewrite Rmax_right; lra.
Qed.

Lemma server_retention_spec (now s i t_a : R) :
  Server.calculate_retention now s i t_a = Spec.retention s i t_a now.
Proof.
  unfold Server.calculate_retention, Spec.retention, Spec.clamp.
  rewrite decay_constant_max.
  replace (s * (1 + i * 2) * 30) with (s * (1 + 2 * i) * 30) by ring.
  reflexivity.
Qed.

Lemma client_retention_server (now s i t_a : R) :
  Client.calculate_retention now s i t_a
  = Server.calculate_retention now s i t_a.
Proof. reflexivity. Qed.

Lemma exp_nonpos_le_1 (x : R) : x <= 0 -> exp x <= 1.
Proof.
  intros Hx. destruct (Req_dec x 0) as [->|Hne].
  - rewrite exp_0. lra.
  - rewrite <- exp_0. left. apply exp_increasing. lra.
Qed.

Lemma clamp_unit (x : R) : 0 <= x <= 1 -> Spec.clamp x 0 1 = x.
Proof.
  intros [H0 H1]. unfold Spec.clamp.
  rewrite Rmin_right by assumption. apply Rmax_right. assumption.
Qed.

Lemma retention_range (now s i t_a : R) :
  0 <= Server.calculate_retention now s i t_a <= 1.
Proof.
  unfold Server.calculate_retention. split.
  - apply Rmax_l.
  - apply Rmax_lub; [lra | apply Rmin_l].
Qed.

(** A row read in the transaction that last touched it has retention 1. *)
Lemma retention_fresh (now s i : R) :
  Server.calculate_retention now s i now = 1.
Proof.
  unfold Server.calculate_retention.
  replace (- ((now - now) / 86400) / _) with 0.
  - rewrite exp_0, Rmin_left by lra. apply Rmax_right. lra.
  - unfold Rdiv. ring.
Qed.

(** *** The value of [exp (-10/18)]

    [1 + x <= exp x] at [x = -+ 5 / (9 * 2^13)], squared thirteen times with
    the rational bound rounded down at each step. *)

Lemma exp_double_lower (a b x y : R) :
  y = 2 * x -> 0 <= a -> b <= a * a -> a <= exp x -> b <= exp y.
Proof.
  intros -> Ha Hb Hx. replace (2 * x) with (x + x) by ring.
  rewrite exp_plus. apply Rle_trans with (a * a); [assumption|].
  apply Rmult_le_compat; assumption.
Qed.

(** One squaring step: from [a <= exp x] to [b <= exp (2 x)] for a
    rational [b <= a * a]. *)
Ltac redouble H H' a b x y :=
  assert (H' := exp_double_lower a b x y ltac:(lra) ltac:(lra) ltac:(lra) H).

Lemma exp_minus_five_ninths_lower : 0.5737419264 <= exp (-5 / 9).
Proof.
  assert (H0 : 0.9999321831 <= exp (-5 / 73728)).
  { apply Rle_trans with (1 + -5 / 73728); [lra | apply exp_ineq1_le]. }
  redouble H0 H1 0.9999321831 0.9998643707
    (-5 / 73728) (-5 / 36864).
  redouble H1 H2 0.9998643707 0.9997287597
    (-5 / 36864) (-5 / 18432).
  redouble H2 H3 0.9997287597 0.9994575929
    (-5 / 18432) (-5 / 9216).
  redouble H3 H4 0.9994575929 0.9989154800
    (-5 / 9216) (-5 / 4608).
  redouble H4 H5 0.9989154800 0.9978321361
    (-5 / 4608) (-5 / 2304).
  redouble H5 H6 0.9978321361 0.9956689718
    (-5 / 2304) (-5 / 1152).
  redouble H6 H7 0.9956689718 0.9913567014
    (-5 / 1152) (-5 / 576).
  redouble H7 H8 0.9913567014 0.9827881094
    (-5 / 576) (-5 / 288).
  redouble H8 H9 0.9827881094 0.9658724679
    (-5 / 288) (-5 / 144).
  redouble H9 H10 0.9658724679 0.9329096242
    (-5 / 144) (-5 / 72).
  redouble H10 H11 0.9329096242 0.8703203669
    (-5 / 72) (-5 / 36).
  redouble H11 H12 0.8703203669 0.7574575410
    (-5 / 36) (-5 / 18).
  redouble H12 H13 0.7574575410 0.5737419264
    (-5 / 18) (-5 / 9).
  exact H13.
Qed.

Lemma exp_five_ninths_lower : 1.7428744022 <= exp (5 / 9).
Proof.
  assert (H0 : 1.0000678168 <= exp (5 / 73728)).
  { apply Rle_trans with (1 + 5 / 73728); [lra | apply exp_ineq1_le]. }
  redouble H0 H1 1.0000678168 1.0001356381
    (5 / 73728) (5 / 36864).
  redouble H1 H2 1.0001356381 1.0002712945
    (5 / 36864) (5 / 18432).
  redouble H2 H3 1.0002712945 1.0005426626
    (5 / 18432) (5 / 9216).
  redouble H3 H4 1.0005426626 1.0010856196
    (5 / 9216) (5 / 4608).
  redouble H4 H5 1.0010856196 1.0021724177
    (5 / 4608) (5 / 2304).
  redouble H5 H6 1.0021724177 1.0043495547
    (5 / 2304) (5 / 1152).
  redouble H6 H7 1.0043495547 1.0087180280
    (5 / 1152) (5 / 576).
  redouble H7 H8 1.0087180280 1.0175120600
    (5 / 576) (5 / 288).
  redouble H8 H9 1.0175120600 1.0353307922
    (5 / 288) (5 / 144).
  redouble H9 H10 1.0353307922 1.0719098492
    (5 / 144) (5 / 72).
  redouble H10 H11 1.0719098492 1.1489907248
    (5 / 72) (5 / 36).
  redouble H11 H12 1.1489907248 1.3201796856
    (5 / 36) (5 / 18).
  redouble H12 H13 1.3201796856 1.7428744022
    (5 / 18) (5 / 9).
  exact H13.
Qed.

Lemma exp_ten_eighteenths : 0.57374 < exp (-10 / 18) < 0.57377.
Proof.
  replace (-10 / 18) with (-5 / 9) by lra. split.
  - eapply Rlt_le_trans; [| apply exp_minus_five_ninths_lower]. lra.
  - replace (-5 / 9) with (- (5 / 9)) by lra. rewrite exp_Ropp.
    pose proof exp_five_ninths_lower as H.
    apply Rle_lt_trans with (/ 1.7428744022).
    + apply Rinv_le_contravar; [lra | exact H].
    + lra.
Qed.

(** C1. For all [s], [i], [t_a] and [t_n], both [calculate_retention]
    routines (the server one and the client one) return
    [clamp(exp(- d / tau), 0, 1)] with [d = (t_n - t_a) / 86400] and
    [tau = max(1, s * (1 + 2 i) * 30)]; for [s = 0.3], [i = 0.5] and
    [t_a] ten days before [t_n] the result is [exp (-10/18)], which lies
    between 0.57374 and 0.57377. *)
Theorem calculate_retention_formula :
  (forall s i t_a t_n : R,
      let d := (t_n - t_a) / 86400 in
      let tau := Rmax 1 (s * (1 + 2 * i) * 30) in
      Server.calculate_retention t_n s i t_a = Spec.clamp (exp (- d / tau)) 0 1
      /\ Client.calculate_retention t_n s i t_a
         = Spec.clamp (exp (- d / tau)) 0 1)
  /\ (forall t_n : R,
         Server.calculate_retention t_n 0.3 0.5 (t_n - 10 * 86400)
         = exp (-10 / 18)
         /\ Client.calculate_retention t_n 0.3 0.5 (t_n - 10 * 86400)
            = exp (-10 / 18))
  /\ 0.57374 < exp (-10 / 18) < 0.57377.
Proof.
  split; [| split].
  - intros s i t_a t_n d tau.
    split; exact (server_retention_spec t_n s i t_a).
  - intros t_n.
    assert (H : Server.calculate_retention t_n 0.3 0.5 (t_n - 10 * 86400)
                = exp (-10 / 18)).
    { rewrite server_retention_spec. unfold Spec.retention.
      replace (0.3 * (1 + 2 * 0.5) * 30) with 18 by lra.
      rewrite Rmax_right by lra.
      replace (- ((t_n - (t_n - 10 * 86400)) / 86400) / 18) with (-10 / 18)
        by lra.
      apply clamp_unit. split.
      - left. apply exp_pos.
      - apply exp_nonpos_le_1. lra. }
    split; exact H.
  - exact exp_ten_eighteenths.
Qed.

(** ** Reinforcement *)

Import Schema.

Lemma update_where_none (cond : memory -> bool) (set : memory -> outcome memory)
    (ms : list memory) :
  (forall m, In m ms -> cond m = false) -> update_where cond set ms = Done ms.
Proof.
  induction ms as [|m ms IH]; intros Hc; simpl; [reflexivity|].
  rewrite (Hc m (or_introl eq_refl)). simpl.
  rewrite IH by (intros x Hx; apply Hc; right; exact Hx). reflexivity.
Qed.

Lemma update_where_map (cond : memory -> bool) (set : memory -> outcome memory)
    (f : memory -> memory) (ms : list memory) :
  (forall m, In m ms -> cond m = true -> set m = Done (f m)) ->
  update_where cond set ms = Done (map (fun m => if cond m then f m else m) ms).
Proof.
  induction ms as [|m ms IH]; intros Hs; simpl; [reflexivity|].
  rewrite IH by (intros x Hx; apply Hs; right; exact Hx).
  destruct (cond m) eqn:Hc; simpl; [|reflexivity].
  rewrite (Hs m (or_introl eq_refl) Hc). reflexivity.
Qed.

(** An [UPDATE] that succeeds keeps the identifiers, in order. *)
Lemma update_where_ids (cond : memory -> bool) (set : memory -> outcome memory)
    (ms ms' : list memory) :
  (forall m m', set m = Done m' -> id m' = id m) ->
  update_where cond set ms = Done ms' -> map id ms' = map id ms.
Proof.
  intros Hid. revert ms'.
  induction ms as [|m ms IH]; intros ms' H; simpl in H.
  - injection H as <-. reflexivity.
  - destruct (if cond m then set m else Done m) as [m1|] eqn:Hm;
      simpl in H; [|discriminate].
    destruct (update_where cond set ms) as [rest|] eqn:Hr;
      simpl in H; [|discriminate].
    injection H as <-. simpl. rewrite (IH rest eq_refl). f_equal.
    destruct (cond m).
    + apply Hid. exact Hm.
    + injection Hm as <-. reflexivity.
Qed.

Lemma lookup_unique (ms : list memory) (m : memory) :
  Spec.primary_key ms -> In m ms -> Spec.lookup (id m) ms = Some m.
Proof.
  unfold Spec.primary_key, Spec.lookup.
  induction ms as [|x ms IH]; intros Hk Hin; simpl in *; [contradiction|].
  inversion Hk as [|? ? Hnot Hrest]; subst.
  destruct Hin as [->|Hin].
  - rewrite N.eqb_refl. reflexivity.
  - destruct (N.eqb (id x) (id m)) eqn:He.
    + apply N.eqb_eq in He. exfalso. apply Hnot. rewrite He.
      apply in_map. exact Hin.
    + apply IH; assumption.
Qed.

Lemma reinforced_stability_range (now : timestamptz) (m : memory) :
  Spec.row_ok now m ->
  stability m <= Spec.reinforced_stability now m <= 1.
Proof.
  intros [[Hs0 Hs1] [Hla _]]. unfold Spec.reinforced_stability.
  assert (0 <= Rmin 2 ((now - last_accessed m) / 86400 / 7)).
  { apply Rmin_glb; lra. }
  split.
  - apply Rmin_glb; lra.
  - apply Rmin_l.
Qed.

(** The [SET] clause on a row the schema admits does not raise. *)
Lemma reinforce_row_ok (now : timestamptz) (m : memory) :
  Spec.row_ok now m ->
  Server.reinforce_row now (Some (stability m))
    (Server.least 2 (Some ((now - last_accessed m) / 86400 / 7))) m
  = Done (Spec.reinforced now m).
Proof.
  intros Hok. pose proof (reinforced_stability_range now m Hok) as Hr.
  destruct Hok as [[Hs0 Hs1] [Hla Hac]].
  unfold Server.reinforce_row, Server.least, option_map.
  cbv beta iota zeta.
  change (Rmin 1 (stability m
                  + 0.1 * Rmin 2 ((now - last_accessed m) / 86400 / 7)))
    with (Spec.reinforced_stability now m).
  replace (integer_max <? access_count m + 1)%Z with false
    by (symmetry; apply Z.ltb_ge; lia).
  replace (between (Spec.reinforced_stability now m) 0 1) with true
    by (symmetry; apply between_true_iff; lra).
  reflexivity.
Qed.

(** On a table with a primary key, [reinforce_memory] rewrites the row of
    the given identifier and no other. *)
Lemma reinforce_memory_map (now : timestamptz) (p : uuid) (ms : list memory) :
  Spec.primary_key ms ->
  (forall m, In m ms -> id m = p -> Spec.row_ok now m) ->
  Server.reinforce_memory now p ms
  = Done (map (fun m => if N.eqb (id m) p then Spec.reinforced now m else m) ms).
Proof.
  intros Hk Hok. unfold Server.reinforce_memory.
  apply update_where_map. intros m Hin He. apply N.eqb_eq in He.
  fold (Spec.lookup p ms). rewrite <- He, (lookup_unique ms m Hk Hin).
  simpl option_map. apply reinforce_row_ok. apply Hok; assumption.
Qed.

Lemma map_id_reinforced (now : timestamptz) (p : uuid) (ms : list memory) :
  map id (map (fun m => if N.eqb (id m) p then Spec.reinforced now m else m) ms)
  = map id ms.
Proof.
  rewrite map_map. apply map_ext. intros m.
  destruct (N.eqb (id m) p); reflexivity.
Qed.

Lemma reinforce_memory_lookup (now : timestamptz) (p : uuid)
    (ms : list memory) (m : memory) :
  Spec.primary_key ms -> In m ms -> id m = p ->
  Spec.lookup p
    (map (fun m => if N.eqb (id m) p then Spec.reinforced now m else m) ms)
  = Some (Spec.reinforced now m).
Proof.
  intros Hk Hin He.
  replace p with (id (Spec.reinforced now m)) at 1 by exact He.
  apply lookup_unique.
  - unfold Spec.primary_key. rewrite map_id_reinforced. exact Hk.
  - apply in_map_iff. exists m. split; [|exact Hin].
    rewrite He, N.eqb_refl. reflexivity.
Qed.

(** C10. [reinforce_memory] called with an identifier that no row of
    [memories] carries returns without raising and leaves the table as it
    was. *)
Theorem reinforce_memory_unknown_id :
  forall (now : timestamptz) (p : uuid) (ms : list memory),
    (forall m, In m ms -> id m <> p) ->
    Server.reinforce_memory now p ms = Done ms.
Proof.
  intros now p ms H. unfold Server.reinforce_memory.
  apply update_where_none. intros m Hin.
  apply N.eqb_neq. apply H. exact Hin.
Qed.

(** C5, as the code has it.  Reinforcing a row that the schema admits, in
    a transaction whose [now] is not before the row's [last_accessed],
    sets [last_accessed] to [now], adds exactly 1 to [access_count] and
    sets [stability] to
    [min(1, stability + 0.1 * min(2, days_since_access / 7))], which is
    neither below the old stability nor above 1; a second reinforcement of
    the same identifier at most one second later raises the stability by at
    most 0.02 and does not lower it.  With [now] before [last_accessed]
    the spacing bonus is negative and the stability decreases. *)
Theorem reinforce_memory_spacing :
  forall (now : timestamptz) (p : uuid) (ms : list memory) (m : memory),
    Spec.primary_key ms -> In m ms -> id m = p -> Spec.row_ok now m ->
    exists ms' m',
      Server.reinforce_memory now p ms = Done ms'
      /\ Spec.lookup p ms' = Some m'
      /\ last_accessed m' = now
      /\ access_count m' = (access_count m + 1)%Z
      /\ stability m'
         = Rmin 1 (stability m
                   + 0.1 * Rmin 2 ((now - last_accessed m) / 86400 / 7))
      /\ stability m <= stability m' <= 1
      /\ forall now2 : timestamptz,
          now <= now2 <= now + 1 ->
          (access_count m' < integer_max)%Z ->
          exists ms2 m2,
            Server.reinforce_memory now2 p ms' = Done ms2
            /\ Spec.lookup p ms2 = Some m2
            /\ access_count m2 = (access_count m' + 1)%Z
            /\ stability m' <= stability m2 <= 1
            /\ stability m2 - stability m' <= 0.02.
Proof.
  intros now p ms m Hk Hin He Hok.
  set (ms' := map (fun x => if N.eqb (id x) p
                            then Spec.reinforced now x else x) ms).
  assert (Hk' : Spec.primary_key ms').
  { unfold Spec.primary_key, ms'. rewrite map_id_reinforced. exact Hk. }
  assert (Hin' : In (Spec.reinforced now m) ms').
  { apply in_map_iff. exists m. split; [|exact Hin].
    rewrite He, N.eqb_refl. reflexivity. }
  pose proof (reinforced_stability_range now m Hok) as Hr.
  exists ms', (Spec.reinforced now m).
  split; [|split; [|split; [|split; [|split; [|split]]]]].
  - apply reinforce_memory_map; [exact Hk|].
    intros x Hx Hxp. assert (x = m) as ->; [|exact Hok].
    pose proof (lookup_unique ms x Hk Hx) as H1.
    pose proof (lookup_unique ms m Hk Hin) as H2.
    rewrite Hxp in H1. rewrite He in H2. congruence.
  - apply reinforce_memory_lookup; assumption.
  - reflexivity.
  - reflexivity.
  - reflexivity.
  - exact Hr.
  - intros now2 Hnow2 Hac.
    assert (Hok2 : Spec.row_ok now2 (Spec.reinforced now m)).
    { destruct Hok as [[Hs0 Hs1] _]. unfold Spec.row_ok. simpl.
      repeat split; try lra. exact Hac. }
    pose proof (reinforced_stability_range now2 _ Hok2) as Hr2.
    exists (map (fun x => if N.eqb (id x) p
                          then Spec.reinforced now2 x else x) ms'),
      (Spec.reinforced now2 (Spec.reinforced now m)).
    split; [|split; [|split; [|split]]].
    + apply reinforce_memory_map; [exact Hk'|].
      intros x Hx Hxp. assert (x = Spec.reinforced now m) as ->; [|exact Hok2].
      pose proof (lookup_unique ms' x Hk' Hx) as H1.
      pose proof (lookup_unique ms' _ Hk' Hin') as H2.
      simpl id in H2. rewrite Hxp in H1. rewrite He in H2. congruence.
    + apply reinforce_memory_lookup; [exact Hk' | exact Hin' | exact He].
    + reflexivity.
    + exact Hr2.
    + simpl stability. unfold Spec.reinforced_stability at 1.
      simpl last_accessed. simpl stability.
      apply Rle_trans
        with (Spec.reinforced_stability now m
              + 0.1 * Rmin 2 ((now2 - now) / 86400 / 7)
              - Spec.reinforced_stability now m).
      * apply Rplus_le_compat_r. apply Rmin_r.
      * assert (Rmin 2 ((now2 - now) / 86400 / 7) <= (now2 - now) / 86400 / 7)
          by apply Rmin_r.
        lra.
Qed.

(** ** Links *)

Lemma link_keyed_other (s t s' t' : uuid) (l : link) :
  (s', t') <> (s, t) -> Server.link_keyed s t l = true ->
  Server.link_keyed s' t' l = false.
Proof.
  unfold Server.link_keyed. intros Hne H.
  apply andb_true_iff in H. destruct H as [Hs Ht].
  apply N.eqb_eq in Hs. apply N.eqb_eq in Ht. subst.
  apply andb_false_iff.
  destruct (N.eqb (source_id l) s') eqn:E1; [|left; reflexivity].
  right. apply N.eqb_neq. intros E2. apply N.eqb_eq in E1.
  apply Hne. congruence.
Qed.

(** The upsert of [strengthen_link] on the row [(s, t)] between two
    existing memories: an absent row is created with strength 0.5, a present
    one gains [p_increment] up to 1; the other rows keep their strength. *)
Lemma upsert_link_strength (now : timestamptz) (ms : list memory)
    (s t : uuid) (inc : R) (ls : list link) :
  Server.references ms s = true ->
  Server.references ms t = true ->
  match Spec.strength_of s t ls with
  | Some x => 0 <= x + inc
  | None => True
  end ->
  exists ls',
    Server.upsert_link now ms s t inc ls = Done ls'
    /\ Spec.strength_of s t ls'
       = Some match Spec.strength_of s t ls with
              | Some x => Rmin 1 (x + inc)
              | None => 0.5
              end
    /\ forall s' t', (s', t') <> (s, t) ->
                     Spec.strength_of s' t' ls' = Spec.strength_of s' t' ls.
Proof.
  intros Hrs Hrt. unfold Spec.strength_of.
  induction ls as [|l ls IH]; simpl; intros Hc.
  - rewrite Hrs, Hrt. simpl.
    eexists. split; [reflexivity|]. split.
    + simpl. unfold Server.link_keyed. simpl. rewrite !N.eqb_refl. reflexivity.
    + intros s' t' Hne. simpl.
      rewrite (link_keyed_other s t s' t' _ Hne); [reflexivity|].
      unfold Server.link_keyed. simpl. rewrite !N.eqb_refl. reflexivity.
  - destruct (Server.link_keyed s t l) eqn:Hk; simpl in Hc |- *.
    + replace (between (Rmin 1 (strength l + inc)) 0 1) with true.
      * eexists. split; [reflexivity|]. split.
        -- simpl. unfold Server.link_keyed in Hk |- *. simpl. rewrite Hk.
           reflexivity.
        -- intros s' t' Hne. simpl.
           rewrite (link_keyed_other s t s' t' l Hne Hk).
           assert (H : Server.link_keyed s' t'
                         (mkLink (source_id l) (target_id l)
                            (Rmin 1 (strength l + inc)) (link_type l)
                            (link_created_at l) now) = false).
           { exact (link_keyed_other s t s' t' l Hne Hk). }
           rewrite H. reflexivity.
      * symmetry. apply between_true_iff. split.
        -- apply Rmin_glb; lra.
        -- apply Rmin_l.
    + destruct (IH Hc) as [ls' [Hu [Hs Ho]]]. rewrite Hu. simpl.
      eexists. split; [reflexivity|]. split.
      * simpl. rewrite Hk. exact Hs.
      * intros s' t' Hne. simpl.
        destruct (Server.link_keyed s' t' l); [reflexivity|].
        apply Ho. exact Hne.
Qed.

(** Two calls of [strengthen_link] with the same increment, on two
    different existing memories that were not linked. *)
Lemma strengthen_link_twice (now1 now2 : timestamptz) (a b : uuid) (inc : R)
    (db : database) :
  a <> b ->
  Server.references (memories db) a = true ->
  Server.references (memories db) b = true ->
  Spec.strength_of a b (memory_links db) = None ->
  Spec.strength_of b a (memory_links db) = None ->
  0 <= 0.5 + inc ->
  exists db1 db2,
    Server.strengthen_link now1 a b inc db = Done db1
    /\ Server.strengthen_link now2 a b inc db1 = Done db2
    /\ memories db2 = memories db
    /\ Spec.strength_of a b (memory_links db2) = Some (Rmin 1 (0.5 + inc))
    /\ Spec.strength_of b a (memory_links db2) = Some (Rmin 1 (0.5 + inc)).
Proof.
  intros Hab Ha Hb Hnab Hnba Hinc.
  assert (Hne : (b, a) <> (a, b)) by (intros E; apply Hab; congruence).
  assert (Hne' : (a, b) <> (b, a)) by (intros E; apply Hab; congruence).
  unfold Server.strengthen_link.
  (* first call *)
  destruct (upsert_link_strength now1 (memories db) a b inc (memory_links db)
              Ha Hb)
    as [l1 [E1 [S1 O1]]]; [rewrite Hnab; exact I|].
  rewrite Hnab in S1.
  assert (Hba1 : Spec.strength_of b a l1 = None)
    by (rewrite (O1 b a Hne); exact Hnba).
  destruct (upsert_link_strength now1 (memories db) b a inc l1 Hb Ha)
    as [l2 [E2 [S2 O2]]]; [rewrite Hba1; exact I|].
  rewrite Hba1 in S2.
  assert (Hab2 : Spec.strength_of a b l2 = Some 0.5)
    by (rewrite (O2 a b Hne'); exact S1).
  (* second call *)
  destruct (upsert_link_strength now2 (memories db) a b inc l2 Ha Hb)
    as [l3 [E3 [S3 O3]]]; [rewrite Hab2; exact Hinc|].
  rewrite Hab2 in S3.
  assert (Hba3 : Spec.strength_of b a l3 = Some 0.5)
    by (rewrite (O3 b a Hne); exact S2).
  destruct (upsert_link_strength now2 (memories db) b a inc l3 Hb Ha)
    as [l4 [E4 [S4 O4]]]; [rewrite Hba3; exact Hinc|].
  rewrite Hba3 in S4.
  exists (mkDatabase (memories db) l2), (mkDatabase (memories db) l4).
  rewrite E1. simpl. rewrite E2. simpl.
  split; [reflexivity|]. rewrite E3. simpl. rewrite E4. simpl.
  split; [reflexivity|]. split; [reflexivity|]. split.
  - rewrite (O4 a b Hne'). exact S3.
  - exact S4.
Qed.

(** ** [ORDER BY] *)

Section OrderByFacts.
Context {A : Type} (le : A -> A -> bool).

Lemma insert_sorted_perm (x : A) (l : list A) :
  Permutation (x :: l) (insert_sorted le x l).
Proof.
  induction l as [|y t IH]; simpl; [reflexivity|].
  destruct (le x y); [reflexivity|].
  rewrite perm_swap. apply perm_skip. exact IH.
Qed.

Lemma order_by_perm (l : list A) : Permutation l (order_by le l).
Proof.
  induction l as [|x t IH]; simpl; [reflexivity|].
  rewrite <- insert_sorted_perm. apply perm_skip. exact IH.
Qed.

Lemma order_by_in (l : list A) (x : A) : In x (order_by le l) <-> In x l.
Proof.
  split; apply Permutation_in;
    [symmetry |]; apply order_by_perm.
Qed.

Hypothesis le_total : forall a b, le a b = true \/ le b a = true.
Hypothesis le_trans :
  forall a b c, le a b = true -> le b c = true -> le a c = true.

Lemma insert_sorted_sorted (x : A) (l : list A) :
  StronglySorted (fun a b => le a b = true) l ->
  StronglySorted (fun a b => le a b = true) (insert_sorted le x l).
Proof.
  induction l as [|y t IH]; intros Hs; simpl.
  - constructor; constructor.
  - inversion Hs as [|? ? Ht Hy]; subst.
    destruct (le x y) eqn:Hxy.
    + constructor; [exact Hs|]. constructor; [exact Hxy|].
      rewrite Forall_forall in Hy |- *. intros z Hz.
      apply le_trans with y; [exact Hxy | apply Hy; exact Hz].
    + constructor; [apply IH; exact Ht|].
      rewrite Forall_forall in Hy |- *. intros z Hz.
      apply (Permutation_in _ (Permutation_sym (insert_sorted_perm x t)))
        in Hz.
      destruct Hz as [<-|Hz]; [|apply Hy; exact Hz].
      destruct (le_total x y) as [H|H]; [congruence | exact H].
Qed.

Lemma order_by_sorted (l : list A) :
  StronglySorted (fun a b => le a b = true) (order_by le l).
Proof.
  induction l as [|x t IH]; simpl; [constructor|].
  apply insert_sorted_sorted. exact IH.
Qed.

(** [LIMIT 1] after [ORDER BY]: the row read is first in the order. *)
Lemma order_by_head (l : list A) (x : A) :
  hd_error (order_by le l) = Some x ->
  In x l /\ forall y, In y l -> le x y = true.
Proof.
  intros H. pose proof (order_by_sorted l) as Hs.
  pose proof (order_by_in l) as Hin.
  destruct (order_by le l) as [|z t]; simpl in H; [discriminate|].
  injection H as ->. split.
  - apply Hin. left. reflexivity.
  - intros y Hy. apply Hin in Hy. destruct Hy as [<-|Hy].
    + destruct (le_total x x); assumption.
    + inversion Hs as [|? ? _ Hall]; subst.
      rewrite Forall_forall in Hall. apply Hall. exact Hy.
Qed.

Lemma order_by_head_none (l : list A) :
  hd_error (order_by le l) = None -> l = [].
Proof.
  intros H. pose proof (order_by_perm l) as Hp.
  destruct (order_by le l); simpl in H; [|discriminate].
  apply Permutation_sym, Permutation_nil in Hp. exact Hp.
Qed.
End OrderByFacts.

Lemma firstn_in {A : Type} (n : nat) (l : list A) (x : A) :
  In x (firstn n l) -> In x l.
Proof.
  revert l. induction n as [|n IH]; intros [|y t]; simpl; try contradiction.
  intros [->|H]; [left; reflexivity | right; apply IH; exact H].
Qed.

Lemma StronglySorted_firstn {A : Type} (R : A -> A -> Prop) (n : nat)
    (l : list A) :
  StronglySorted R l -> StronglySorted R (firstn n l).
Proof.
  revert l. induction n as [|n IH]; intros l Hs; simpl; [constructor|].
  destruct l as [|x t]; [constructor|].
  inversion Hs as [|? ? Ht Hx]; subst. constructor; [apply IH; exact Ht|].
  rewrite Forall_forall in Hx |- *. intros y Hy. apply Hx.
  apply (firstn_in n t). exact Hy.
Qed.

Lemma StronglySorted_map {A B : Type} (R : B -> B -> Prop) (f : A -> B)
    (l : list A) :
  StronglySorted (fun a b => R (f a) (f b)) l -> StronglySorted R (map f l).
Proof.
  induction 1 as [|x t Ht IH Hx]; simpl; constructor; [exact IH|].
  rewrite Forall_forall in Hx |- *. intros y Hy.
  apply in_map_iff in Hy. destruct Hy as [z [<- Hz]]. apply Hx. exact Hz.
Qed.


(** Descending order on a real key. *)
Lemma desc_total {A : Type} (key : A -> R) (a b : A) :
  Rleb (key b) (key a) = true \/ Rleb (key a) (key b) = true.
Proof. rewrite !Rleb_true_iff. lra. Qed.

Lemma desc_trans {A : Type} (key : A -> R) (a b c : A) :
  Rleb (key b) (key a) = true -> Rleb (key c) (key b) = true ->
  Rleb (key c) (key a) = true.
Proof. rewrite !Rleb_true_iff. lra. Qed.

Lemma Forall2_left_in {A B : Type} (P : A -> B -> Prop) (l1 : list A)
    (l2 : list B) (x : A) :
  Forall2 P l1 l2 -> In x l1 -> exists y, In y l2 /\ P x y.
Proof.
  induction 1 as [|a b l1 l2 Hab _ IH]; intros Hin; [destruct Hin|].
  destruct Hin as [<-|Hin].
  - exists b. split; [left; reflexivity | exact Hab].
  - destruct (IH Hin) as [y [Hy Hp]]. exists y. split; [right|]; assumption.
Qed.

(** ** The client functions *)

(** *** Rows and tables *)

Lemma reinforced_others (now : timestamptz) (p : uuid) (ms : list memory)
    (m : memory) :
  In m ms -> id m <> p ->
  In m (map (fun x => if N.eqb (id x) p then Spec.reinforced now x else x)
            ms).
Proof.
  intros Hin Hne. apply in_map_iff. exists m. split; [|exact Hin].
  apply N.eqb_neq in Hne. rewrite Hne. reflexivity.
Qed.

Lemma reinforced_same_instant (now : timestamptz) (m : memory) :
  last_accessed m = now -> stability m <= 1 ->
  Spec.reinforced_stability now m = stability m.
Proof.
  intros Hla Hs. unfold Spec.reinforced_stability. rewrite Hla.
  replace ((now - now) / 86400 / 7) with 0 by (unfold Rdiv; ring).
  rewrite (Rmin_right 2 0) by lra.
  rewrite Rmin_right by lra. ring.
Qed.

Lemma gen_random_uuid_bound (ms : list memory) (m : memory) :
  In m ms -> (id m < gen_random_uuid ms)%N.
Proof.
  unfold gen_random_uuid. induction ms as [|x ms IH]; simpl; [contradiction|].
  intros [->|H]; [lia|]. specialize (IH H). lia.
Qed.

Lemma gen_random_uuid_fresh (ms : list memory) :
  ~ In (gen_random_uuid ms) (map id ms).
Proof.
  intros H. apply in_map_iff in H. destruct H as [m [He Hm]].
  pose proof (gen_random_uuid_bound ms m Hm). lia.
Qed.


Lemma reinforce_row_id (now : timestamptz) (cs : option R) (bonus : R)
    (m m' : memory) :
  Server.reinforce_row now cs bonus m = Done m' -> id m' = id m.
Proof.
  unfold Server.reinforce_row.
  destruct (integer_max <? access_count m + 1)%Z; [discriminate|].
  destruct (negb _); [discriminate|]. intros H. injection H as <-.
  reflexivity.
Qed.

Lemma reinforce_memory_ids (now : timestamptz) (p : uuid)
    (ms ms' : list memory) :
  Server.reinforce_memory now p ms = Done ms' -> map id ms' = map id ms.
Proof.
  unfold Server.reinforce_memory. apply update_where_ids.
  intros m m'. apply reinforce_row_id.
Qed.


Lemma reinforce_all_ids (now : timestamptz) (ids : list uuid)
    (ms ms' : list memory) :
  Client.reinforce_all now ids ms = Done ms' -> map id ms' = map id ms.
Proof.
  revert ms. induction ids as [|i ids IH]; intros ms H; simpl in H.
  - injection H as <-. reflexivity.
  - destruct (Server.reinforce_memory now i ms) as [ms1|] eqn:H1;
      simpl in H; [|discriminate].
    rewrite (IH ms1 H). apply (reinforce_memory_ids now i). exact H1.
Qed.


(** *** The association query *)

(** The order of the association query is total and transitive. *)
Lemma assoc_le_total (a b : memory * link) :
  Client.assoc_le a b = true \/ Client.assoc_le b a = true.
Proof.
  unfold Client.assoc_le.
  rewrite !orb_true_iff, !andb_true_iff, !N.ltb_lt, !N.eqb_eq,
    !Rleb_true_iff.
  destruct (N.lt_total (id (fst a)) (id (fst b))) as [H|[H|H]];
    [tauto | | tauto].
  destruct (Rle_dec (strength (snd b)) (strength (snd a)));
    [left | right]; right; split; auto; lra.
Qed.

Lemma assoc_le_trans (a b c : memory * link) :
  Client.assoc_le a b = true -> Client.assoc_le b c = true ->
  Client.assoc_le a c = true.
Proof.
  unfold Client.assoc_le.
  rewrite !orb_true_iff, !andb_true_iff, !N.ltb_lt, !N.eqb_eq,
    !Rleb_true_iff.
  intros [H1|[H1 S1]] [H2|[H2 S2]].
  - left. lia.
  - left. lia.
  - left. lia.
  - right. split; [congruence | lra].
Qed.

Lemma assoc_le_id (a b : memory * link) :
  Client.assoc_le a b = true -> (id (fst a) <= id (fst b))%N.
Proof.
  unfold Client.assoc_le.
  rewrite orb_true_iff, andb_true_iff, N.ltb_lt, N.eqb_eq. lia.
Qed.

Lemma assoc_le_strength (a b : memory * link) :
  Client.assoc_le a b = true -> id (fst b) = id (fst a) ->
  strength (snd b) <= strength (snd a).
Proof.
  unfold Client.assoc_le.
  rewrite orb_true_iff, andb_true_iff, N.ltb_lt, N.eqb_eq, Rleb_true_iff.
  intros [H|[_ H]] He; [lia | exact H].
Qed.

(** [DISTINCT ON (m.id)] over sorted rows keeps, for every identifier that
    is not the one before the rows, the row with the strongest link, in
    ascending order of identifiers. *)
Lemma distinct_on_id_sorted (rows : list (memory * link))
    (previous : option uuid) :
  StronglySorted (fun a b => Client.assoc_le a b = true) rows ->
  (forall p r, previous = Some p -> In r rows -> (p <= id (fst r))%N) ->
  StronglySorted (fun a b => (id (fst a) < id (fst b))%N)
    (Client.distinct_on_id previous rows)
  /\ forall r, In r (Client.distinct_on_id previous rows) ->
       In r rows
       /\ previous <> Some (id (fst r))
       /\ forall r', In r' rows -> id (fst r') = id (fst r) ->
                     strength (snd r') <= strength (snd r).
Proof.
  revert previous.
  induction rows as [|[m l] rest IH]; intros previous Hs Hlow; simpl.
  - split; [constructor | intros r []].
  - inversion Hs as [|? ? Hrest Hall]; subst.
    rewrite Forall_forall in Hall.
    destruct (match previous with
              | Some p => N.eqb p (id m)
              | None => false
              end) eqn:Hp.
    + (* the row repeats the identifier before it *)
      destruct previous as [p|]; [|discriminate].
      apply N.eqb_eq in Hp.
      destruct (IH (Some p) Hrest) as [IH1 IH2].
      { intros p' r E Hr. apply (Hlow p' r E). right. exact Hr. }
      split; [exact IH1|].
      intros r Hr. destruct (IH2 r Hr) as [Hin [Hne Hmax]].
      split; [right; exact Hin|]. split; [exact Hne|].
      intros r' [<-|Hr'] He; [|apply Hmax; assumption].
      simpl in He. exfalso. apply Hne. congruence.
    + (* the row opens a new group *)
      assert (Hprev : forall p, previous = Some p -> (p < id m)%N).
      { intros p ->. apply N.eqb_neq in Hp.
        specialize (Hlow p (m, l) eq_refl (or_introl eq_refl)).
        simpl in Hlow. lia. }
      destruct (IH (Some (id m)) Hrest) as [IH1 IH2].
      { intros p' r E Hr. injection E as <-.
        exact (assoc_le_id _ _ (Hall r Hr)). }
      assert (Hlater : forall r,
                 In r (Client.distinct_on_id (Some (id m)) rest) ->
                 (id m < id (fst r))%N).
      { intros r Hr. destruct (IH2 r Hr) as [Hin [Hne _]].
        pose proof (assoc_le_id _ _ (Hall r Hin)) as Hle. simpl in Hle.
        assert (id m <> id (fst r)) by (intros E; apply Hne; congruence).
        lia. }
      split.
      * constructor; [exact IH1|]. rewrite Forall_forall.
        intros r Hr. simpl. apply Hlater. exact Hr.
      * intros r [<-|Hr].
        -- split; [left; reflexivity|]. simpl. split.
           ++ intros E. specialize (Hprev (id m) E). lia.
           ++ intros r' [<-|Hr'] He; [simpl; lra|].
              exact (assoc_le_strength _ _ (Hall r' Hr') He).
        -- destruct (IH2 r Hr) as [Hin [Hne Hmax]].
           pose proof (Hlater r Hr) as Hlt.
           split; [right; exact Hin|]. split.
           ++ intros E. specialize (Hprev _ E). lia.
           ++ intros r' [<-|Hr'] He; [|apply Hmax; assumption].
              simpl in He. lia.
Qed.

Lemma any_id_iff (i : uuid) (ids : list uuid) :
  Client.any_id i ids = true <-> In i ids.
Proof.
  unfold Client.any_id. rewrite existsb_exists. split.
  - intros [x [Hx He]]. apply N.eqb_eq in He. subst. exact Hx.
  - intros H. exists i. split; [exact H | apply N.eqb_refl].
Qed.

Lemma any_id_false_iff (i : uuid) (ids : list uuid) :
  Client.any_id i ids = false <-> ~ In i ids.
Proof.
  rewrite <- any_id_iff. destruct (Client.any_id i ids); split; intros H;
    try reflexivity; try discriminate.
  exfalso. apply H. reflexivity.
Qed.

Lemma join_links_in (ms : list memory) (ls : list link) (m : memory)
    (l : link) :
  In (m, l) (Client.join_links ms ls) <->
  In m ms /\ In l ls /\ id m = target_id l.
Proof.
  unfold Client.join_links. rewrite in_flat_map. split.
  - intros [x [Hx H]]. apply in_map_iff in H. destruct H as [y [E Hy]].
    injection E as -> ->. apply filter_In in Hy. destruct Hy as [Hy He].
    apply N.eqb_eq in He. tauto.
  - intros [Hm [Hl He]]. exists m. split; [exact Hm|].
    apply in_map. apply filter_In. split; [exact Hl|].
    apply N.eqb_eq. exact He.
Qed.

(** The rows of the association query before [DISTINCT ON] and [LIMIT]. *)
Lemma association_rows_in (ids : list uuid) (db : database) (m : memory)
    (l : link) :
  In (m, l)
     (filter (fun r => Client.any_id (source_id (snd r)) ids
                       && negb (Client.any_id (id (fst r)) ids)
                       && negb (is_deleted (fst r))
                       && Rltb 0.3 (strength (snd r)))
             (Client.join_links (memories db) (memory_links db)))
  <-> In m (memories db) /\ In l (memory_links db) /\ id m = target_id l
      /\ In (source_id l) ids /\ ~ In (id m) ids
      /\ is_deleted m = false /\ 0.3 < strength l.
Proof.
  rewrite filter_In, join_links_in. simpl.
  rewrite !andb_true_iff, !negb_true_iff, any_id_iff, any_id_false_iff,
    Rltb_true_iff.
  tauto.
Qed.

Lemma select_associations_in (now : timestamptz) (ids : list uuid)
    (limit : nat) (db : database) (a : Client.associated) :
  In a (Client.select_associations now ids limit db) ->
  In (Client.assoc_row a) (memories db)
  /\ ~ In (id (Client.assoc_row a)) ids
  /\ is_deleted (Client.assoc_row a) = false
  /\ 0.3 < Client.link_strength a
  /\ Client.assoc_retention a = Client.retention_of now (Client.assoc_row a)
  /\ (exists l, In l (memory_links db)
                /\ target_id l = id (Client.assoc_row a)
                /\ In (source_id l) ids
                /\ strength l = Client.link_strength a)
  /\ forall l, In l (memory_links db) ->
               target_id l = id (Client.assoc_row a) ->
               In (source_id l) ids -> 0.3 < strength l ->
               strength l <= Client.link_strength a.
Proof.
  unfold Client.select_associations. intros H.
  apply in_map_iff in H. destruct H as [[m l] [<- H]]. simpl.
  apply firstn_in in H.
  match type of H with
  | In _ (Client.distinct_on_id None (order_by _ ?rows)) =>
      set (rs := rows) in *
  end.
  destruct (distinct_on_id_sorted (order_by Client.assoc_le rs) None)
    as [_ Hd].
  { apply order_by_sorted; [exact assoc_le_total | exact assoc_le_trans]. }
  { intros p r E. discriminate. }
  destruct (Hd _ H) as [Hin [_ Hmax]]. simpl in Hmax.
  apply order_by_in in Hin. unfold rs in Hin.
  apply association_rows_in in Hin.
  destruct Hin as (Hm & Hl & He & Hsrc & Hnot & Hdel & Hstr).
  repeat (split; [assumption || reflexivity|]). split.
  - exists l. repeat split; auto.
  - intros l' Hl' Ht' Hs' Hstr'.
    apply (Hmax (m, l')); [|reflexivity].
    apply order_by_in. unfold rs. apply association_rows_in.
    repeat split; auto.
Qed.

Lemma select_associations_sorted (now : timestamptz) (ids : list uuid)
    (limit : nat) (db : database) :
  StronglySorted
    (fun a b => (id (Client.assoc_row a) < id (Client.assoc_row b))%N)
    (Client.select_associations now ids limit db).
Proof.
  unfold Client.select_associations. apply StronglySorted_map. simpl.
  apply StronglySorted_firstn. apply distinct_on_id_sorted.
  - apply order_by_sorted; [exact assoc_le_total | exact assoc_le_trans].
  - intros p r E. discriminate.
Qed.

(** A [WHERE] clause keeps the primary key. *)
Lemma filter_primary_key (cond : memory -> bool) (ms : list memory) :
  Spec.primary_key ms -> Spec.primary_key (filter cond ms).
Proof.
  unfold Spec.primary_key.
  induction ms as [|m ms IH]; simpl; intros Hk; [constructor|].
  apply NoDup_cons_iff in Hk. destruct Hk as [Hfresh Hk].
  destruct (cond m); simpl; [|exact (IH Hk)].
  apply NoDup_cons; [|exact (IH Hk)].
  rewrite in_map_iff. intros (m' & Hid & Hm').
  apply filter_In in Hm'. apply Hfresh.
  rewrite <- Hid. apply in_map. apply Hm'.
Qed.

Lemma firstn_nodup {A : Type} (n : nat) (l : list A) :
  NoDup l -> NoDup (firstn n l).
Proof.
  revert l. induction n as [|n IH]; intros [|x l] H; simpl; try constructor.
  - inversion H as [|? ? Hnot _]; subst. intros Hin. apply Hnot.
    apply (firstn_in n l). exact Hin.
  - inversion H; subst. apply IH. assumption.
Qed.

Lemma ascending_nodup (l : list N) :
  StronglySorted N.lt l -> NoDup l.
Proof.
  induction 1 as [|x l _ IH Hx]; constructor; [|exact IH].
  intros Hin. rewrite Forall_forall in Hx. specialize (Hx x Hin). lia.
Qed.

(** The reinforcement loops on a table with a primary key: each listed
    row is reinforced once, the others are left alone. *)
Lemma reinforce_all_map (now : timestamptz) (ids : list uuid) :
  forall ms : list memory,
    Spec.primary_key ms -> NoDup ids ->
    (forall m, In m ms -> In (id m) ids -> Spec.row_ok now m) ->
    Client.reinforce_all now ids ms
    = Done (map (fun m => if Client.any_id (id m) ids
                          then Spec.reinforced now m else m) ms).
Proof.
  induction ids as [|i ids IH]; intros ms Hk Hnd Hok; simpl.
  - rewrite map_id. reflexivity.
  - inversion Hnd as [|? ? Hnot Hrest]; subst.
    rewrite reinforce_memory_map;
      [| exact Hk | intros m Hm E; apply Hok; [exact Hm | left; auto]].
    simpl. rewrite IH.
    + f_equal. rewrite map_map. apply map_ext. intros m.
      destruct (N.eqb (id m) i) eqn:E; simpl.
      * apply N.eqb_eq in E. subst i.
        apply any_id_false_iff in Hnot. rewrite Hnot. reflexivity.
      * reflexivity.
    + unfold Spec.primary_key. rewrite map_id_reinforced. exact Hk.
    + exact Hrest.
    + intros m' Hm' Hin. apply in_map_iff in Hm'.
      destruct Hm' as [m [E Hm]]. destruct (N.eqb (id m) i) eqn:Ei.
      * subst m'. simpl in Hin. apply N.eqb_eq in Ei. subst i.
        contradiction.
      * subst m'. apply Hok; [exact Hm | right; exact Hin].
Qed.

(** *** Grouping by topic *)

Lemma filter_filter {A : Type} (f g : A -> bool) (l : list A) :
  filter f (filter g l) = filter (fun x => g x && f x) l.
Proof.
  induction l as [|x l IH]; simpl; [reflexivity|].
  destruct (g x); simpl; [destruct (f x)|]; rewrite IH; reflexivity.
Qed.

Lemma first_seen_nodup (l : list string) : NoDup (Spec.first_seen l).
Proof.
  induction l as [|x l IH]; simpl; constructor.
  - intros H. apply filter_In in H. destruct H as [_ H].
    rewrite String.eqb_refl in H. discriminate.
  - apply NoDup_filter. exact IH.
Qed.

(** Keys of a dictionary filled in insertion order. *)
Lemma insertion_order (l ks : list string) :
  fold_left (fun ks t => if existsb (String.eqb t) ks then ks else ks ++ [t])
            l ks
  = ks ++ filter (fun t => negb (existsb (String.eqb t) ks))
                 (Spec.first_seen l).
Proof.
  revert ks. induction l as [|x l IH]; intros ks; simpl.
  - rewrite app_nil_r. reflexivity.
  - rewrite IH, filter_filter. destruct (existsb (String.eqb x) ks) eqn:Hx.
    + simpl. f_equal. apply filter_ext_in. intros t _.
      destruct (String.eqb t x) eqn:Ht; simpl; [|reflexivity].
      apply String.eqb_eq in Ht. subst. rewrite Hx. reflexivity.
    + simpl. rewrite <- app_assoc. simpl. do 2 f_equal.
      apply filter_ext_in. intros t _. rewrite existsb_app. simpl.
      rewrite orb_false_r, negb_orb. apply andb_comm.
Qed.

Lemma group_append_keys (t : string) (mem : Client.fading_memory)
    (groups : Client.topic_groups) :
  map fst (Client.group_append t mem groups)
  = if existsb (String.eqb t) (map fst groups) then map fst groups
    else map fst groups ++ [t].
Proof.
  induction groups as [|[k v] rest IH]; simpl; [reflexivity|].
  rewrite (String.eqb_sym t k). destruct (String.eqb k t); simpl;
    [reflexivity|].
  rewrite IH. destruct (existsb (String.eqb t) (map fst rest)); reflexivity.
Qed.

Lemma group_append_size (t u : string) (mem : Client.fading_memory)
    (groups : Client.topic_groups) :
  Spec.group_size u (Client.group_append t mem groups)
  = (Spec.group_size u groups + if String.eqb u t then 1 else 0)%nat.
Proof.
  unfold Spec.group_size.
  induction groups as [|[k v] rest IH]; simpl.
  - rewrite (String.eqb_sym t u). destruct (String.eqb u t); reflexivity.
  - destruct (String.eqb k t) eqn:Hkt; simpl.
    + apply String.eqb_eq in Hkt. subst k.
      rewrite (String.eqb_sym t u). destruct (String.eqb u t); simpl.
      * rewrite length_app. reflexivity.
      * lia.
    + destruct (String.eqb k u) eqn:Hku; simpl; [|exact IH].
      apply String.eqb_eq in Hku. subst k.
      rewrite Hkt. lia.
Qed.

(** The inner loop, over the topics of one memory. *)
Lemma file_topics (mem : Client.fading_memory) (ts : list string)
    (groups : Client.topic_groups) :
  let groups' := fold_left (fun g t => Client.group_append t mem g) ts groups
  in
  map fst groups'
  = fold_left (fun ks t => if existsb (String.eqb t) ks then ks
                           else ks ++ [t]) ts (map fst groups)
  /\ forall u, Spec.group_size u groups'
               = (Spec.group_size u groups + Spec.occurrences u ts)%nat.
Proof.
  revert groups. induction ts as [|t ts IH]; intros groups; simpl.
  - split; [reflexivity|]. intros u. unfold Spec.occurrences. simpl. lia.
  - destruct (IH (Client.group_append t mem groups)) as [IH1 IH2].
    split.
    + rewrite IH1, group_append_keys. reflexivity.
    + intros u. rewrite IH2, group_append_size.
      unfold Spec.occurrences. simpl.
      destruct (String.eqb u t); simpl; lia.
Qed.

Lemma occurrences_app (u : string) (l1 l2 : list string) :
  Spec.occurrences u (l1 ++ l2)
  = (Spec.occurrences u l1 + Spec.occurrences u l2)%nat.
Proof.
  unfold Spec.occurrences. rewrite filter_app, length_app. reflexivity.
Qed.

(** The outer loop, over the fading memories. *)
Lemma file_memories (fading : list Client.fading_memory)
    (groups : Client.topic_groups) :
  let groups' :=
    fold_left
      (fun g mem =>
         fold_left (fun g t => Client.group_append t mem g)
                   (Client.f_topics mem) g)
      fading groups in
  map fst groups'
  = fold_left (fun ks t => if existsb (String.eqb t) ks then ks
                           else ks ++ [t])
              (Spec.scanned_topics fading) (map fst groups)
  /\ forall u, Spec.group_size u groups'
               = (Spec.group_size u groups
                  + Spec.occurrences u (Spec.scanned_topics fading))%nat.
Proof.
  revert groups. induction fading as [|mem rest IH]; intros groups; simpl.
  - split; [reflexivity|]. intros u. unfold Spec.occurrences. simpl. lia.
  - destruct (file_topics mem (Client.f_topics mem) groups) as [T1 T2].
    destruct (IH (fold_left (fun g t => Client.group_append t mem g)
                    (Client.f_topics mem) groups)) as [IH1 IH2].
    unfold Spec.scanned_topics in *. simpl. split.
    + rewrite IH1, T1, fold_left_app. reflexivity.
    + intros u. rewrite IH2, T2, occurrences_app. lia.
Qed.

(** The dictionary [topic_groups]: its keys are the topics in the order
    in which the scan first meets them, and a topic's group has one entry
    for each time the scan meets it. *)
Lemma group_by_topic_keys (fading : list Client.fading_memory) :
  map fst (Client.group_by_topic fading)
  = Spec.first_seen (Spec.scanned_topics fading)
  /\ forall u, Spec.group_size u (Client.group_by_topic fading)
               = Spec.occurrences u (Spec.scanned_topics fading).
Proof.
  unfold Client.group_by_topic.
  destruct (file_memories fading []) as [H1 H2]. split.
  - rewrite H1, insertion_order. simpl.
    induction (Spec.first_seen _) as [|x l IH]; simpl; [reflexivity|].
    f_equal. exact IH.
  - intros u. rewrite H2. reflexivity.
Qed.

Lemma large_groups_keys (groups : Client.topic_groups) :
  NoDup (map fst groups) ->
  map fst (filter (fun g => (3 <=? List.length (snd g))%nat) groups)
  = filter (fun t => (3 <=? Spec.group_size t groups)%nat) (map fst groups).
Proof.
  induction groups as [|[k v] rest IH]; intros Hnd; [reflexivity|].
  inversion Hnd as [|? ? Hnot Hrest]; subst.
  assert (Hk : Spec.group_size k ((k, v) :: rest) = List.length v).
  { unfold Spec.group_size. simpl. rewrite String.eqb_refl. reflexivity. }
  assert (Hext : filter (fun t => (3 <=? Spec.group_size t ((k, v) :: rest))%nat)
                        (map fst rest)
                 = filter (fun t => (3 <=? Spec.group_size t rest)%nat)
                          (map fst rest)).
  { apply filter_ext_in. intros t Ht. unfold Spec.group_size. simpl.
    destruct (String.eqb k t) eqn:E; [|reflexivity].
    apply String.eqb_eq in E. subst. contradiction. }
  cbn [filter map fst snd]. rewrite Hk, Hext, <- (IH Hrest).
  destruct (3 <=? List.length v)%nat; reflexivity.
Qed.

Lemma group_append_members (Q : Client.fading_memory -> Prop) (t : string)
    (mem : Client.fading_memory) (groups : Client.topic_groups) :
  Q mem ->
  (forall g f, In g groups -> In f (snd g) -> Q f) ->
  forall g f, In g (Client.group_append t mem groups) -> In f (snd g) -> Q f.
Proof.
  intros Hm. induction groups as [|[k v] rest IH]; intros Hg g f; simpl.
  - intros [<-|[]] [<-|[]]. exact Hm.
  - destruct (String.eqb k t).
    + intros [<-|Hin] Hf; simpl in Hf.
      * apply in_app_or in Hf. destruct Hf as [Hf|[<-|[]]]; [|exact Hm].
        apply (Hg (k, v) f); [left; reflexivity | exact Hf].
      * apply (Hg g f); [right; exact Hin | exact Hf].
    + intros [<-|Hin] Hf.
      * apply (Hg (k, v) f); [left; reflexivity | exact Hf].
      * apply (IH (fun g' f' H1 H2 => Hg g' f' (or_intror H1) H2) g f);
          assumption.
Qed.

Lemma group_by_topic_members (Q : Client.fading_memory -> Prop)
    (fading : list Client.fading_memory) :
  (forall f, In f fading -> Q f) ->
  forall g f, In g (Client.group_by_topic fading) -> In f (snd g) -> Q f.
Proof.
  unfold Client.group_by_topic.
  assert (H : forall groups,
             (forall f, In f fading -> Q f) ->
             (forall g f, In g groups -> In f (snd g) -> Q f) ->
             forall g f,
               In g (fold_left
                       (fun groups mem =>
                          fold_left
                            (fun groups topic =>
                               Client.group_append topic mem groups)
                            (Client.f_topics mem) groups)
                       fading groups) ->
               In f (snd g) -> Q f).
  { induction fading as [|mem rest IH]; intros groups Hq Hg; simpl;
      [exact Hg|].
    apply IH; [intros f Hf; apply Hq; right; exact Hf|].
    assert (Hmem : Q mem) by (apply Hq; left; reflexivity).
    clear - Hmem Hg. revert groups Hg.
    induction (Client.f_topics mem) as [|t ts IHt]; intros groups Hg; simpl;
      [exact Hg|].
    apply IHt. apply group_append_members; assumption. }
  intros Hq. apply H; [exact Hq | intros g f []].
Qed.

Lemma select_fading_in (now : timestamptz) (agent : string)
    (ms : list memory) (f : Client.fading_memory) :
  In f (Client.select_fading now agent ms) ->
  In (Client.f_id f) (map id ms).
Proof.
  unfold Client.select_fading. intros H. apply in_map_iff in H.
  destruct H as [m [<- Hm]]. apply filter_In in Hm. simpl.
  apply in_map. apply Hm.
Qed.

Lemma entry_topics (entries : list Client.compressed_entry)
    (groups : Client.topic_groups) :
  Forall2 Spec.entry_of entries groups ->
  map Client.c_topic entries = map fst groups.
Proof.
  induction 1 as [|e g es gs [Ht _] _ IH]; simpl; [reflexivity|].
  rewrite Ht, IH. reflexivity.
Qed.

(** *** Marking and sweeping *)

Lemma mark_summarized_ids (ids : list uuid) (ms : list memory) :
  map id (Client.mark_summarized ids ms) = map id ms.
Proof.
  unfold Client.mark_summarized. rewrite map_map. apply map_ext.
  intros m. destruct (Client.any_id (id m) ids); reflexivity.
Qed.

Lemma mark_summarized_app (ids : list uuid) (ms1 ms2 : list memory) :
  Client.mark_summarized ids (ms1 ++ ms2)
  = Client.mark_summarized ids ms1 ++ Client.mark_summarized ids ms2.
Proof. apply map_app. Qed.

Lemma mark_summarized_other (ids : list uuid) (ms : list memory) :
  (forall m, In m ms -> ~ In (id m) ids) ->
  Client.mark_summarized ids ms = ms.
Proof.
  intros H. unfold Client.mark_summarized.
  rewrite <- (map_id ms) at 2. apply map_ext_in. intros m Hm.
  apply H, any_id_false_iff in Hm. rewrite Hm. reflexivity.
Qed.

Lemma mark_summarized_twice (ids1 ids2 : list uuid) (ms : list memory) :
  Client.mark_summarized ids2 (Client.mark_summarized ids1 ms)
  = Client.mark_summarized (ids1 ++ ids2) ms.
Proof.
  unfold Client.mark_summarized. rewrite map_map. apply map_ext.
  intros m.
  replace (Client.any_id (id m) (ids1 ++ ids2))
    with (Client.any_id (id m) ids1 || Client.any_id (id m) ids2)
    by (symmetry; apply existsb_app).
  destruct (Client.any_id (id m) ids1) eqn:H1; simpl.
  - destruct (Client.any_id (id m) ids2); reflexivity.
  - reflexivity.
Qed.

Lemma mark_summarized_in (ids : list uuid) (ms : list memory) (m : memory) :
  In m (Client.mark_summarized ids ms) ->
  exists m0, In m0 ms /\ id m = id m0
             /\ (In (id m0) ids -> is_summary m = true)
             /\ (is_summary m0 = true -> is_summary m = true)
             /\ summarizes m = summarizes m0
             /\ is_deleted m = is_deleted m0.
Proof.
  unfold Client.mark_summarized. intros H. apply in_map_iff in H.
  destruct H as [m0 [<- Hin]]. exists m0. split; [exact Hin|].
  destruct (Client.any_id (id m0) ids) eqn:Ha; simpl.
  - repeat split; reflexivity.
  - apply any_id_false_iff in Ha. repeat split; tauto.
Qed.

Lemma summary_of_weaken (agent : string) (old old' : list memory)
    (e : Client.compressed_entry) (s : memory) :
  incl (map id old) (map id old') ->
  Spec.summary_of agent old' e s -> Spec.summary_of agent old e s.
Proof.
  unfold Spec.summary_of. intros Hi H.
  repeat (split; [apply H|]). intros Hin. apply H. apply Hi. exact Hin.
Qed.

Lemma soft_delete_dormant_in (now : timestamptz) (agent : string)
    (ms : list memory) (m' : memory) :
  In m' (Client.soft_delete_dormant now agent ms) ->
  exists m, In m ms /\ m' = Spec.with_deleted (is_deleted m') m.
Proof.
  unfold Client.soft_delete_dormant. intros H. apply in_map_iff in H.
  destruct H as [m [<- Hm]]. exists m. split; [exact Hm|].
  destruct (Client.dormant now agent m); [reflexivity|].
  destruct m; reflexivity.
Qed.

Lemma soft_delete_dormant_image (now : timestamptz) (agent : string)
    (ms : list memory) (m : memory) :
  In m ms ->
  exists b, In (Spec.with_deleted b m)
               (Client.soft_delete_dormant now agent ms).
Proof.
  intros Hm. unfold Client.soft_delete_dormant.
  destruct (Client.dormant now agent m) eqn:Hd.
  - exists true. apply in_map_iff. exists m. rewrite Hd. split; [|exact Hm].
    reflexivity.
  - exists (is_deleted m). apply in_map_iff. exists m. rewrite Hd.
    split; [|exact Hm]. destruct m; reflexivity.
Qed.

Lemma dormant_iff (now : timestamptz) (agent : string) (m : memory) :
  Client.dormant now agent m = true <-> Spec.dormant now agent m.
Proof.
  unfold Client.dormant, Spec.dormant, Client.retention_of.
  rewrite !andb_true_iff, String.eqb_eq, !negb_true_iff, !Rltb_true_iff.
  tauto.
Qed.

Lemma soft_delete_dormant_ids (now : timestamptz) (agent : string)
    (ms : list memory) :
  map id (Client.soft_delete_dormant now agent ms) = map id ms.
Proof.
  unfold Client.soft_delete_dormant. rewrite map_map. apply map_ext.
  intros m. destruct (Client.dormant now agent m); reflexivity.
Qed.

(** *** Retrieval and deduplication *)

Section ClientFacts.
Variable cosine_distance : vector -> vector -> R.
Variable get_embedding : string -> vector.

Local Abbreviation similarity_to := (Client.similarity_to cosine_distance).
Local Abbreviation find_similar := (Client.find_similar cosine_distance).
Local Abbreviation retrieve_memories :=
  (Client.retrieve_memories cosine_distance get_embedding).

Local Abbreviation dedup_candidate := (Spec.dedup_candidate cosine_distance).

Lemma dedup_filter_iff (agent : string) (e : vector) (threshold : R)
    (m : memory) :
  (String.eqb (agent_id m) agent && negb (is_deleted m)
   && Rltb threshold (similarity_to e m)) = true
  <-> dedup_candidate agent e threshold m.
Proof.
  unfold Spec.dedup_candidate.
  rewrite !andb_true_iff, String.eqb_eq, negb_true_iff, Rltb_true_iff.
  tauto.
Qed.

Lemma find_similar_some (agent : string) (e : vector) (threshold : R)
    (ms : list memory) (s : memory) :
  find_similar agent e threshold ms = Some s ->
  In s ms /\ dedup_candidate agent e threshold s
  /\ forall m, In m ms -> agent_id m = agent -> is_deleted m = false ->
               similarity_to e m <= similarity_to e s.
Proof.
  unfold Client.find_similar. intros H.
  apply order_by_head in H;
    [| intros a b; apply (desc_total (similarity_to e))
     | intros a b c; apply (desc_trans (similarity_to e)) ].
  destruct H as [Hin Hmax]. apply filter_In in Hin.
  destruct Hin as [Hin Hc]. apply dedup_filter_iff in Hc.
  split; [exact Hin|]. split; [exact Hc|].
  intros m Hm Ha Hd.
  destruct (Rlt_dec threshold (similarity_to e m)) as [Hlt|Hge].
  - apply Rleb_true_iff. apply Hmax. apply filter_In. split; [exact Hm|].
    apply dedup_filter_iff. repeat split; assumption.
  - destruct Hc as [_ [_ Hs]]. lra.
Qed.

Lemma find_similar_none (agent : string) (e : vector) (threshold : R)
    (ms : list memory) :
  find_similar agent e threshold ms = None <->
  forall m, In m ms -> ~ dedup_candidate agent e threshold m.
Proof.
  unfold Client.find_similar. split.
  - intros H m Hm Hc. apply order_by_head_none in H.
    assert (Hf : In m (filter
                         (fun m => String.eqb (agent_id m) agent
                                   && negb (is_deleted m)
                                   && Rltb threshold (similarity_to e m))
                         ms)).
    { apply filter_In. split; [exact Hm|]. apply dedup_filter_iff.
      exact Hc. }
    rewrite H in Hf. exact Hf.
  - intros H.
    replace (filter _ ms) with (@nil memory); [reflexivity|].
    symmetry. induction ms as [|m ms IH]; simpl; [reflexivity|].
    destruct (String.eqb (agent_id m) agent && negb (is_deleted m)
              && Rltb threshold (similarity_to e m)) eqn:Hc.
    + exfalso. apply (H m (or_introl eq_refl)).
      apply dedup_filter_iff. exact Hc.
    + apply IH. intros x Hx. apply H. right. exact Hx.
Qed.

Lemma find_similar_exists (agent : string) (e : vector) (threshold : R)
    (ms : list memory) (m : memory) :
  In m ms -> dedup_candidate agent e threshold m ->
  exists s, find_similar agent e threshold ms = Some s.
Proof.
  intros Hm Hc.
  destruct (find_similar agent e threshold ms) as [s|] eqn:Hf.
  - exists s. reflexivity.
  - exfalso. rewrite find_similar_none in Hf. exact (Hf m Hm Hc).
Qed.



Lemma select_primary_length (now : timestamptz) (agent : string)
    (q : vector) (kw : Client.retrieve_options) (ms : list memory) :
  (List.length (Client.select_primary cosine_distance now agent q kw ms)
   <= Client.kw_limit kw)%nat.
Proof.
  unfold Client.select_primary. rewrite length_map. apply firstn_le_length.
Qed.

(** The shape of a retrieval that returns. *)
Lemma retrieve_memories_done (now : timestamptz) (agent query : string)
    (kw : Client.retrieve_options) (db : database) (res : Client.retrieval)
    (db' : database) :
  retrieve_memories now agent query kw db = Done (res, db') ->
  let found := Client.select_primary cosine_distance now agent
                 (get_embedding query) kw (memories db) in
  let ids := map (fun r => id (Client.row r)) found in
  exists ms1,
    Client.reinforce_all now ids (memories db) = Done ms1
    /\ Client.result_memories res = found
    /\ Client.result_associations res
       = match ids with
         | [] => []
         | _ :: _ =>
             if Client.kw_include_associations kw
             then Client.select_associations now ids (Client.kw_limit kw)
                    (mkDatabase ms1 (memory_links db))
             else []
         end
    /\ Client.reinforce_all now
         (map (fun a => id (Client.assoc_row a))
              (Client.result_associations res)) ms1
       = Done (memories db')
    /\ memory_links db' = memory_links db.
Proof.
  unfold Client.retrieve_memories. cbv zeta. intros H.
  destruct (Client.reinforce_all now _ (memories db)) as [ms1|] eqn:H1;
    simpl in H; [|discriminate].
  exists ms1. split; [reflexivity|].
  match type of H with
  | bind (Client.reinforce_all now ?ids2 ms1) _ = _ =>
      destruct (Client.reinforce_all now ids2 ms1) as [ms2|] eqn:H2
  end; simpl in H; [|discriminate].
  injection H as <- <-. simpl. repeat split; try reflexivity. exact H2.
Qed.

Lemma select_primary_ids (now : timestamptz) (agent : string) (q : vector)
    (kw : Client.retrieve_options) (ms : list memory) :
  Spec.primary_key ms ->
  NoDup (map (fun r => id (Client.row r))
             (Client.select_primary cosine_distance now agent q kw ms)).
Proof.
  unfold Spec.primary_key, Client.select_primary. intros Hk.
  rewrite map_map. simpl. rewrite <- firstn_map. apply firstn_nodup.
  eapply Permutation_NoDup;
    [apply Permutation_map; apply order_by_perm|].
  apply filter_primary_key. exact Hk.
Qed.

(** On a table the schema admits, read by a transaction that is not older
    than the last access to its rows, [retrieve_memories] returns. *)
Lemma retrieve_memories_returns (now : timestamptz) (agent query : string)
    (kw : Client.retrieve_options) (db : database) :
  Spec.primary_key (memories db) ->
  (forall m, In m (memories db) -> Spec.row_ok now m) ->
  exists res db', retrieve_memories now agent query kw db = Done (res, db').
Proof.
  intros Hk Hok. unfold Client.retrieve_memories. cbv zeta.
  set (found := Client.select_primary cosine_distance now agent
                  (get_embedding query) kw (memories db)).
  set (ids := map (fun r => id (Client.row r)) found).
  rewrite (reinforce_all_map now ids (memories db) Hk);
    [| apply select_primary_ids; exact Hk
     | intros m Hm _; apply Hok; exact Hm ].
  simpl.
  set (ms1 := map (fun m => if Client.any_id (id m) ids
                            then Spec.reinforced now m else m) (memories db)).
  set (assoc := match ids with
                | [] => []
                | _ :: _ =>
                    if Client.kw_include_associations kw
                    then Client.select_associations now ids
                           (Client.kw_limit kw)
                           (mkDatabase ms1 (memory_links db))
                    else []
                end).
  assert (Hassoc : forall a, In a assoc ->
                             In a (Client.select_associations now ids
                                     (Client.kw_limit kw)
                                     (mkDatabase ms1 (memory_links db)))).
  { unfold assoc. intros a Ha. destruct ids; [destruct Ha|].
    destruct (Client.kw_include_associations kw); [exact Ha | destruct Ha]. }
  assert (Hsorted : StronglySorted N.lt (map (fun a => id (Client.assoc_row a))
                                            assoc)).
  { apply StronglySorted_map. unfold assoc. destruct ids; [constructor|].
    destruct (Client.kw_include_associations kw); [|constructor].
    apply select_associations_sorted. }
  rewrite (reinforce_all_map now _ ms1).
  - simpl. eexists. eexists. reflexivity.
  - unfold Spec.primary_key, ms1. rewrite map_map.
    erewrite map_ext; [exact Hk|].
    intros m. destruct (Client.any_id (id m) ids); reflexivity.
  - apply ascending_nodup. exact Hsorted.
  - intros m' Hm' Hin. apply in_map_iff in Hin.
    destruct Hin as [a [E Ha]]. apply Hassoc, select_associations_in in Ha.
    destruct Ha as (_ & Hnot & _). rewrite E in Hnot.
    unfold ms1 in Hm'. apply in_map_iff in Hm'.
    destruct Hm' as [m [Em Hm]].
    destruct (Client.any_id (id m) ids) eqn:Hany.
    + subst m'. simpl in Hnot. apply any_id_iff in Hany. contradiction.
    + subst m'. apply Hok. exact Hm.
Qed.



(** *** Writing *)

Section Writing.
Variable score_importance : string -> R.
Variable extract_topics : string -> list string.

Local Abbreviation store_memory :=
  (Client.store_memory cosine_distance get_embedding score_importance
     extract_topics).

(** A write that finds a candidate reinforces the most similar one and
    inserts nothing. *)
Lemma store_memory_reinforces (now : timestamptz) (agent text : string)
    (kw : Client.store_options) (db : database) :
  Client.kw_skip_dedup kw = false ->
  Spec.primary_key (memories db) ->
  (forall m, In m (memories db) -> Spec.row_ok now m) ->
  (exists m, In m (memories db)
             /\ dedup_candidate agent (get_embedding text)
                  (Client.kw_dedup_threshold kw) m) ->
  exists s db',
    store_memory now agent text kw db
    = Done (Client.reinforced (id s) (content s)
              (similarity_to (get_embedding text) s), db')
    /\ In s (memories db)
    /\ dedup_candidate agent (get_embedding text)
         (Client.kw_dedup_threshold kw) s
    /\ (forall m, In m (memories db) -> agent_id m = agent ->
                  is_deleted m = false ->
                  similarity_to (get_embedding text) m
                  <= similarity_to (get_embedding text) s)
    /\ map id (memories db') = map id (memories db)
    /\ Spec.lookup (id s) (memories db') = Some (Spec.reinforced now s)
    /\ (forall m, In m (memories db) -> id m <> id s ->
                  In m (memories db'))
    /\ memory_links db' = memory_links db.
Proof.
  intros Hskip Hk Hok [m [Hm Hc]].
  destruct (find_similar_exists agent _ _ _ m Hm Hc) as [s Hs].
  destruct (find_similar_some _ _ _ _ _ Hs) as [Hin [Hcs Hmax]].
  exists s. eexists. unfold Client.store_memory. cbv zeta.
  rewrite Hskip, Hs.
  rewrite reinforce_memory_map
    by (try exact Hk; intros x Hx _; apply Hok; exact Hx).
  simpl. split; [reflexivity|]. simpl.
  split; [exact Hin|]. split; [exact Hcs|]. split; [exact Hmax|].
  split; [apply map_id_reinforced|].
  split; [apply reinforce_memory_lookup; [exact Hk | exact Hin | reflexivity]|].
  split; [|reflexivity].
  intros x Hx Hne. apply reinforced_others; assumption.
Qed.

(** What a call that answers [created] has done. *)
Lemma store_memory_created (now : timestamptz) (agent text : string)
    (kw : Client.store_options) (db db' : database) (i : uuid)
    (t : timestamptz) :
  store_memory now agent text kw db = Done (Client.created i t, db') ->
  exists m,
    memories db' = memories db ++ [m]
    /\ memory_links db' = memory_links db
    /\ id m = i /\ i = gen_random_uuid (memories db) /\ t = now
    /\ agent_id m = agent /\ content m = text
    /\ embedding m = get_embedding text
    /\ mtype m = Client.kw_memory_type kw
    /\ created_at m = now /\ last_accessed m = now
    /\ stability m = 0.3 /\ access_count m = 0%Z
    /\ is_summary m = false /\ summarizes m = [] /\ is_deleted m = false.
Proof.
  unfold Client.store_memory. cbv zeta.
  destruct (if Client.kw_skip_dedup kw then None else _) as [s|].
  - destruct (Server.reinforce_memory now (id s) (memories db));
      simpl; intros H; discriminate.
  - unfold Client.insert_memory.
    destruct (negb (between _ 0 1)); simpl; intros H; [discriminate|].
    injection H as <- <- <-. eexists. simpl.
    repeat (split; [reflexivity|]). reflexivity.
Qed.

(** A call that skips deduplication, or finds no candidate, inserts. *)
Lemma store_memory_inserts (now : timestamptz) (agent text : string)
    (kw : Client.store_options) (db : database) (imp : R) :
  Client.kw_importance kw = Some imp -> 0 <= imp <= 1 ->
  Client.kw_skip_dedup kw = true
  \/ find_similar agent (get_embedding text) (Client.kw_dedup_threshold kw)
       (memories db) = None ->
  exists m,
    store_memory now agent text kw db
    = Done (Client.created (id m) now,
            mkDatabase (memories db ++ [m]) (memory_links db))
    /\ id m = gen_random_uuid (memories db)
    /\ importance m = imp
    /\ topics m = (if Client.falsy (Client.kw_topics kw)
                   then if Client.kw_auto_extract_topics kw
                        then extract_topics text else []
                   else match Client.kw_topics kw with
                        | Some t => t
                        | None => []
                        end)
    /\ mtype m = Client.kw_memory_type kw
    /\ is_summary m = false /\ summarizes m = [] /\ is_deleted m = false
    /\ agent_id m = agent /\ content m = text.
Proof.
  intros Himp Hr Hno. unfold Client.store_memory. cbv zeta.
  rewrite Himp.
  assert (Hs : (if Client.kw_skip_dedup kw then None
                else find_similar agent (get_embedding text)
                       (Client.kw_dedup_threshold kw) (memories db))
               = None).
  { destruct Hno as [-> | ->]; [reflexivity|].
    destruct (Client.kw_skip_dedup kw); reflexivity. }
  rewrite Hs. unfold Client.insert_memory.
  replace (between imp 0 1) with true
    by (symmetry; apply between_true_iff; exact Hr).
  simpl.
  match goal with
  | |- exists m, Done (_, mkDatabase (_ ++ [?x]) _) = _ /\ _ => exists x
  end.
  split; [reflexivity|]. simpl.
  repeat (split; [reflexivity|]). reflexivity.
Qed.

(** A write that created a row, then a write with the defaults, at the same
    instant, of content that only the new row resembles. *)
Lemma store_memory_again (now : timestamptz) (agent text1 text2 : string)
    (kw1 : Client.store_options) (db db1 : database) (id1 : uuid)
    (t1 : timestamptz) :
  Spec.primary_key (memories db) ->
  store_memory now agent text1 kw1 db = Done (Client.created id1 t1, db1) ->
  (forall m, In m (memories db) ->
             ~ dedup_candidate agent (get_embedding text2) 0.92 m) ->
  0.92 < 1 - cosine_distance (get_embedding text1) (get_embedding text2) ->
  exists sim db2 m,
    store_memory now agent text2 Client.store_defaults db1
    = Done (Client.reinforced id1 text1 sim, db2)
    /\ map id (memories db2) = map id (memories db) ++ [id1]
    /\ Spec.lookup id1 (memories db2) = Some m
    /\ access_count m = 1%Z
    /\ stability m = 0.3.
Proof.
  intros Hk Hst Hnone Hsim.
  destruct (store_memory_created _ _ _ _ _ _ _ _ Hst)
    as (m1 & Hms & Hls & Hid & Hfresh & Ht & Hag & Hco & Hem & _ & _ & Hla
        & Hstab & Hac & _ & _ & Hdel).
  assert (Hk1 : Spec.primary_key (memories db1)).
  { unfold Spec.primary_key. rewrite Hms, map_app. simpl.
    apply NoDup_app; [exact Hk | repeat constructor; intros [] |].
    intros x Hx [<-|[]]. rewrite Hid, Hfresh in Hx.
    exact (gen_random_uuid_fresh _ Hx). }
  assert (Hc1 : dedup_candidate agent (get_embedding text2) 0.92 m1).
  { unfold Spec.dedup_candidate, Client.similarity_to.
    rewrite Hem. repeat split; assumption. }
  assert (Hfind : find_similar agent (get_embedding text2) 0.92
                    (memories db1) = Some m1).
  { unfold Client.find_similar. rewrite Hms, filter_app.
    replace (filter _ (memories db)) with (@nil memory).
    - simpl. apply dedup_filter_iff in Hc1. rewrite Hc1. reflexivity.
    - symmetry. apply (proj2 (find_similar_none agent _ 0.92 _)) in Hnone.
      unfold Client.find_similar in Hnone.
      apply order_by_head_none in Hnone. exact Hnone. }
  assert (Hin1 : In m1 (memories db1)).
  { rewrite Hms. apply in_or_app. right. left. reflexivity. }
  assert (Hok1 : Spec.row_ok now m1).
  { unfold Spec.row_ok, integer_max. rewrite Hstab, Hla, Hac.
    repeat split; try lra; lia. }
  exists (similarity_to (get_embedding text2) m1).
  eexists. exists (Spec.reinforced now m1).
  unfold Client.store_memory. cbv zeta. simpl Client.kw_skip_dedup.
  simpl Client.kw_dedup_threshold. cbv iota. rewrite Hfind.
  rewrite reinforce_memory_map; [| exact Hk1 |].
  - simpl. rewrite Hid, Hco. split; [reflexivity|]. simpl.
    split; [rewrite map_id_reinforced, Hms, map_app, <- Hid; reflexivity|].
    split; [rewrite <- Hid; apply reinforce_memory_lookup;
            [exact Hk1 | exact Hin1 | reflexivity]|].
    split; [rewrite Hac; reflexivity|].
    rewrite reinforced_same_instant; [exact Hstab | exact Hla | lra].
  - intros x Hx Hxid. assert (x = m1) as ->; [|exact Hok1].
    pose proof (lookup_unique _ x Hk1 Hx) as H1.
    pose proof (lookup_unique _ m1 Hk1 Hin1) as H2.
    rewrite Hxid in H1. congruence.
Qed.

(** C2, as the code has it.  A write with deduplication, into a table
    that holds a non-deleted memory of the same agent whose similarity to
    the new content exceeds [dedup_threshold], inserts no row, reinforces
    the most similar such memory and answers [reinforced].  After a write
    that created a row and a second write with the defaults, at the same
    instant, of content that only that row resembles, the table has the
    one new row, whose [access_count] is 1 (0 at insertion, plus one
    reinforcement) and whose [stability] is 0.3. *)
Theorem store_memory_dedup :
  (forall (now : timestamptz) (agent text : string)
          (kw : Client.store_options) (db : database),
      Client.kw_skip_dedup kw = false ->
      Spec.primary_key (memories db) ->
      (forall m, In m (memories db) -> Spec.row_ok now m) ->
      (exists m, In m (memories db)
                 /\ dedup_candidate agent (get_embedding text)
                      (Client.kw_dedup_threshold kw) m) ->
      exists s db',
        store_memory now agent text kw db
        = Done (Client.reinforced (id s) (content s)
                  (similarity_to (get_embedding text) s), db')
        /\ In s (memories db)
        /\ dedup_candidate agent (get_embedding text)
             (Client.kw_dedup_threshold kw) s
        /\ (forall m, In m (memories db) -> agent_id m = agent ->
                      is_deleted m = false ->
                      similarity_to (get_embedding text) m
                      <= similarity_to (get_embedding text) s)
        /\ map id (memories db') = map id (memories db)
        /\ Spec.lookup (id s) (memories db') = Some (Spec.reinforced now s)
        /\ (forall m, In m (memories db) -> id m <> id s ->
                      In m (memories db'))
        /\ memory_links db' = memory_links db)
  /\ (forall (now : timestamptz) (agent text1 text2 : string)
             (kw1 : Client.store_options) (db db1 : database) (id1 : uuid)
             (t1 : timestamptz),
         Spec.primary_key (memories db) ->
         store_memory now agent text1 kw1 db
         = Done (Client.created id1 t1, db1) ->
         (forall m, In m (memories db) ->
                    ~ dedup_candidate agent (get_embedding text2) 0.92 m) ->
         0.92 < 1 - cosine_distance (get_embedding text1)
                                    (get_embedding text2) ->
         exists sim db2 m,
           store_memory now agent text2 Client.store_defaults db1
           = Done (Client.reinforced id1 text1 sim, db2)
           /\ map id (memories db2) = map id (memories db) ++ [id1]
           /\ Spec.lookup id1 (memories db2) = Some m
           /\ access_count m = 1%Z
           /\ stability m = 0.3).
Proof.
  split; [exact store_memory_reinforces | exact store_memory_again].
Qed.

(** *** Consolidation *)

Section Consolidation.
Variable chat_summary : list Client.fading_memory -> string.

Local Abbreviation consolidate_memories :=
  (Client.consolidate_memories cosine_distance get_embedding
     score_importance extract_topics chat_summary).
Local Abbreviation compress_groups :=
  (Client.compress_groups cosine_distance get_embedding score_importance
     extract_topics chat_summary).

(** The loop of step 2 never raises.  It marks the originals of every
    group of three or more memories and appends one summary row per such
    group, in the order of the dictionary. *)
Lemma compress_groups_closed (store_clock : nat -> timestamptz)
    (agent : string) (groups : Client.topic_groups) :
  forall (db : database) (done : list Client.compressed_entry),
    (forall g f, In g groups -> In f (snd g) ->
                 In (Client.f_id f) (map id (memories db))) ->
    exists entries summaries,
      compress_groups store_clock agent groups db done
      = Done (done ++ entries,
              mkDatabase
                (Client.mark_summarized
                   (flat_map Client.c_original_ids entries) (memories db)
                 ++ summaries)
                (memory_links db))
      /\ Forall2 Spec.entry_of entries
           (filter (fun g => (3 <=? List.length (snd g))%nat) groups)
      /\ Forall2 (Spec.summary_of agent (memories db)) entries summaries.
Proof.
  induction groups as [|[topic mems] rest IH]; intros db done Hids.
  - exists [], []. simpl. rewrite !app_nil_r.
    rewrite mark_summarized_other by (intros m _ []).
    destruct db. split; [reflexivity|]. split; constructor.
  - cbn -[Nat.leb Client.store_memory].
    destruct (3 <=? List.length mems)%nat eqn:Hbig.
    + destruct (store_memory_inserts
                  (store_clock (List.length done)) agent
                  (Client.summarize_memories chat_summary mems)
                  (Client.summary_options topic) db 0.7 eq_refl)
        as (s & Hst & Hid & Himp & Htop & Hty & Hsum & Hsz & Hdel & Hag & _);
        [lra | left; reflexivity |].
      simpl in Htop, Hty. rewrite Hst. simpl.
      assert (Hfresh : ~ In (id s) (map id (memories db))).
      { rewrite Hid. apply gen_random_uuid_fresh. }
      assert (Hmark : Client.mark_summarized (map Client.f_id mems)
                        (memories db ++ [s])
                      = Client.mark_summarized (map Client.f_id mems)
                          (memories db) ++ [s]).
      { rewrite mark_summarized_app. f_equal.
        apply mark_summarized_other. intros m [<-|[]] Hin.
        apply Hfresh. apply in_map_iff in Hin.
        destruct Hin as [f [<- Hf]].
        apply (Hids (topic, mems) f); [left; reflexivity | exact Hf]. }
      rewrite Hmark.
      set (e0 := Client.mkCompressed topic (List.length mems) (id s)
                   (map Client.f_id mems)).
      set (db2 := mkDatabase
                    (Client.mark_summarized (map Client.f_id mems)
                       (memories db) ++ [s])
                    (memory_links db)).
      assert (Hids2 : incl (map id (memories db)) (map id (memories db2))).
      { unfold db2. simpl. rewrite map_app, mark_summarized_ids.
        apply incl_appl, incl_refl. }
      destruct (IH db2 (done ++ [e0])) as (es & ss & Hrun & Hes & Hss).
      { intros g f Hg Hf. apply Hids2.
        apply (Hids g f); [right; exact Hg | exact Hf]. }
      exists (e0 :: es), (s :: ss). rewrite Hrun.
      assert (Hlater : forall i, In i (flat_map Client.c_original_ids es) ->
                                 In i (map id (memories db))).
      { intros i Hi. apply in_flat_map in Hi. destruct Hi as [e [He Hi]].
        destruct (Forall2_left_in _ _ _ _ Hes He) as [g [Hg [_ [Ho _]]]].
        rewrite Ho in Hi. apply in_map_iff in Hi.
        destruct Hi as [f [<- Hf]]. apply filter_In in Hg.
        apply (Hids g f); [right; apply Hg | exact Hf]. }
      split; [|split].
      * rewrite <- app_assoc. simpl. do 2 f_equal. unfold db2. simpl.
        rewrite mark_summarized_app, mark_summarized_twice.
        rewrite (mark_summarized_other _ [s]).
        -- rewrite <- app_assoc. reflexivity.
        -- intros m [<-|[]] Hin. apply Hfresh, Hlater. exact Hin.
      * constructor; [|exact Hes]. unfold Spec.entry_of. simpl. tauto.
      * constructor.
        -- unfold Spec.summary_of. simpl. repeat split; assumption.
        -- clear - Hss Hids2.
           induction Hss as [|e x es' ss' Hx _ IHs]; constructor.
           ++ apply (summary_of_weaken agent _ _ e x Hids2 Hx).
           ++ exact IHs.
    + destruct (IH db done) as (es & ss & Hrun & Hes & Hss).
      { intros g f Hg Hf.
        apply (Hids g f); [right; exact Hg | exact Hf]. }
      exists es, ss. rewrite Hrun. repeat split; assumption.
Qed.

(** [consolidate_memories] never raises; what it returns and writes. *)
Lemma consolidate_memories_run (now : timestamptz)
    (store_clock : nat -> timestamptz) (agent : string) (threshold : nat)
    (db : database) :
  let fading := Client.select_fading now agent (memories db) in
  exists entries summaries,
    let swept :=
      Client.mark_summarized (flat_map Client.c_original_ids entries)
        (memories db) ++ summaries in
    consolidate_memories now store_clock agent threshold db
    = Done (Client.mkReport
              (map (fun m => (Client.f_id m,
                              substring 0 100 (Client.f_content m),
                              Client.f_retention m)) fading)
              entries (Client.select_promotion agent swept) 0,
            mkDatabase (Client.soft_delete_dormant now agent swept)
                       (memory_links db))
    /\ Forall2 Spec.entry_of entries
         (if (threshold <=? List.length fading)%nat
          then filter (fun g => (3 <=? List.length (snd g))%nat)
                      (Client.group_by_topic fading)
          else [])
    /\ Forall2 (Spec.summary_of agent (memories db)) entries summaries.
Proof.
  intros fading. unfold Client.consolidate_memories. cbv zeta.
  fold fading. destruct (threshold <=? List.length fading)%nat.
  - destruct (compress_groups_closed store_clock agent
                (Client.group_by_topic fading) db [])
      as (es & ss & Hrun & Hes & Hss).
    { apply (group_by_topic_members
               (fun f => In (Client.f_id f) (map id (memories db)))).
      intros f Hf. apply (select_fading_in now agent). exact Hf. }
    exists es, ss. rewrite Hrun. simpl. repeat split; assumption.
  - exists [], []. simpl. rewrite app_nil_r.
    rewrite mark_summarized_other by (intros m _ []).
    repeat split; constructor.
Qed.

(** The report lists the compressed groups in the order of the
    dictionary [topic_groups]. *)
Lemma consolidate_memories_topics (now : timestamptz)
    (store_clock : nat -> timestamptz) (agent : string) (threshold : nat)
    (db : database) :
  let fading := Client.select_fading now agent (memories db) in
  exists rep db',
    consolidate_memories now store_clock agent threshold db = Done (rep, db')
    /\ map Client.c_topic (Client.compressed rep)
       = if (threshold <=? List.length fading)%nat
         then map fst (filter (fun g => (3 <=? List.length (snd g))%nat)
                              (Client.group_by_topic fading))
         else [].
Proof.
  intros fading.
  destruct (consolidate_memories_run now store_clock agent threshold db)
    as (es & ss & Hrun & Hes & _).
  fold fading in Hes. eexists. eexists. split; [exact Hrun|]. simpl.
  rewrite (entry_topics _ _ Hes).
  destruct (threshold <=? List.length fading)%nat; reflexivity.
Qed.

(** C9, as the code has it.  When the fading set reaches the compression
    threshold, the topic groups of three or more memories are processed in
    the order in which the scan of the fading memories first meets their
    topics (the insertion order of the dictionary), whatever the
    lexicographic order of the topics. *)
Theorem consolidate_group_order :
  forall (now : timestamptz) (store_clock : nat -> timestamptz)
         (agent : string) (threshold : nat) (db : database),
    let fading := Client.select_fading now agent (memories db) in
    exists rep db',
      consolidate_memories now store_clock agent threshold db
      = Done (rep, db')
      /\ map Client.c_topic (Client.compressed rep)
         = if (threshold <=? List.length fading)%nat
           then filter
                  (fun t => (3 <=? Spec.occurrences t
                                     (Spec.scanned_topics fading))%nat)
                  (Spec.first_seen (Spec.scanned_topics fading))
           else [].
Proof.
  intros now store_clock agent threshold db fading.
  destruct (consolidate_memories_topics now store_clock agent threshold db)
    as (rep & db' & Hrun & Htopics).
  exists rep, db'. split; [exact Hrun|]. rewrite Htopics. fold fading.
  destruct (threshold <=? List.length fading)%nat; [|reflexivity].
  destruct (group_by_topic_keys fading) as [Hkeys Hsize].
  rewrite large_groups_keys by (rewrite Hkeys; apply first_seen_nodup).
  rewrite Hkeys. apply filter_ext. intros t. rewrite Hsize. reflexivity.
Qed.

(** C7, as the code has it.  Every entry of the compression report names
    at least three originals; each of them is a stored memory whose
    [is_summary] flag is true after the run; the summary memory written
    for the entry is a new semantic row of importance 0.7 under the
    entry's topic whose [summarizes] set is empty and whose own
    [is_summary] flag is false. *)
Theorem consolidate_summaries :
  forall (now : timestamptz) (store_clock : nat -> timestamptz)
         (agent : string) (threshold : nat) (db : database),
    exists rep db',
      consolidate_memories now store_clock agent threshold db
      = Done (rep, db')
      /\ forall e, In e (Client.compressed rep) ->
           (3 <= List.length (Client.c_original_ids e))%nat
           /\ (forall i, In i (Client.c_original_ids e) ->
                 (exists m, In m (memories db') /\ id m = i)
                 /\ forall m, In m (memories db') -> id m = i ->
                              is_summary m = true)
           /\ exists s,
                In s (memories db')
                /\ id s = Client.c_summary_id e
                /\ ~ In (id s) (map id (memories db))
                /\ summarizes s = [] /\ is_summary s = false
                /\ mtype s = semantic /\ importance s = 0.7
                /\ topics s = [Client.c_topic e].
Proof.
  intros now store_clock agent threshold db.
  destruct (consolidate_memories_run now store_clock agent threshold db)
    as (es & ss & Hrun & Hes & Hss).
  eexists. eexists. split; [exact Hrun|]. simpl.
  set (fading := Client.select_fading now agent (memories db)) in *.
  set (marked := flat_map Client.c_original_ids es).
  assert (Horig : forall e i, In e es -> In i (Client.c_original_ids e) ->
                              In i (map id (memories db))).
  { intros e i He Hi.
    destruct (Forall2_left_in _ _ _ _ Hes He) as (g & Hg & _ & Ho & _).
    rewrite Ho in Hi. apply in_map_iff in Hi. destruct Hi as [f [<- Hf]].
    destruct (threshold <=? List.length fading)%nat; [|destruct Hg].
    apply filter_In in Hg.
    apply (group_by_topic_members
             (fun f => In (Client.f_id f) (map id (memories db)))
             fading (select_fading_in now agent (memories db))
             g f); [apply Hg | exact Hf]. }
  intros e He. split; [|split].
  - destruct (Forall2_left_in _ _ _ _ Hes He) as (g & Hg & _ & Ho & _).
    rewrite Ho, length_map.
    destruct (threshold <=? List.length fading)%nat; [|destruct Hg].
    apply filter_In in Hg. apply Nat.leb_le. apply Hg.
  - intros i Hi. pose proof (Horig e i He Hi) as Hin. split.
    + apply in_map_iff in Hin. destruct Hin as [m [Hm Hin]].
      assert (Hmk : exists m1,
                 In m1 (Client.mark_summarized marked (memories db))
                 /\ id m1 = i).
      { assert (Hi' : In i (map id (Client.mark_summarized marked
                                      (memories db)))).
        { rewrite mark_summarized_ids. apply in_map_iff.
          exists m. split; assumption. }
        apply in_map_iff in Hi'. destruct Hi' as [m1 [E H1]].
        exists m1. split; assumption. }
      destruct Hmk as [m1 [H1 E1]].
      destruct (soft_delete_dormant_image now agent
                  (Client.mark_summarized marked (memories db) ++ ss) m1)
        as [b Hb]; [apply in_or_app; left; exact H1|].
      exists (Spec.with_deleted b m1). split; [exact Hb | exact E1].
    + intros m Hm Hid. apply soft_delete_dormant_in in Hm.
      destruct Hm as [m2 [Hm2 Hm]].
      assert (Hsum : is_summary m = is_summary m2) by (rewrite Hm; reflexivity).
      assert (Hid2 : id m2 = i) by (rewrite <- Hid, Hm; reflexivity).
      rewrite Hsum. apply in_app_or in Hm2. destruct Hm2 as [Hm2|Hm2].
      * apply mark_summarized_in in Hm2.
        destruct Hm2 as (m0 & _ & Hid0 & Hmark & _).
        apply Hmark. rewrite <- Hid0, Hid2. unfold marked.
        apply in_flat_map. exists e. split; assumption.
      * exfalso.
        destruct (Forall2_left_in _ _ _ _
                    (Forall2_flip Hss) Hm2) as (e' & _ & Hs').
        destruct Hs' as (_ & _ & _ & _ & _ & _ & _ & _ & Hnew).
        apply Hnew. rewrite Hid2. exact Hin.
  - destruct (Forall2_left_in _ _ _ _ Hss He) as (s & Hs & Hof).
    destruct Hof as (Hid & Hsz & Hsum & Hty & Himp & Htop & _ & _ & Hnew).
    destruct (soft_delete_dormant_image now agent
                (Client.mark_summarized marked (memories db) ++ ss) s)
      as [b Hb]; [apply in_or_app; right; exact Hs|].
    exists (Spec.with_deleted b s). split; [exact Hb|].
    simpl. repeat split; assumption.
Qed.

(** C8. The dormant sweep sets [is_deleted] on exactly the rows of the
    agent that are not deleted, are not summaries, have retention below
    0.05 and were last accessed more than 30 days before; it changes no
    other column and no other row, so a row with [is_summary = true] is
    left as it is; the whole consolidation removes no row: the table it
    leaves has the identifiers it found, followed by those of the new
    summaries. *)
Theorem dormant_sweep_exact :
  (forall (now : timestamptz) (agent : string) (ms : list memory),
      Forall2
        (fun m m' =>
           m' = Spec.with_deleted (is_deleted m') m
           /\ (is_deleted m' = true <->
               is_deleted m = true \/ Spec.dormant now agent m)
           /\ (is_summary m = true -> m' = m))
        ms (Client.soft_delete_dormant now agent ms))
  /\ (forall (now : timestamptz) (store_clock : nat -> timestamptz)
             (agent : string) (threshold : nat) (db : database),
         exists rep db' before added,
           consolidate_memories now store_clock agent threshold db
           = Done (rep, db')
           /\ memories db' = Client.soft_delete_dormant now agent before
           /\ map id before = map id (memories db) ++ added
           /\ map id (memories db') = map id (memories db) ++ added).
Proof.
  split.
  - intros now agent ms. unfold Client.soft_delete_dormant.
    induction ms as [|m ms IH]; simpl; constructor; [|exact IH].
    destruct (Client.dormant now agent m) eqn:Hd.
    + apply dormant_iff in Hd. simpl. split; [reflexivity|]. split.
      * split; [intros _; right; exact Hd | reflexivity].
      * intros Hs. destruct Hd as (_ & _ & Hns & _). congruence.
    + split; [destruct m; reflexivity|]. split; [|reflexivity].
      split; [left; assumption|]. intros [H|H]; [exact H|].
      apply dormant_iff in H. congruence.
  - intros now store_clock agent threshold db.
    destruct (consolidate_memories_run now store_clock agent threshold db)
      as (es & ss & Hrun & _ & _).
    eexists. eexists. eexists. exists (map id ss).
    split; [exact Hrun|]. simpl. split; [reflexivity|].
    rewrite soft_delete_dormant_ids, map_app, mark_summarized_ids.
    split; reflexivity.
Qed.

End Consolidation.
End Writing.
End ClientFacts.

(** ** The sample data *)

Lemma cosine_unit : Fixtures.cosine_distance [1] [1] = 0.
Proof.
  unfold Fixtures.cosine_distance. simpl.
  replace (1 * 1 + 0) with 1 by ring. rewrite sqrt_1. lra.
Qed.

(** After 1800 days a memory of stability 0.3 and importance 0.5 that was
    never accessed again retains less than 1/101. *)
Lemma old_retention :
  Server.calculate_retention Fixtures.much_later 0.3 0.5 0 < 0.01.
Proof.
  rewrite server_retention_spec. unfold Spec.retention, Fixtures.much_later.
  replace (0.3 * (1 + 2 * 0.5) * 30) with 18 by lra.
  rewrite Rmax_right by lra.
  replace (- ((155520000 - 0) / 86400) / 18) with (Ropp 100) by lra.
  rewrite clamp_unit.
  - rewrite exp_Ropp. pose proof (exp_ineq1_le 100) as H.
    apply Rle_lt_trans with (/ 101); [|lra].
    apply Rinv_le_contravar; lra.
  - split; [left; apply exp_pos | apply exp_nonpos_le_1; lra].
Qed.

(** Settles the comparisons of reals left in a goal by linear arithmetic
    over the facts at hand. *)
Ltac settle_reals :=
  repeat match goal with
    | |- context [Rltb ?a ?b] =>
        first [ rewrite (proj2 (Rltb_true_iff a b)) by lra
              | rewrite (proj2 (Rltb_false_iff a b)) by lra ]
    | |- context [Rleb ?a ?b] =>
        first [ rewrite (proj2 (Rleb_true_iff a b)) by lra
              | rewrite (proj2 (Rleb_false_iff a b)) by lra ]
    end.

Ltac settle_minmax :=
  repeat match goal with
    | |- context [Rmin ?a ?b] =>
        first [ rewrite (Rmin_left a b) by lra
              | rewrite (Rmin_right a b) by lra ]
    end.

Ltac evaluate :=
  cbn -[IZR Q2R Rltb Rleb Rmin Rmax between Server.calculate_retention
        Fixtures.cosine_distance Fixtures.much_later Fixtures.a_week];
  unfold between; settle_minmax; settle_reals.

(** The retrieval of the sample graph: the fresh memory is the one primary
    result; the two old memories come back as associations, by ascending
    identifier. *)
Lemma graph_retrieval :
  exists res db',
    Fixtures.retrieve_memories Fixtures.much_later "a" "q"
      Client.retrieve_defaults Fixtures.graph
    = Done (res, db')
    /\ map (fun r => id (Client.row r)) (Client.result_memories res) = [1%N]
    /\ map (fun a => (id (Client.assoc_row a), Client.link_strength a,
                      Client.assoc_retention a))
           (Client.result_associations res)
       = [(2%N, 0.4, Server.calculate_retention Fixtures.much_later 0.3 0.5 0);
          (3%N, 0.9, Server.calculate_retention Fixtures.much_later 0.3 0.5 0)].
Proof.
  pose proof old_retention as Hold.
  pose proof (retention_fresh Fixtures.much_later 0.3 0.5) as Hfresh.
  assert (Hlater : Fixtures.much_later = 155520000) by reflexivity.
  unfold Fixtures.retrieve_memories, Client.retrieve_memories,
    Client.select_primary, Client.select_associations, Client.retention_of,
    Fixtures.graph, Fixtures.row.
  repeat (progress evaluate).
  eexists. eexists. split; [reflexivity|]. split; reflexivity.
Qed.





Lemma two_rows_key : Spec.primary_key Fixtures.two_rows.
Proof.
  unfold Spec.primary_key. simpl. constructor.
  - intros [H|[]]. discriminate H.
  - constructor; [intros [] | constructor].
Qed.

(** C5, witness: a first reinforcement one week after the insertion raises
    the stability from 0.3 to 0.4. *)
Lemma reinforce_memory_spacing_witness :
  exists ms' m',
    Server.reinforce_memory Fixtures.a_week 1%N Fixtures.two_rows = Done ms'
    /\ Spec.lookup 1%N ms' = Some m'
    /\ last_accessed m' = Fixtures.a_week
    /\ access_count m' = 1%Z
    /\ stability m' = 0.4.
Proof.
  destruct (reinforce_memory_spacing Fixtures.a_week 1%N Fixtures.two_rows
              (Fixtures.row 1%N "tea"%string [] 0))
    as (ms' & m' & Hrun & Hlook & Hla & Hac & Hst & _).
  - exact two_rows_key.
  - left. reflexivity.
  - reflexivity.
  - unfold Spec.row_ok, Fixtures.a_week, integer_max. simpl.
    repeat split; try lra; lia.
  - exists ms', m'. split; [exact Hrun|]. split; [exact Hlook|].
    split; [exact Hla|]. split; [exact Hac|].
    rewrite Hst. unfold Fixtures.a_week. simpl.
    replace ((604800 - 0) / 86400 / 7) with 1 by lra.
    rewrite (Rmin_right 2 1) by lra. rewrite Rmin_right by lra. lra.
Defined.

(** C5, counterexample.  A memory of stability 0.5 whose [last_accessed]
    is one week ahead of the clock of the reinforcing transaction: the
    spacing bonus is -1 and the reinforcement lowers the stability to
    0.4. *)
Lemma reinforcement_lowers_stability :
  exists ms' m',
    Server.reinforce_memory 0 1%N [Cases.ahead] = Done ms'
    /\ Spec.lookup 1%N ms' = Some m'
    /\ stability Cases.ahead = 0.5
    /\ stability m' = 0.4
    /\ stability m' < stability Cases.ahead.
Proof.
  assert (Hweek : Fixtures.a_week = 604800) by reflexivity.
  unfold Server.reinforce_memory, Server.reinforce_row, Server.least,
    Cases.ahead.
  cbn -[IZR Q2R Rltb Rleb Rmin Rmax between Fixtures.a_week].
  replace ((0 - Fixtures.a_week) / 86400 / 7) with (-1)
    by (rewrite Hweek; lra).
  rewrite (Rmin_right 2 (-1)) by lra.
  replace (0.5 + 0.1 * -1) with 0.4 by lra.
  rewrite (Rmin_right 1 0.4) by lra.
  unfold between. settle_reals.
  cbn -[IZR Q2R].
  eexists. eexists. split; [reflexivity|]. split; [reflexivity|].
  simpl. repeat split; lra.
Qed.

(** C10, witness: no row of the sample table has the identifier 9. *)
Lemma reinforce_memory_unknown_id_witness :
  Server.reinforce_memory Fixtures.a_week 9%N Fixtures.two_rows
  = Done Fixtures.two_rows.
Proof.
  apply (reinforce_memory_unknown_id Fixtures.a_week 9%N Fixtures.two_rows).
  intros m [<-|[<-|[]]]; discriminate.
Defined.

Lemma first_store :
  Fixtures.store_memory 0 "a" Fixtures.dark_mode Fixtures.dark_mode_options
    Fixtures.empty
  = Done (Client.created 1%N 0, Fixtures.after_first_store).
Proof.
  unfold Fixtures.store_memory, Client.store_memory, Client.insert_memory.
  evaluate. reflexivity.
Qed.

Lemma near_duplicate :
  0.92 < 1 - Fixtures.cosine_distance
               (Fixtures.get_embedding Fixtures.dark_mode)
               (Fixtures.get_embedding Fixtures.dark_mode_again).
Proof. unfold Fixtures.get_embedding. rewrite cosine_unit. lra. Qed.

(** C2, counterexample. A preference is stored and its near-duplicate is
    stored at the same instant with the defaults: the second call answers
    [reinforced], one row remains, and its [access_count] is 1, not 2. *)
Lemma near_duplicate_access_count :
  exists sim db2 m,
    Fixtures.store_memory 0 "a" Fixtures.dark_mode Fixtures.dark_mode_options
      Fixtures.empty
    = Done (Client.created 1%N 0, Fixtures.after_first_store)
    /\ Fixtures.store_memory 0 "a" Fixtures.dark_mode_again
         Client.store_defaults Fixtures.after_first_store
       = Done (Client.reinforced 1%N Fixtures.dark_mode sim, db2)
    /\ map id (memories db2) = [1%N]
    /\ Spec.lookup 1%N (memories db2) = Some m
    /\ access_count m = 1%Z
    /\ access_count m <> 2%Z.
Proof.
  destruct (store_memory_again Fixtures.cosine_distance Fixtures.get_embedding
              Fixtures.score_importance Fixtures.extract_topics
              0 "a"%string Fixtures.dark_mode Fixtures.dark_mode_again
              Fixtures.dark_mode_options Fixtures.empty
              Fixtures.after_first_store 1%N 0)
    as (sim & db2 & m & Hrun & Hids & Hlook & Hac & _).
  - constructor.
  - exact first_store.
  - intros m [].
  - exact near_duplicate.
  - exists sim, db2, m. split; [exact first_store|]. split; [exact Hrun|].
    split; [exact Hids|]. split; [exact Hlook|]. split; [exact Hac|].
    rewrite Hac. discriminate.
Qed.

(** C2, witness: the same two writes. *)
Lemma store_memory_dedup_witness :
  exists sim db2 m,
    Fixtures.store_memory 0 "a" Fixtures.dark_mode_again
      Client.store_defaults Fixtures.after_first_store
    = Done (Client.reinforced 1%N Fixtures.dark_mode sim, db2)
    /\ map id (memories db2) = map id (memories Fixtures.empty) ++ [1%N]
    /\ Spec.lookup 1%N (memories db2) = Some m
    /\ access_count m = 1%Z
    /\ stability m = 0.3.
Proof.
  apply (proj2 (store_memory_dedup Fixtures.cosine_distance
                  Fixtures.get_embedding Fixtures.score_importance
                  Fixtures.extract_topics)
           0 "a"%string Fixtures.dark_mode Fixtures.dark_mode_again
           Fixtures.dark_mode_options Fixtures.empty
           Fixtures.after_first_store 1%N 0).
  - constructor.
  - exact first_store.
  - intros m [].
  - exact near_duplicate.
Defined.

(** C6, at the failing input. Two calls of [link_memories] with its default
    argument on two memories that were not linked leave both link rows with
    strength [min(1, 0.5 + 0.5) = 1]; the same two calls of
    [strengthen_link] with its own default increment leave 0.6. *)
Theorem link_memories_default_twice :
  (exists db1 db2,
      Client.link_memories 0 1%N 2%N Client.default_strength Fixtures.pair
      = Done db1
      /\ Client.link_memories 0 1%N 2%N Client.default_strength db1 = Done db2
      /\ Spec.strength_of 1%N 2%N (memory_links db2) = Some 1
      /\ Spec.strength_of 2%N 1%N (memory_links db2) = Some 1)
  /\ (exists db1 db2,
         Server.strengthen_link 0 1%N 2%N Server.default_increment
           Fixtures.pair
         = Done db1
         /\ Server.strengthen_link 0 1%N 2%N Server.default_increment db1
            = Done db2
         /\ Spec.strength_of 1%N 2%N (memory_links db2) = Some 0.6
         /\ Spec.strength_of 2%N 1%N (memory_links db2) = Some 0.6)
  /\ 1 <> 0.6.
Proof.
  split; [|split; [|lra]].
  - destruct (strengthen_link_twice 0 0 1%N 2%N Client.default_strength
                Fixtures.pair)
      as (db1 & db2 & H1 & H2 & _ & Hab & Hba);
      try reflexivity; try discriminate;
      [unfold Client.default_strength; lra|].
    exists db1, db2. unfold Client.link_memories.
    split; [exact H1|]. split; [exact H2|].
    rewrite Hab, Hba. unfold Client.default_strength.
    rewrite Rmin_left by lra. split; reflexivity.
  - destruct (strengthen_link_twice 0 0 1%N 2%N Server.default_increment
                Fixtures.pair)
      as (db1 & db2 & H1 & H2 & _ & Hab & Hba);
      try reflexivity; try discriminate;
      [unfold Server.default_increment; lra|].
    exists db1, db2. split; [exact H1|]. split; [exact H2|].
    rewrite Hab, Hba. unfold Server.default_increment.
    rewrite Rmin_right by lra.
    replace (0.5 + 0.1) with 0.6 by lra. split; reflexivity.
Qed.

(** C9, counterexample. On five faded memories of which three carry the
    topics [b] and [a], in that order, the consolidation compresses the
    group of [b] before the group of [a]: not the lexicographic order. *)
Lemma groups_in_scan_order :
  exists rep db',
    Fixtures.consolidate_memories Fixtures.much_later
      (fun _ => Fixtures.much_later) "a" 5 Fixtures.faded
    = Done (rep, db')
    /\ map Client.c_topic (Client.compressed rep) = ["b"; "a"]%string
    /\ ~ Spec.lexicographic (map Client.c_topic (Client.compressed rep)).
Proof.
  destruct (consolidate_memories_topics Fixtures.cosine_distance
              Fixtures.get_embedding Fixtures.score_importance
              Fixtures.extract_topics Fixtures.chat_summary
              Fixtures.much_later (fun _ => Fixtures.much_later) "a" 5
              Fixtures.faded) as (rep & db' & Hrun & Htopics).
  assert (H : map Client.c_topic (Client.compressed rep) = ["b"; "a"]%string).
  { rewrite Htopics. pose proof old_retention as Hold.
    unfold Client.select_fading, Client.retention_of, Fixtures.faded,
      Fixtures.row.
    evaluate. reflexivity. }
  exists rep, db'. split; [exact Hrun|]. split; [exact H|].
  rewrite H. unfold Spec.lexicographic. intros Hs.
  inversion Hs as [|? ? _ Hall]; subst.
  inversion Hall as [|? ? Hba _]; subst.
  discriminate Hba.
Qed.

(** C7, counterexample. The summary memory that the consolidation of the
    same five memories writes for its first group has an empty [summarizes]
    set. *)
Lemma summary_with_empty_summarizes :
  exists rep db' e s,
    Fixtures.consolidate_memories Fixtures.much_later
      (fun _ => Fixtures.much_later) "a" 5 Fixtures.faded
    = Done (rep, db')
    /\ In e (Client.compressed rep)
    /\ In s (memories db')
    /\ id s = Client.c_summary_id e
    /\ summarizes s = [].
Proof.
  destruct (consolidate_memories_run Fixtures.cosine_distance
              Fixtures.get_embedding Fixtures.score_importance
              Fixtures.extract_topics Fixtures.chat_summary
              Fixtures.much_later (fun _ => Fixtures.much_later) "a" 5
              Fixtures.faded) as (es & ss & Hrun & Hes & Hss).
  assert (Hne : exists e es', es = e :: es').
  { pose proof old_retention as Hold. revert Hes.
    unfold Client.select_fading, Client.retention_of, Fixtures.faded,
      Fixtures.row.
    evaluate. intros Hes. inversion Hes; subst. eexists. eexists. reflexivity. }
  destruct Hne as (e & es' & ->).
  inversion Hss as [|? s ? ss' Hs _]; subst.
  destruct Hs as (Hid & Hempty & _).
  destruct (soft_delete_dormant_image Fixtures.much_later "a"
              (Client.mark_summarized
                 (flat_map Client.c_original_ids (e :: es'))
                 (memories Fixtures.faded) ++ s :: ss') s) as [b Hb].
  { apply in_or_app. right. left. reflexivity. }
  eexists. eexists. exists e, (Spec.with_deleted b s).
  split; [exact Hrun|]. split; [left; reflexivity|].
  split; [exact Hb|]. split; [exact Hid | exact Hempty].
Qed.

(** Scenario 6 of the specification: after 45 days the retention of a
    memory of stability 0.3 and importance 0.1 is [exp (-45 / 10.8)], below
    0.05; the sweep deletes it, and leaves a summary with the same columns. *)
Lemma dormant_retention :
  Server.calculate_retention Fixtures.forty_five_days 0.3 0.1 0 < 0.05.
Proof.
  rewrite server_retention_spec.
  unfold Spec.retention, Fixtures.forty_five_days.
  replace (0.3 * (1 + 2 * 0.1) * 30) with 10.8 by lra.
  rewrite Rmax_right by lra.
  replace (- ((3888000 - 0) / 86400) / 10.8) with (Ropp (25 / 6)) by lra.
  rewrite clamp_unit.
  - rewrite exp_Ropp.
    assert (H0 : 1.52 <= exp (25 / 48)).
    { apply Rle_trans with (1 + 25 / 48); [lra | apply exp_ineq1_le]. }
    redouble H0 H1 1.52 2.31 (25 / 48) (25 / 24).
    redouble H1 H2 2.31 5.33 (25 / 24) (25 / 12).
    redouble H2 H3 5.33 28.4 (25 / 12) (25 / 6).
    apply Rle_lt_trans with (/ 28.4); [|lra].
    apply Rinv_le_contravar; lra.
  - split; [left; apply exp_pos | apply exp_nonpos_le_1; lra].
Qed.

Example dormant_sweep_scenario :
  Client.soft_delete_dormant Fixtures.forty_five_days "a"
    [Fixtures.dormant_row 1%N false; Fixtures.dormant_row 2%N true]
  = [Spec.with_deleted true (Fixtures.dormant_row 1%N false);
     Fixtures.dormant_row 2%N true].
Proof.
  pose proof dormant_retention as Hret.
  assert (Hnow : Fixtures.forty_five_days = 3888000) by reflexivity.
  unfold Client.soft_delete_dormant, Client.dormant, Client.retention_of,
    Fixtures.dormant_row.
  cbn -[IZR Q2R Rltb Rleb Rmin Rmax between Server.calculate_retention
        Fixtures.forty_five_days].
  settle_reals. reflexivity.
Qed.

(** * Further properties *)

(** ** Retention over time, stability and importance *)

Lemma exp_le (x y : R) : x <= y -> exp x <= exp y.
Proof.
  intros [H| ->]; [left; apply exp_increasing; exact H | lra].
Qed.

Lemma clamp_le (x y : R) : x <= y -> Spec.clamp x 0 1 <= Spec.clamp y 0 1.
Proof.
  intros H. unfold Spec.clamp.
  apply Rle_max_compat_l, Rle_min_compat_l. exact H.
Qed.

Lemma clamp_above (x : R) : 1 <= x -> Spec.clamp x 0 1 = 1.
Proof.
  intros H. unfold Spec.clamp. rewrite Rmin_left by exact H.
  apply Rmax_right. lra.
Qed.

Lemma exp_nonneg_ge_1 (x : R) : 0 <= x -> 1 <= exp x.
Proof.
  intros H. apply Rle_trans with (exp 0); [rewrite exp_0; lra|].
  apply exp_le, H.
Qed.

Lemma tau_positive (x : R) : 0 < Rmax 1 x.
Proof. apply Rlt_le_trans with 1; [lra | apply Rmax_l]. Qed.

(** X1. With the columns of a memory fixed, its retention does not grow as
    time passes. *)
Theorem retention_fades :
  forall s i t_a now1 now2 : R,
    now1 <= now2 ->
    Server.calculate_retention now2 s i t_a
    <= Server.calculate_retention now1 s i t_a.
Proof.
  intros s i t_a now1 now2 H. rewrite !server_retention_spec.
  unfold Spec.retention. apply clamp_le, exp_le.
  pose proof (tau_positive (s * (1 + 2 * i) * 30)) as Ht.
  unfold Rdiv. apply Rmult_le_compat_r; [left; apply Rinv_0_lt_compat, Ht|].
  lra.
Qed.

(** X1, witness: a day later, a memory of stability 0.3 and importance 0.5
    retains no more than at its last access. *)
Lemma retention_fades_witness :
  Server.calculate_retention 86400 0.3 0.5 0
  <= Server.calculate_retention 0 0.3 0.5 0.
Proof. apply (retention_fades 0.3 0.5 0 0 86400). lra. Defined.

(** X2. At a given time, a memory of higher stability or higher importance
    retains at least as much as one of lower stability and importance. *)
Theorem retention_grows_with_stability_and_importance :
  forall s1 s2 i1 i2 t_a now : R,
    0 <= s1 <= s2 -> 0 <= i1 <= i2 ->
    Server.calculate_retention now s1 i1 t_a
    <= Server.calculate_retention now s2 i2 t_a.
Proof.
  intros s1 s2 i1 i2 t_a now Hs Hi. rewrite !server_retention_spec.
  unfold Spec.retention.
  set (tau1 := Rmax 1 (s1 * (1 + 2 * i1) * 30)).
  set (tau2 := Rmax 1 (s2 * (1 + 2 * i2) * 30)).
  assert (H1 : 0 < tau1) by apply tau_positive.
  assert (H2 : 0 < tau2) by apply tau_positive.
  assert (H12 : tau1 <= tau2).
  { unfold tau1, tau2. apply Rle_max_compat_l.
    apply Rmult_le_compat_r; [lra|].
    apply Rmult_le_compat; lra. }
  set (d := (now - t_a) / 86400).
  destruct (Rle_dec 0 d) as [Hd|Hd].
  - apply clamp_le, exp_le. unfold Rdiv.
    rewrite !Ropp_mult_distr_l_reverse. apply Ropp_le_contravar.
    apply Rmult_le_compat_l; [exact Hd|].
    apply Rinv_le_contravar; assumption.
  - rewrite (clamp_above (exp (- d / tau2))).
    + unfold Spec.clamp. apply Rmax_lub; [lra | apply Rmin_l].
    + apply exp_nonneg_ge_1. unfold Rdiv.
      apply Rmult_le_pos; [lra | left; apply Rinv_0_lt_compat, H2].
Qed.

(** X2, witness: after one day, stability 0.9 and importance 0.7 retain at
    least as much as stability 0.3 and importance 0.5. *)
Lemma retention_grows_witness :
  Server.calculate_retention 86400 0.3 0.5 0
  <= Server.calculate_retention 86400 0.9 0.7 0.
Proof.
  apply (retention_grows_with_stability_and_importance 0.3 0.9 0.5 0.7);
    lra.
Defined.

(** X3. The decay constant is never below one day: whenever
    [stability * (1 + 2 importance) * 30 <= 1], for instance at stability 0,
    retention is [clamp(exp(- days_elapsed), 0, 1)] whatever the stability
    and the importance. *)
Theorem retention_decay_floor :
  forall s i t_a now : R,
    s * (1 + 2 * i) * 30 <= 1 ->
    Server.calculate_retention now s i t_a
    = Spec.clamp (exp (- ((now - t_a) / 86400))) 0 1.
Proof.
  intros s i t_a now H. rewrite server_retention_spec.
  unfold Spec.retention. rewrite Rmax_left by exact H.
  f_equal. f_equal. field.
Qed.

(** X3, witness: at stability 0 the decay constant is one day, even at
    importance 1. *)
Lemma retention_decay_floor_witness :
  Server.calculate_retention 86400 0 1 0
  = Spec.clamp (exp (- ((86400 - 0) / 86400))) 0 1.
Proof. apply (retention_decay_floor 0 1 0 86400). lra. Defined.

(** ** Reinforcement: what it leaves alone, and a clock that runs behind *)

Lemma update_where_pointwise (cond : memory -> bool)
    (set : memory -> outcome memory) (ms ms' : list memory) :
  update_where cond set ms = Done ms' ->
  Forall2 (fun m m' => if cond m then set m = Done m' else m' = m) ms ms'.
Proof.
  revert ms'. induction ms as [|m ms IH]; intros ms' H; simpl in H.
  - injection H as <-. constructor.
  - destruct (if cond m then set m else Done m) as [m1|] eqn:Hm;
      simpl in H; [|discriminate].
    destruct (update_where cond set ms) as [rest|];
      simpl in H; [|discriminate].
    injection H as <-. constructor; [|apply IH; reflexivity].
    destruct (cond m); [exact Hm | congruence].
Qed.

Lemma update_where_raises (cond : memory -> bool)
    (set : memory -> outcome memory) (e : db_error) (ms : list memory)
    (m : memory) :
  In m ms -> cond m = true ->
  (forall x, In x ms -> cond x = true -> set x = Raised e) ->
  update_where cond set ms = Raised e.
Proof.
  induction ms as [|x ms IH]; intros Hin Hc Hall; [destruct Hin|].
  simpl. destruct (cond x) eqn:Hx.
  - rewrite (Hall x (or_introl eq_refl) Hx). reflexivity.
  - simpl. destruct Hin as [->|Hin]; [congruence|].
    rewrite IH; [reflexivity | exact Hin | exact Hc |].
    intros y Hy. apply Hall. right. exact Hy.
Qed.

Lemma reinforce_row_facts (now : timestamptz) (cs : option R) (bonus : R)
    (m m' : memory) :
  Server.reinforce_row now cs bonus m = Done m' -> Laws.same_facts m m'.
Proof.
  unfold Server.reinforce_row.
  destruct (integer_max <? access_count m + 1)%Z; [discriminate|].
  destruct (negb _); [discriminate|]. intros H. injection H as <-.
  unfold Laws.same_facts. simpl. repeat split.
Qed.

Lemma same_facts_refl (m : memory) : Laws.same_facts m m.
Proof. unfold Laws.same_facts. repeat split. Qed.

(** X4. A reinforcement that returns keeps the table row for row: the row
    of another identifier is unchanged, and of the reinforced row only
    [stability], [last_accessed] and [access_count] can differ. *)
Theorem reinforce_memory_frame :
  forall (now : timestamptz) (p : uuid) (ms ms' : list memory),
    Server.reinforce_memory now p ms = Done ms' ->
    Forall2 (fun m m' => Laws.same_facts m m' /\ (id m <> p -> m' = m))
            ms ms'.
Proof.
  intros now p ms ms' H. unfold Server.reinforce_memory in H.
  apply update_where_pointwise in H.
  eapply Forall2_impl; [|exact H]. simpl. intros m m' Hm.
  destruct (N.eqb (id m) p) eqn:E.
  - apply reinforce_row_facts in Hm. split; [exact Hm|].
    apply N.eqb_eq in E. intros Hne. contradiction.
  - subst m'. split; [apply same_facts_refl | reflexivity].
Qed.

(** X4, witness: reinforcing the first of two rows a week after they were
    stored. *)
Lemma reinforce_memory_frame_witness :
  Forall2 (fun m m' => Laws.same_facts m m' /\ (id m <> 1%N -> m' = m))
    Fixtures.two_rows
    (map (fun m => if N.eqb (id m) 1%N
                   then Spec.reinforced Fixtures.a_week m else m)
         Fixtures.two_rows).
Proof.
  apply (reinforce_memory_frame Fixtures.a_week 1%N).
  apply reinforce_memory_map; [exact two_rows_key|].
  intros m [<-|[<-|[]]] _;
    unfold Spec.row_ok, Fixtures.a_week, integer_max; simpl;
    repeat split; try lra; lia.
Defined.

Lemma reinforce_row_done (now : timestamptz) (m : memory) :
  0 <= Spec.reinforced_stability now m ->
  (access_count m < integer_max)%Z ->
  Server.reinforce_row now (Some (stability m))
    (Server.least 2 (Some ((now - last_accessed m) / 86400 / 7))) m
  = Done (Spec.reinforced now m).
Proof.
  intros Hs Hac.
  unfold Server.reinforce_row, Server.least, option_map.
  cbv beta iota zeta.
  change (Rmin 1 (stability m
                  + 0.1 * Rmin 2 ((now - last_accessed m) / 86400 / 7)))
    with (Spec.reinforced_stability now m).
  replace (integer_max <? access_count m + 1)%Z with false
    by (symmetry; apply Z.ltb_ge; lia).
  replace (between (Spec.reinforced_stability now m) 0 1) with true;
    [reflexivity|].
  symmetry. apply between_true_iff. split; [exact Hs|].
  unfold Spec.reinforced_stability. apply Rmin_l.
Qed.

Lemma reinforce_row_below (now : timestamptz) (m : memory) :
  Spec.reinforced_stability now m < 0 ->
  (access_count m < integer_max)%Z ->
  Server.reinforce_row now (Some (stability m))
    (Server.least 2 (Some ((now - last_accessed m) / 86400 / 7))) m
  = Raised (check_violation "memories_stability_check").
Proof.
  intros Hs Hac.
  unfold Server.reinforce_row, Server.least, option_map.
  cbv beta iota zeta.
  change (Rmin 1 (stability m
                  + 0.1 * Rmin 2 ((now - last_accessed m) / 86400 / 7)))
    with (Spec.reinforced_stability now m).
  replace (integer_max <? access_count m + 1)%Z with false
    by (symmetry; apply Z.ltb_ge; lia).
  replace (between (Spec.reinforced_stability now m) 0 1) with false;
    [reflexivity|].
  symmetry. unfold between. apply andb_false_iff. left.
  apply Rleb_false_iff. lra.
Qed.

Lemma same_identifier (ms : list memory) (x m : memory) :
  Spec.primary_key ms -> In x ms -> In m ms -> id x = id m -> x = m.
Proof.
  intros Hk Hx Hm E.
  pose proof (lookup_unique ms x Hk Hx) as H1.
  pose proof (lookup_unique ms m Hk Hm) as H2.
  rewrite E in H1. congruence.
Qed.

Lemma clock_behind_stability (now : timestamptz) (m : memory) :
  now < last_accessed m -> stability m <= 1 ->
  Spec.reinforced_stability now m
  = stability m + 0.1 * ((now - last_accessed m) / 86400 / 7).
Proof.
  intros Hla Hs. unfold Spec.reinforced_stability.
  assert (Hd : (now - last_accessed m) / 86400 / 7 < 0) by lra.
  rewrite (Rmin_right 2) by lra. apply Rmin_right. lra.
Qed.

(** X5. The spacing bonus has no lower bound.  When the clock of the
    transaction is behind the row's [last_accessed], a reinforcement
    lowers the stability by a tenth of the weeks in between; when that
    would make it negative, the statement violates the [CHECK] on
    [stability] and raises. *)
Theorem reinforce_memory_clock_behind :
  forall (now : timestamptz) (p : uuid) (ms : list memory) (m : memory),
    Spec.primary_key ms -> In m ms -> id m = p ->
    now < last_accessed m -> stability m <= 1 ->
    (access_count m < integer_max)%Z ->
    let s' := stability m + 0.1 * ((now - last_accessed m) / 86400 / 7) in
    s' < stability m
    /\ (0 <= s' ->
        exists ms' m',
          Server.reinforce_memory now p ms = Done ms'
          /\ Spec.lookup p ms' = Some m'
          /\ stability m' = s' /\ last_accessed m' = now)
    /\ (s' < 0 ->
        Server.reinforce_memory now p ms
        = Raised (check_violation "memories_stability_check")).
Proof.
  intros now p ms m Hk Hin He Hla Hs Hac s'.
  pose proof (clock_behind_stability now m Hla Hs) as Hst. fold s' in Hst.
  assert (Hsel : forall x, In x ms -> N.eqb (id x) p = true -> x = m).
  { intros x Hx E. apply N.eqb_eq in E.
    apply (same_identifier ms); [assumption.. | congruence]. }
  assert (Hfind : find (fun x => N.eqb (id x) p) ms = Some m).
  { rewrite <- He. apply lookup_unique; assumption. }
  split; [unfold s'; lra|]. split.
  - intros Hpos.
    exists (map (fun x => if N.eqb (id x) p
                          then Spec.reinforced now x else x) ms),
      (Spec.reinforced now m).
    split; [|split; [|split]].
    + unfold Server.reinforce_memory. apply update_where_map.
      intros x Hx E. rewrite Hfind, (Hsel x Hx E). simpl option_map.
      apply reinforce_row_done; [rewrite Hst; exact Hpos | exact Hac].
    + apply reinforce_memory_lookup; assumption.
    + exact Hst.
    + reflexivity.
  - intros Hneg. unfold Server.reinforce_memory.
    apply (update_where_raises _ _ _ ms m Hin).
    + apply N.eqb_eq. exact He.
    + intros x Hx E. rewrite Hfind, (Hsel x Hx E). simpl option_map.
      apply reinforce_row_below; [rewrite Hst; exact Hneg | exact Hac].
Qed.

(** X5, witness: a transaction 1800 days behind the last access of a fresh
    row raises. *)
Lemma reinforce_memory_clock_behind_witness :
  Server.reinforce_memory 0 1%N
    [Fixtures.row 1%N "tea" [] Fixtures.much_later]
  = Raised (check_violation "memories_stability_check").
Proof.
  assert (E : Fixtures.much_later = 155520000) by reflexivity.
  apply (reinforce_memory_clock_behind 0 1%N
           [Fixtures.row 1%N "tea" [] Fixtures.much_later]
           (Fixtures.row 1%N "tea" [] Fixtures.much_later)).
  - constructor; [intros [] | constructor].
  - left. reflexivity.
  - reflexivity.
  - simpl. rewrite E. lra.
  - simpl. lra.
  - simpl. unfold integer_max. lia.
  - simpl. rewrite E. lra.
Defined.

(** ** Links: first call, repetition, symmetry, missing memories *)

(** The upsert on a key that no row carries inserts at the end of the
    table, after the foreign keys are checked. *)
Lemma upsert_link_absent (now : timestamptz) (ms : list memory) (s t : uuid)
    (inc : R) (ls : list link) :
  Spec.strength_of s t ls = None ->
  Server.upsert_link now ms s t inc ls
  = if negb (Server.references ms s)
    then Raised (foreign_key_violation "memory_links_source_id_fkey")
    else if negb (Server.references ms t)
    then Raised (foreign_key_violation "memory_links_target_id_fkey")
    else Done (ls ++ [mkLink s t 0.5 "association" now now]).
Proof.
  unfold Spec.strength_of.
  induction ls as [|l ls IH]; simpl; intros H; [reflexivity|].
  destruct (Server.link_keyed s t l); [discriminate|].
  rewrite (IH H).
  destruct (negb (Server.references ms s)); [reflexivity|].
  destruct (negb (Server.references ms t)); reflexivity.
Qed.

Lemma strength_of_app (s t : uuid) (ls ls' : list link) :
  Spec.strength_of s t (ls ++ ls')
  = match Spec.strength_of s t ls with
    | Some x => Some x
    | None => Spec.strength_of s t ls'
    end.
Proof.
  unfold Spec.strength_of. induction ls as [|l ls IH]; simpl; [reflexivity|].
  destruct (Server.link_keyed s t l); [reflexivity | exact IH].
Qed.

Lemma link_keyed_refl (s t : uuid) (x : R) (k : string) (c u : timestamptz) :
  Server.link_keyed s t (mkLink s t x k c u) = true.
Proof. unfold Server.link_keyed. simpl. rewrite !N.eqb_refl. reflexivity. Qed.

(** X6. The first [link_memories] call on two different, existing and so
    far unlinked memories appends the two rows [(a, b)] and [(b, a)] with
    strength 0.5 each: the argument [strength] plays no part in it. *)
Theorem link_memories_first_call :
  forall (now : timestamptz) (a b : uuid) (strength : R) (db : database),
    a <> b ->
    Server.references (memories db) a = true ->
    Server.references (memories db) b = true ->
    Spec.strength_of a b (memory_links db) = None ->
    Spec.strength_of b a (memory_links db) = None ->
    Client.link_memories now a b strength db
    = Done (mkDatabase (memories db)
              (memory_links db
               ++ [mkLink a b 0.5 "association" now now;
                   mkLink b a 0.5 "association" now now])).
Proof.
  intros now a b x db Hab Ha Hb Hnab Hnba.
  unfold Client.link_memories, Server.strengthen_link.
  rewrite (upsert_link_absent _ _ _ _ _ _ Hnab), Ha, Hb. simpl.
  rewrite upsert_link_absent, Ha, Hb.
  - simpl. rewrite <- app_assoc. reflexivity.
  - rewrite strength_of_app, Hnba. unfold Spec.strength_of. simpl.
    replace (Server.link_keyed b a _) with false; [reflexivity|].
    symmetry. unfold Server.link_keyed. simpl.
    apply andb_false_iff. left. apply N.eqb_neq. exact Hab.
Qed.

(** X6, witness: a first link asked for at strength 0.9 is stored at 0.5 in
    both directions. *)
Lemma link_memories_first_call_witness :
  Client.link_memories 5 1%N 2%N 0.9 Fixtures.pair
  = Done (mkDatabase Fixtures.two_rows
            [mkLink 1%N 2%N 0.5 "association" 5 5;
             mkLink 2%N 1%N 0.5 "association" 5 5]).
Proof.
  apply (link_memories_first_call 5 1%N 2%N 0.9 Fixtures.pair);
    try reflexivity.
  discriminate.
Defined.

(** X7. A memory linked to itself: the two upserts of [strengthen_link]
    hit the same key, so the single row [(a, a)] is created at 0.5 and
    raised by the increment within the first call. *)
Theorem link_memories_self :
  forall (now : timestamptz) (a : uuid) (strength : R) (db : database),
    Server.references (memories db) a = true ->
    Spec.strength_of a a (memory_links db) = None ->
    0 <= 0.5 + strength ->
    Client.link_memories now a a strength db
    = Done (mkDatabase (memories db)
              (memory_links db
               ++ [mkLink a a (Rmin 1 (0.5 + strength)) "association"
                     now now])).
Proof.
  intros now a x db Ha Hn Hx.
  unfold Client.link_memories, Server.strengthen_link.
  rewrite (upsert_link_absent _ _ _ _ _ _ Hn), Ha. simpl.
  assert (Hup : forall ls,
             Spec.strength_of a a ls = None ->
             Server.upsert_link now (memories db) a a x
               (ls ++ [mkLink a a 0.5 "association" now now])
             = Done (ls ++ [mkLink a a (Rmin 1 (0.5 + x)) "association"
                              now now])).
  { unfold Spec.strength_of. induction ls as [|l ls IH]; simpl; intros H.
    - rewrite link_keyed_refl. simpl.
      replace (between (Rmin 1 (0.5 + x)) 0 1) with true; [reflexivity|].
      symmetry. apply between_true_iff. split; [|apply Rmin_l].
      apply Rmin_glb; lra.
    - destruct (Server.link_keyed a a l); [discriminate|].
      rewrite (IH H). reflexivity. }
  rewrite (Hup _ Hn). reflexivity.
Qed.

(** X7, witness: a memory linked to itself with the default argument gets
    one row of strength min(1, 0.5 + 0.5). *)
Lemma link_memories_self_witness :
  Client.link_memories 5 1%N 1%N Client.default_strength Fixtures.pair
  = Done (mkDatabase Fixtures.two_rows
            [mkLink 1%N 1%N (Rmin 1 (0.5 + Client.default_strength))
               "association" 5 5]).
Proof.
  apply (link_memories_self 5 1%N Client.default_strength Fixtures.pair);
    try reflexivity.
  unfold Client.default_strength. lra.
Defined.

(** X8. [link_memories] on an identifier that no memory carries raises
    the foreign key that fails first, the source's before the target's,
    and writes nothing. *)
Theorem link_memories_missing_memory :
  forall (now : timestamptz) (a b : uuid) (strength : R) (db : database),
    Spec.strength_of a b (memory_links db) = None ->
    (Server.references (memories db) a = false ->
     Client.link_memories now a b strength db
     = Raised (foreign_key_violation "memory_links_source_id_fkey"))
    /\ (Server.references (memories db) a = true ->
        Server.references (memories db) b = false ->
        Client.link_memories now a b strength db
        = Raised (foreign_key_violation "memory_links_target_id_fkey")).
Proof.
  intros now a b x db Hn.
  unfold Client.link_memories, Server.strengthen_link.
  rewrite (upsert_link_absent _ _ _ _ _ _ Hn).
  split.
  - intros ->. reflexivity.
  - intros -> ->. reflexivity.
Qed.

(** X8, witness: a link from a stored memory to an identifier that is not
    stored. *)
Lemma link_memories_missing_memory_witness :
  Client.link_memories 5 1%N 9%N 0.5 Fixtures.pair
  = Raised (foreign_key_violation "memory_links_target_id_fkey").
Proof.
  apply (link_memories_missing_memory 5 1%N 9%N 0.5 Fixtures.pair);
    reflexivity.
Defined.

(** One call of [strengthen_link] on two different existing memories. *)
Lemma strengthen_link_step (now : timestamptz) (a b : uuid) (inc : R)
    (db : database) :
  a <> b ->
  Server.references (memories db) a = true ->
  Server.references (memories db) b = true ->
  match Spec.strength_of a b (memory_links db) with
  | Some x => 0 <= x + inc
  | None => True
  end ->
  match Spec.strength_of b a (memory_links db) with
  | Some x => 0 <= x + inc
  | None => True
  end ->
  exists ls,
    Server.strengthen_link now a b inc db
    = Done (mkDatabase (memories db) ls)
    /\ Spec.strength_of a b ls
       = Some match Spec.strength_of a b (memory_links db) with
              | Some x => Rmin 1 (x + inc)
              | None => 0.5
              end
    /\ Spec.strength_of b a ls
       = Some match Spec.strength_of b a (memory_links db) with
              | Some x => Rmin 1 (x + inc)
              | None => 0.5
              end
    /\ forall s t, (s, t) <> (a, b) -> (s, t) <> (b, a) ->
                   Spec.strength_of s t ls
                   = Spec.strength_of s t (memory_links db).
Proof.
  intros Hab Ha Hb Hcab Hcba.
  assert (Hne : (b, a) <> (a, b)) by (intros E; apply Hab; congruence).
  assert (Hne' : (a, b) <> (b, a)) by (intros E; apply Hab; congruence).
  unfold Server.strengthen_link.
  destruct (upsert_link_strength now (memories db) a b inc (memory_links db)
              Ha Hb Hcab) as [l1 [E1 [S1 O1]]].
  destruct (upsert_link_strength now (memories db) b a inc l1 Hb Ha)
    as [l2 [E2 [S2 O2]]]; [rewrite (O1 b a Hne); exact Hcba|].
  exists l2. rewrite E1. simpl. rewrite E2. simpl.
  split; [reflexivity|]. split; [|split].
  - rewrite (O2 a b Hne'). exact S1.
  - rewrite S2, (O1 b a Hne). reflexivity.
  - intros s t H1 H2. rewrite (O2 s t H2). apply O1. exact H1.
Qed.

(** X9. Links stay symmetric.  When the rows [(a, b)] and [(b, a)] carry
    the same strength, or are both absent, a [strengthen_link] call
    leaves them with the same strength again, keeps the strength of every
    other pair and does not touch the table [memories]. *)
Theorem strengthen_link_symmetric :
  forall (now : timestamptz) (a b : uuid) (inc : R) (db : database),
    a <> b ->
    Server.references (memories db) a = true ->
    Server.references (memories db) b = true ->
    Spec.strength_of a b (memory_links db)
    = Spec.strength_of b a (memory_links db) ->
    match Spec.strength_of a b (memory_links db) with
    | Some x => 0 <= x + inc
    | None => True
    end ->
    exists db',
      Server.strengthen_link now a b inc db = Done db'
      /\ memories db' = memories db
      /\ Spec.strength_of a b (memory_links db')
         = Spec.strength_of b a (memory_links db')
      /\ Spec.strength_of a b (memory_links db') <> None
      /\ forall s t, (s, t) <> (a, b) -> (s, t) <> (b, a) ->
                     Spec.strength_of s t (memory_links db')
                     = Spec.strength_of s t (memory_links db).
Proof.
  intros now a b inc db Hab Ha Hb Hsym Hc.
  destruct (strengthen_link_step now a b inc db Hab Ha Hb Hc)
    as (ls & E & S1 & S2 & O); [rewrite <- Hsym; exact Hc|].
  exists (mkDatabase (memories db) ls). simpl.
  split; [exact E|]. split; [reflexivity|]. split; [|split].
  - rewrite S1, S2, Hsym. reflexivity.
  - rewrite S1. discriminate.
  - exact O.
Qed.

(** X9, witness: the first link of the two sample rows. *)
Lemma strengthen_link_symmetric_witness :
  exists db',
    Server.strengthen_link 5 1%N 2%N 0.1 Fixtures.pair = Done db'
    /\ memories db' = memories Fixtures.pair
    /\ Spec.strength_of 1%N 2%N (memory_links db')
       = Spec.strength_of 2%N 1%N (memory_links db')
    /\ Spec.strength_of 1%N 2%N (memory_links db') <> None
    /\ forall s t, (s, t) <> (1%N, 2%N) -> (s, t) <> (2%N, 1%N) ->
                   Spec.strength_of s t (memory_links db')
                   = Spec.strength_of s t (memory_links Fixtures.pair).
Proof.
  apply (strengthen_link_symmetric 5 1%N 2%N 0.1 Fixtures.pair);
    try reflexivity.
  discriminate.
Defined.

Lemma saturating_step (x inc : R) (k : nat) :
  0 <= inc ->
  Rmin 1 (Rmin 1 (x + inc) + INR k * inc) = Rmin 1 (x + INR (S k) * inc).
Proof.
  intros Hinc. rewrite S_INR.
  assert (Hk : 0 <= INR k * inc)
    by (apply Rmult_le_pos; [apply pos_INR | exact Hinc]).
  destruct (Rle_dec 1 (x + inc)) as [H|H].
  - rewrite (Rmin_left 1 (x + inc)) by exact H.
    rewrite !Rmin_left by lra. reflexivity.
  - rewrite (Rmin_right 1 (x + inc)) by lra. f_equal. ring.
Qed.

Lemma link_repeatedly_linked (k : nat) :
  forall (clock : nat -> timestamptz) (a b : uuid) (inc x : R)
         (db : database),
    a <> b ->
    Server.references (memories db) a = true ->
    Server.references (memories db) b = true ->
    0 <= inc -> 0 <= x <= 1 ->
    Spec.strength_of a b (memory_links db) = Some x ->
    Spec.strength_of b a (memory_links db) = Some x ->
    exists ls,
      Laws.link_repeatedly k clock a b inc db
      = Done (mkDatabase (memories db) ls)
      /\ Spec.strength_of a b ls = Some (Rmin 1 (x + INR k * inc))
      /\ Spec.strength_of b a ls = Some (Rmin 1 (x + INR k * inc)).
Proof.
  induction k as [|k IH]; intros clock a b inc x db Hab Ha Hb Hinc Hx S1 S2.
  - exists (memory_links db). simpl. destruct db as [ms ls]. simpl in *.
    rewrite Rmult_0_l, Rplus_0_r, Rmin_right by lra. auto.
  - cbn [Laws.link_repeatedly]. unfold Client.link_memories.
    destruct (strengthen_link_step (clock O) a b inc db Hab Ha Hb)
      as (l1 & E & T1 & T2 & _);
      [rewrite S1; lra | rewrite S2; lra |].
    rewrite E. simpl. rewrite S1 in T1. rewrite S2 in T2.
    destruct (IH (fun i => clock (S i)) a b inc (Rmin 1 (x + inc))
                (mkDatabase (memories db) l1) Hab Ha Hb Hinc)
      as (l2 & E2 & U1 & U2); [|exact T1 | exact T2|].
    { split; [apply Rmin_glb; lra | apply Rmin_l]. }
    exists l2. simpl in E2. rewrite E2.
    rewrite saturating_step in U1, U2 by exact Hinc. auto.
Qed.

(** X10. Repeated linking adds up and saturates.  After [k + 1] calls of
    [link_memories] with the same non-negative argument on two different
    existing memories that were not linked, both rows carry
    [min(1, 0.5 + k * strength)], and [memories] is as it was. *)
Theorem link_memories_repeated :
  forall (k : nat) (clock : nat -> timestamptz) (a b : uuid) (strength : R)
         (db : database),
    a <> b ->
    Server.references (memories db) a = true ->
    Server.references (memories db) b = true ->
    Spec.strength_of a b (memory_links db) = None ->
    Spec.strength_of b a (memory_links db) = None ->
    0 <= strength ->
    exists ls,
      Laws.link_repeatedly (S k) clock a b strength db
      = Done (mkDatabase (memories db) ls)
      /\ Spec.strength_of a b ls = Some (Rmin 1 (0.5 + INR k * strength))
      /\ Spec.strength_of b a ls = Some (Rmin 1 (0.5 + INR k * strength)).
Proof.
  intros k clock a b x db Hab Ha Hb Hnab Hnba Hx.
  cbn [Laws.link_repeatedly]. unfold Client.link_memories.
  destruct (strengthen_link_step (clock O) a b x db Hab Ha Hb)
    as (l1 & E & T1 & T2 & _);
    [rewrite Hnab; exact I | rewrite Hnba; exact I |].
  rewrite E. simpl. rewrite Hnab in T1. rewrite Hnba in T2.
  apply (link_repeatedly_linked k (fun i => clock (S i)) a b x 0.5
           (mkDatabase (memories db) l1)); auto.
  lra.
Qed.

(** X10, witness: three calls with the argument 0.2 leave min(1, 0.5 + 2 *
    0.2) on both rows. *)
Lemma link_memories_repeated_witness :
  exists ls,
    Laws.link_repeatedly 3 (fun _ => 5) 1%N 2%N 0.2 Fixtures.pair
    = Done (mkDatabase (memories Fixtures.pair) ls)
    /\ Spec.strength_of 1%N 2%N ls = Some (Rmin 1 (0.5 + INR 2 * 0.2))
    /\ Spec.strength_of 2%N 1%N ls = Some (Rmin 1 (0.5 + INR 2 * 0.2)).
Proof.
  apply (link_memories_repeated 2 (fun _ => 5) 1%N 2%N 0.2 Fixtures.pair);
    try reflexivity.
  - discriminate.
  - lra.
Defined.

(** ** Writing: the insert path and the arguments of a duplicate *)

Section StoreFacts.
Variable cosine_distance : vector -> vector -> R.
Variable get_embedding : string -> vector.

Local Abbreviation similarity_to := (Client.similarity_to cosine_distance).
Local Abbreviation find_similar := (Client.find_similar cosine_distance).
Local Abbreviation dedup_candidate := (Spec.dedup_candidate cosine_distance).

Lemma skipped_or_none (agent text : string) (kw : Client.store_options)
    (db : database) :
  Client.kw_skip_dedup kw = true
  \/ (forall m, In m (memories db) ->
                ~ dedup_candidate agent (get_embedding text)
                    (Client.kw_dedup_threshold kw) m) ->
  (if Client.kw_skip_dedup kw then None
   else find_similar agent (get_embedding text)
          (Client.kw_dedup_threshold kw) (memories db)) = None.
Proof.
  intros [-> | H]; [reflexivity|].
  destruct (Client.kw_skip_dedup kw); [reflexivity|].
  apply (find_similar_none cosine_distance get_embedding). exact H.
Qed.

(** X11. The insert path.  Within the limits of the columns, a write
    that skips deduplication, or for which every stored memory is of
    another agent, soft-deleted or not similar enough, appends exactly one
    row when the importance lies in [0, 1]: a fresh identifier, stability
    0.3, no access, created and last accessed at the time of the write,
    neither a summary nor deleted, the links untouched.  With an
    importance outside [0, 1] the [CHECK] of the column fails and the
    write raises. *)
Theorem store_memory_insert_path :
  forall (score_importance : string -> R)
         (extract_topics : string -> list string)
         (now : timestamptz) (agent text : string)
         (kw : Client.store_options) (db : database),
    Laws.fits_columns agent (get_embedding text) kw ->
    Client.kw_skip_dedup kw = true
    \/ (forall m, In m (memories db) ->
                  agent_id m <> agent \/ is_deleted m = true
                  \/ similarity_to (get_embedding text) m
                     <= Client.kw_dedup_threshold kw) ->
    let imp := Laws.stored_importance score_importance kw text in
    (0 <= imp <= 1 ->
     exists m,
       Client.store_memory cosine_distance get_embedding score_importance
         extract_topics now agent text kw db
       = Done (Client.created (id m) now,
               mkDatabase (memories db ++ [m]) (memory_links db))
       /\ ~ In (id m) (map id (memories db))
       /\ agent_id m = agent /\ content m = text
       /\ embedding m = get_embedding text
       /\ mtype m = Client.kw_memory_type kw
       /\ importance m = imp
       /\ stability m = 0.3 /\ access_count m = 0%Z
       /\ created_at m = now /\ last_accessed m = now
       /\ is_summary m = false /\ summarizes m = []
       /\ is_deleted m = false)
    /\ (imp < 0 \/ 1 < imp ->
        Client.store_memory cosine_distance get_embedding score_importance
          extract_topics now agent text kw db
        = Raised (check_violation "memories_importance_check")).
Proof.
  intros score_importance extract_topics now agent text kw db _ Hno imp.
  assert (Hnone : (if Client.kw_skip_dedup kw then None
                   else find_similar agent (get_embedding text)
                          (Client.kw_dedup_threshold kw) (memories db))
                  = None).
  { apply skipped_or_none.
    destruct Hno as [H|H]; [left; exact H | right].
    intros m Hm (Ha & Hd & Hs).
    destruct (H m Hm) as [H1|[H1|H1]]; [contradiction | congruence | lra]. }
  unfold Client.store_memory. cbv zeta. rewrite Hnone.
  unfold Client.insert_memory.
  fold (Laws.stored_importance score_importance kw text). fold imp.
  split.
  - intros Himp.
    replace (between imp 0 1) with true
      by (symmetry; apply between_true_iff; exact Himp).
    simpl.
    match goal with
    | |- exists m, Done (_, mkDatabase (_ ++ [?x]) _) = _ /\ _ => exists x
    end.
    split; [reflexivity|]. simpl.
    split; [apply gen_random_uuid_fresh|].
    repeat (split; [reflexivity|]). reflexivity.
  - intros Himp.
    replace (between imp 0 1) with false; [reflexivity|].
    symmetry. unfold between. apply andb_false_iff.
    destruct Himp as [H|H]; [left | right]; apply Rleb_false_iff; lra.
Qed.

(** X12. When a write finds a duplicate, only the content, the agent and
    the threshold count: the memory type, the importance (even one outside
    [0, 1]), the topics, the dates, the source and the language model play
    no part in what is written or answered. *)
Theorem store_memory_duplicate_ignores_fields :
  forall (score1 score2 : string -> R)
         (extract1 extract2 : string -> list string)
         (now : timestamptz) (agent text : string)
         (kw1 kw2 : Client.store_options) (db : database) (m : memory),
    Client.kw_skip_dedup kw1 = false ->
    Client.kw_skip_dedup kw2 = false ->
    Client.kw_dedup_threshold kw2 = Client.kw_dedup_threshold kw1 ->
    In m (memories db) ->
    dedup_candidate agent (get_embedding text)
      (Client.kw_dedup_threshold kw1) m ->
    Client.store_memory cosine_distance get_embedding score1 extract1
      now agent text kw1 db
    = Client.store_memory cosine_distance get_embedding score2 extract2
        now agent text kw2 db.
Proof.
  intros score1 score2 extract1 extract2 now agent text kw1 kw2 db m
         Hs1 Hs2 Ht Hm Hc.
  destruct (find_similar_exists cosine_distance get_embedding agent _ _ _ m
              Hm Hc) as [s Hs].
  unfold Client.store_memory. cbv zeta.
  rewrite Hs1, Hs2, Ht, Hs. reflexivity.
Qed.

End StoreFacts.

(** ** Retrieval: what comes back, what is left out, what is written *)

Lemma reinforce_memory_keeps (now : timestamptz) (p : uuid)
    (ms ms' : list memory) (m : memory) :
  Server.reinforce_memory now p ms = Done ms' ->
  In m ms -> id m <> p -> In m ms'.
Proof.
  unfold Server.reinforce_memory. intros H Hin Hne.
  apply update_where_pointwise in H.
  destruct (Forall2_left_in _ _ _ _ H Hin) as (m' & Hm' & Hc).
  apply N.eqb_neq in Hne. rewrite Hne in Hc. subst m'. exact Hm'.
Qed.

Lemma reinforce_all_keeps (now : timestamptz) (ids : list uuid) :
  forall (ms ms' : list memory) (m : memory),
    Client.reinforce_all now ids ms = Done ms' ->
    In m ms -> ~ In (id m) ids -> In m ms'.
Proof.
  induction ids as [|i ids IH]; intros ms ms' m H Hin Hne; simpl in H.
  - injection H as <-. exact Hin.
  - destruct (Server.reinforce_memory now i ms) as [ms1|] eqn:H1;
      simpl in H; [|discriminate].
    apply (IH ms1 ms' m H).
    + apply (reinforce_memory_keeps now i ms ms1 m H1 Hin).
      intros E. apply Hne. left. symmetry. exact E.
    + intros Hi. apply Hne. right. exact Hi.
Qed.

(** [DISTINCT ON (m.id)] drops no identifier. *)
Lemma distinct_on_id_complete (rows : list (memory * link)) :
  forall (previous : option uuid) (r : memory * link),
    In r rows ->
    (exists k, In k (Client.distinct_on_id previous rows)
               /\ id (fst k) = id (fst r))
    \/ previous = Some (id (fst r)).
Proof.
  induction rows as [|[m l] rest IH]; intros previous r Hin; [destruct Hin|].
  simpl.
  destruct (match previous with
            | Some p => N.eqb p (id m)
            | None => false
            end) eqn:Hp.
  - destruct previous as [p|]; [|discriminate]. apply N.eqb_eq in Hp.
    destruct Hin as [<-|Hin]; [right; simpl; congruence|].
    apply IH. exact Hin.
  - left. destruct Hin as [<-|Hin].
    + exists (m, l). split; [left; reflexivity | reflexivity].
    + destruct (IH (Some (id m)) r Hin) as [(k & Hk & E)|E].
      * exists k. split; [right; exact Hk | exact E].
      * exists (m, l). split; [left; reflexivity|]. simpl. congruence.
Qed.

Lemma sorted_app_le {A : Type} (R : A -> A -> Prop) (l1 l2 : list A) :
  StronglySorted R (l1 ++ l2) ->
  forall a b, In a l1 -> In b l2 -> R a b.
Proof.
  induction l1 as [|x l1 IH]; simpl; intros Hs a b Ha Hb; [destruct Ha|].
  inversion Hs as [|? ? Hrest Hall]; subst.
  destruct Ha as [<-|Ha].
  - rewrite Forall_forall in Hall. apply Hall, in_or_app. right. exact Hb.
  - apply (IH Hrest a b Ha Hb).
Qed.

Lemma any_id_app (i : uuid) (l1 l2 : list uuid) :
  Client.any_id i (l1 ++ l2) = Client.any_id i l1 || Client.any_id i l2.
Proof. apply existsb_app. Qed.

(** The guard [if include_associations and retrieved_ids]. *)
Lemma guarded_in {A B : Type} (ids : list B) (c : bool) (sel : list A)
    (a : A) :
  In a (match ids with
        | [] => []
        | _ :: _ => if c then sel else []
        end) ->
  In a sel.
Proof.
  destruct ids; [intros []|]. destruct c; [auto | intros []].
Qed.

Lemma guarded_sorted {A B : Type} (R : A -> A -> Prop) (ids : list B)
    (c : bool) (sel : list A) :
  StronglySorted R sel ->
  StronglySorted R (match ids with
                    | [] => []
                    | _ :: _ => if c then sel else []
                    end).
Proof.
  intros H. destruct ids; [constructor|]. destruct c; [exact H | constructor].
Qed.

Section RetrievalFacts.
Variable cosine_distance : vector -> vector -> R.
Variable get_embedding : string -> vector.

Local Abbreviation similarity_to := (Client.similarity_to cosine_distance).
Local Abbreviation select_primary := (Client.select_primary cosine_distance).
Local Abbreviation retrieve_memories :=
  (Client.retrieve_memories cosine_distance get_embedding).

Lemma retrievable_iff (now : timestamptz) (agent : string)
    (kw : Client.retrieve_options) (m : memory) :
  (String.eqb (agent_id m) agent && negb (is_deleted m)
   && Rltb (Client.kw_min_retention kw) (Client.retention_of now m)
   && Client.type_filter (Client.kw_memory_types kw) m) = true
  <-> Laws.retrievable now agent kw m.
Proof.
  unfold Laws.retrievable, Client.retention_of.
  rewrite !andb_true_iff, String.eqb_eq, negb_true_iff, Rltb_true_iff.
  split; [intros [[[H1 H2] H3] H4] | intros (H1 & H2 & H3 & H4)];
    repeat split; assumption.
Qed.

(** [LIMIT] on the sorted rows: a qualifying row is returned, or [limit]
    rows that rank at least as high are. *)
Lemma select_primary_top (now : timestamptz) (agent : string) (q : vector)
    (kw : Client.retrieve_options) (ms : list memory) (m : memory) :
  In m ms -> Laws.retrievable now agent kw m ->
  (exists r, In r (select_primary now agent q kw ms) /\ Client.row r = m)
  \/ (List.length (select_primary now agent q kw ms) = Client.kw_limit kw
      /\ forall r, In r (select_primary now agent q kw ms) ->
           similarity_to q m * Client.retention_of now m
           <= Client.similarity r * Client.retention r).
Proof.
  intros Hin Hq. unfold Client.select_primary.
  set (rank := fun x => similarity_to q x * Client.retention_of now x).
  set (le := fun a b => Rleb (rank b) (rank a)).
  set (rows := filter _ ms).
  assert (Hm : In m (order_by le rows)).
  { apply order_by_in. unfold rows. apply filter_In.
    split; [exact Hin | apply retrievable_iff; exact Hq]. }
  assert (Hs : StronglySorted (fun a b => le a b = true) (order_by le rows)).
  { apply order_by_sorted;
      [intros a b; apply (desc_total rank)
      | intros a b c; apply (desc_trans rank)]. }
  rewrite <- (firstn_skipn (Client.kw_limit kw) (order_by le rows)) in Hm, Hs.
  apply in_app_or in Hm. destruct Hm as [Hm|Hm].
  - left. eexists. split; [apply in_map; exact Hm | reflexivity].
  - right. split.
    + rewrite length_map. apply firstn_length_le.
      destruct (Nat.le_gt_cases (Client.kw_limit kw)
                  (List.length (order_by le rows))) as [H|H]; [exact H|].
      rewrite skipn_all2 in Hm by lia. destruct Hm.
    + intros r Hr. apply in_map_iff in Hr. destruct Hr as [x [<- Hx]].
      simpl. apply Rleb_true_iff.
      exact (sorted_app_le _ _ _ Hs x m Hx Hm).
Qed.

Lemma select_primary_complete (now : timestamptz) (agent : string)
    (q : vector) (kw : Client.retrieve_options) (ms : list memory)
    (m : memory) :
  (List.length ms <= Client.kw_limit kw)%nat ->
  In m ms -> Laws.retrievable now agent kw m ->
  In (Client.mkRetrieved m (similarity_to q m) (Client.retention_of now m))
     (select_primary now agent q kw ms).
Proof.
  intros Hlen Hin Hq. unfold Client.select_primary.
  apply (in_map (fun x => Client.mkRetrieved x (similarity_to q x)
                            (Client.retention_of now x))).
  rewrite firstn_all2.
  - apply order_by_in, filter_In.
    split; [exact Hin | apply retrievable_iff; exact Hq].
  - rewrite <- (Permutation_length (order_by_perm _ _)).
    eapply Nat.le_trans; [apply filter_length_le | exact Hlen].
Qed.

Lemma select_primary_nothing (now : timestamptz) (agent : string)
    (q : vector) (kw : Client.retrieve_options) (ms : list memory) :
  Client.kw_limit kw = O
  \/ (forall m, In m ms -> ~ Laws.retrievable now agent kw m) ->
  select_primary now agent q kw ms = [].
Proof.
  intros [H|H]; unfold Client.select_primary.
  - rewrite H. reflexivity.
  - replace (filter _ ms) with (@nil memory);
      [simpl; rewrite firstn_nil; reflexivity|].
    symmetry. induction ms as [|m ms IH]; simpl; [reflexivity|].
    match goal with
    | |- (if ?c then _ else _) = _ => destruct c eqn:Hc
    end.
    + exfalso. apply (H m (or_introl eq_refl)).
      apply retrievable_iff. exact Hc.
    + apply IH. intros x Hx. apply H. right. exact Hx.
Qed.

(** X13. There is no similarity threshold in the search: a memory of the
    agent that is not deleted, retains more than [min_retention] and
    passes the type filter is returned, unless [limit] memories are
    returned that all rank at least as high by similarity times
    retention. *)
Theorem retrieve_memories_top_ranked :
  forall (now : timestamptz) (agent query : string)
         (kw : Client.retrieve_options) (db db' : database)
         (res : Client.retrieval) (m : memory),
    retrieve_memories now agent query kw db = Done (res, db') ->
    In m (memories db) -> Laws.retrievable now agent kw m ->
    (exists r, In r (Client.result_memories res) /\ Client.row r = m)
    \/ (List.length (Client.result_memories res) = Client.kw_limit kw
        /\ forall r, In r (Client.result_memories res) ->
             similarity_to (get_embedding query) m
             * Server.calculate_retention now (stability m) (importance m)
                 (last_accessed m)
             <= Client.similarity r * Client.retention r).
Proof.
  intros now agent query kw db db' res m H Hin Hq.
  destruct (retrieve_memories_done _ _ _ _ _ _ _ _ _ H)
    as (ms1 & _ & Hf & _).
  rewrite Hf. apply select_primary_top; assumption.
Qed.

(** X14. The shape of a result: at most [limit] memories and at most
    [limit] associations, with the two counts as reported; every
    association is a memory outside the primary results that a stored
    link reaches from one of them; without primary results, or with
    [include_associations] off, there are no associations. *)
Theorem retrieve_memories_shape :
  forall (now : timestamptz) (agent query : string)
         (kw : Client.retrieve_options) (db db' : database)
         (res : Client.retrieval),
    retrieve_memories now agent query kw db = Done (res, db') ->
    let primary_ids :=
      map (fun r => id (Client.row r)) (Client.result_memories res) in
    (List.length (Client.result_memories res) <= Client.kw_limit kw)%nat
    /\ (List.length (Client.result_associations res)
        <= Client.kw_limit kw)%nat
    /\ Client.retrieved_count res = List.length (Client.result_memories res)
    /\ Client.association_count res
       = List.length (Client.result_associations res)
    /\ Client.query res = query
    /\ (forall a, In a (Client.result_associations res) ->
          ~ In (id (Client.assoc_row a)) primary_ids
          /\ exists l, In l (memory_links db)
                       /\ target_id l = id (Client.assoc_row a)
                       /\ In (source_id l) primary_ids)
    /\ (Client.result_memories res = []
        \/ Client.kw_include_associations kw = false ->
        Client.result_associations res = []).
Proof.
  intros now agent query kw db db' res H primary_ids.
  destruct (retrieve_memories_done _ _ _ _ _ _ _ _ _ H)
    as (ms1 & _ & Hf & Ha & _ & _).
  assert (Hc : Client.retrieved_count res
               = List.length (Client.result_memories res)
               /\ Client.association_count res
                  = List.length (Client.result_associations res)
               /\ Client.query res = query).
  { unfold Client.retrieve_memories in H. cbv zeta in H.
    destruct (Client.reinforce_all now _ (memories db)) as [x|];
      simpl in H; [|discriminate].
    match type of H with
    | bind ?c _ = _ => destruct c
    end; simpl in H; [|discriminate].
    injection H as <- _. simpl. auto. }
  destruct Hc as (Hc1 & Hc2 & Hc3).
  assert (Hnil : Client.result_memories res = [] -> primary_ids = [])
    by (intros E; unfold primary_ids; rewrite E; reflexivity).
  rewrite <- Hf in Ha. fold primary_ids in Ha. clearbody primary_ids.
  split; [rewrite Hf; apply select_primary_length|].
  split; [|split; [exact Hc1|]].
  { rewrite Ha. destruct primary_ids as [|i ids]; [apply Nat.le_0_l|].
    destruct (Client.kw_include_associations kw); [|apply Nat.le_0_l].
    unfold Client.select_associations. rewrite length_map.
    apply firstn_le_length. }
  split; [exact Hc2|]. split; [exact Hc3|]. split.
  - intros a Hin. rewrite Ha in Hin.
    destruct primary_ids as [|i ids] eqn:Hids; [destruct Hin|].
    rewrite <- Hids in *. clear Hids.
    destruct (Client.kw_include_associations kw); [|destruct Hin].
    apply select_associations_in in Hin. simpl in Hin.
    destruct Hin as (_ & Hnot & _ & _ & _ & (l & Hl & Ht & Hs & _) & _).
    split; [exact Hnot|]. exists l. auto.
  - intros [E|E]; rewrite Ha.
    + rewrite (Hnil E). reflexivity.
    + rewrite E. destruct primary_ids; reflexivity.
Qed.

(** X15. A retrieval for which no memory qualifies, or with [limit] 0,
    returns empty lists and leaves the database as it was: nothing is
    reinforced. *)
Theorem retrieve_memories_nothing :
  forall (now : timestamptz) (agent query : string)
         (kw : Client.retrieve_options) (db : database),
    Client.kw_limit kw = O
    \/ (forall m, In m (memories db) -> ~ Laws.retrievable now agent kw m) ->
    retrieve_memories now agent query kw db
    = Done (Client.mkRetrieval [] [] query 0 0, db).
Proof.
  intros now agent query kw db H. unfold Client.retrieve_memories.
  cbv zeta. rewrite (select_primary_nothing _ _ _ _ _ H). simpl.
  destruct db. reflexivity.
Qed.

(** X16. On a table the schema admits, a retrieval reinforces exactly the
    rows it returns, primary results and associations alike, each once;
    every other row and every link is left as it was. *)
Theorem retrieve_memories_reinforces_returned :
  forall (now : timestamptz) (agent query : string)
         (kw : Client.retrieve_options) (db : database),
    Spec.primary_key (memories db) ->
    (forall m, In m (memories db) -> Spec.row_ok now m) ->
    exists res db',
      retrieve_memories now agent query kw db = Done (res, db')
      /\ memories db'
         = map (fun m =>
                  if Client.any_id (id m)
                       (map (fun r => id (Client.row r))
                            (Client.result_memories res)
                        ++ map (fun a => id (Client.assoc_row a))
                             (Client.result_associations res))
                  then Spec.reinforced now m else m)
               (memories db)
      /\ memory_links db' = memory_links db.
Proof.
  intros now agent query kw db Hk Hok.
  destruct (retrieve_memories_returns cosine_distance get_embedding now agent
              query kw db Hk Hok) as (res & db' & H).
  exists res, db'. split; [exact H|].
  destruct (retrieve_memories_done _ _ _ _ _ _ _ _ _ H)
    as (ms1 & H1 & Hf & Ha & H2 & Hl).
  split; [|exact Hl].
  rewrite <- Hf in H1, Ha.
  set (ids := map (fun r => id (Client.row r)) (Client.result_memories res))
    in *.
  set (aids := map (fun a => id (Client.assoc_row a))
                   (Client.result_associations res)) in *.
  assert (Hnd : NoDup ids).
  { unfold ids. rewrite Hf. apply select_primary_ids. exact Hk. }
  rewrite (reinforce_all_map now ids (memories db) Hk Hnd) in H1
    by (intros m Hm _; apply Hok; exact Hm).
  injection H1 as H1.
  assert (Hdisj : forall i, In i aids -> ~ In i ids).
  { intros i Hi. unfold aids in Hi. apply in_map_iff in Hi.
    destruct Hi as [a [<- Hin]]. rewrite Ha in Hin.
    apply guarded_in, select_associations_in in Hin. apply Hin. }
  assert (Hsorted : StronglySorted N.lt aids).
  { unfold aids. apply StronglySorted_map. rewrite Ha.
    apply guarded_sorted, select_associations_sorted. }
  rewrite reinforce_all_map in H2.
  - injection H2 as <-. rewrite <- H1, map_map. apply map_ext_in.
    intros m Hm. rewrite any_id_app.
    destruct (Client.any_id (id m) ids) eqn:E1; simpl.
    + replace (Client.any_id (id m) aids) with false; [reflexivity|].
      symmetry. apply any_id_false_iff. intros Hi.
      apply (Hdisj _ Hi). apply any_id_iff. exact E1.
    + reflexivity.
  - unfold Spec.primary_key. rewrite <- H1, map_map.
    erewrite map_ext; [exact Hk|].
    intros m. destruct (Client.any_id (id m) ids); reflexivity.
  - apply ascending_nodup. exact Hsorted.
  - intros m' Hm' Hin. rewrite <- H1 in Hm'. apply in_map_iff in Hm'.
    destruct Hm' as [m [Em Hm]].
    destruct (Client.any_id (id m) ids) eqn:Hany.
    + subst m'. simpl in Hin. apply any_id_iff in Hany.
      exfalso. exact (Hdisj _ Hin Hany).
    + subst m'. apply Hok. exact Hm.
Qed.

(** X17. The association query looks at links only: a memory that is not
    deleted and that a link stronger than 0.3 reaches from a primary
    result comes back as an association whatever its agent, its type and
    its retention (here with [limit] no smaller than the table). *)
Theorem retrieve_memories_association_complete :
  forall (now : timestamptz) (agent query : string)
         (kw : Client.retrieve_options) (db db' : database)
         (res : Client.retrieval) (r : Client.retrieved) (l : link)
         (m : memory),
    retrieve_memories now agent query kw db = Done (res, db') ->
    Spec.primary_key (memories db) ->
    (List.length (memories db) <= Client.kw_limit kw)%nat ->
    Client.kw_include_associations kw = true ->
    In r (Client.result_memories res) ->
    In l (memory_links db) -> source_id l = id (Client.row r) ->
    In m (memories db) -> target_id l = id m ->
    is_deleted m = false -> 0.3 < strength l ->
    ~ In (id m) (map (fun r => id (Client.row r))
                     (Client.result_memories res)) ->
    exists a, In a (Client.result_associations res)
              /\ Client.assoc_row a = m
              /\ strength l <= Client.link_strength a.
Proof.
  intros now agent query kw db db' res r l m H Hk Hlen Hinc Hr Hl Hsrc Hm
         Htgt Hdel Hstr Hnot.
  destruct (retrieve_memories_done _ _ _ _ _ _ _ _ _ H)
    as (ms1 & H1 & Hf & Ha & _ & _).
  rewrite <- Hf in H1, Ha.
  set (ids := map (fun r => id (Client.row r)) (Client.result_memories res))
    in *.
  assert (Hsrc' : In (source_id l) ids).
  { rewrite Hsrc. unfold ids.
    apply (in_map (fun r => id (Client.row r))). exact Hr. }
  assert (Hm1 : In m ms1) by exact (reinforce_all_keeps _ _ _ _ _ H1 Hm Hnot).
  assert (Hids1 : map id ms1 = map id (memories db))
    by exact (reinforce_all_ids _ _ _ _ H1).
  assert (Hk1 : Spec.primary_key ms1)
    by (unfold Spec.primary_key; rewrite Hids1; exact Hk).
  assert (Hsel : Client.result_associations res
                 = Client.select_associations now ids (Client.kw_limit kw)
                     (mkDatabase ms1 (memory_links db))).
  { rewrite Ha, Hinc. clearbody ids. destruct ids; [destruct Hsrc'|].
    reflexivity. }
  rewrite Hsel. unfold Client.select_associations.
  set (db1 := mkDatabase ms1 (memory_links db)).
  set (rows := filter _ (Client.join_links (memories db1) (memory_links db1))).
  assert (Hrow : In (m, l) rows).
  { unfold rows. apply association_rows_in. simpl.
    repeat split; auto. }
  destruct (distinct_on_id_sorted (order_by Client.assoc_le rows) None)
    as [Hsorted Hd].
  { apply order_by_sorted; [exact assoc_le_total | exact assoc_le_trans]. }
  { intros p x E. discriminate. }
  destruct (distinct_on_id_complete (order_by Client.assoc_le rows) None
              (m, l)) as [(k & Hkin & Hkid)|E];
    [apply order_by_in; exact Hrow | | discriminate].
  simpl in Hkid.
  assert (Hin1 : forall x, In x (Client.distinct_on_id None
                                   (order_by Client.assoc_le rows)) ->
                           In (fst x) ms1).
  { intros [x lx] Hx. apply Hd in Hx. destruct Hx as [Hx _].
    apply order_by_in in Hx. unfold rows in Hx.
    apply association_rows_in in Hx. simpl. apply Hx. }
  assert (Hshort : (List.length (Client.distinct_on_id None
                                   (order_by Client.assoc_le rows))
                    <= Client.kw_limit kw)%nat).
  { eapply Nat.le_trans; [|exact Hlen].
    rewrite <- (length_map id (memories db)), <- Hids1.
    rewrite <- (length_map (fun x : memory * link => id (fst x))).
    apply NoDup_incl_length.
    - apply ascending_nodup, StronglySorted_map. exact Hsorted.
    - intros i Hi. apply in_map_iff in Hi. destruct Hi as [x [<- Hx]].
      apply in_map, Hin1, Hx. }
  rewrite firstn_all2 by exact Hshort.
  exists (Client.mkAssociated (fst k) (strength (snd k))
            (Client.retention_of now (fst k))).
  split; [apply (in_map (fun x => Client.mkAssociated (fst x)
                                    (strength (snd x))
                                    (Client.retention_of now (fst x))));
          exact Hkin|].
  simpl. split.
  - apply (same_identifier ms1); auto.
  - destruct (Hd k Hkin) as (_ & _ & Hmax).
    apply (Hmax (m, l)); [apply order_by_in; exact Hrow | simpl; congruence].
Qed.

End RetrievalFacts.

(** ** Writing, then reading *)

Section RoundTrip.
Variable cosine_distance : vector -> vector -> R.
Variable get_embedding : string -> vector.
Variable score_importance : string -> R.
Variable extract_topics : string -> list string.

Lemma store_memory_created_row (now : timestamptz) (agent text : string)
    (kw : Client.store_options) (db db' : database) (i : uuid)
    (t : timestamptz) :
  Client.store_memory cosine_distance get_embedding score_importance
    extract_topics now agent text kw db
  = Done (Client.created i t, db') ->
  exists m,
    memories db' = memories db ++ [m]
    /\ id m = i /\ agent_id m = agent /\ content m = text
    /\ embedding m = get_embedding text
    /\ mtype m = Client.kw_memory_type kw
    /\ importance m = Laws.stored_importance score_importance kw text
    /\ stability m = 0.3 /\ last_accessed m = now
    /\ is_deleted m = false.
Proof.
  unfold Client.store_memory. cbv zeta.
  destruct (if Client.kw_skip_dedup kw then None else _) as [s|].
  - destruct (Server.reinforce_memory now (id s) (memories db));
      simpl; intros H; discriminate.
  - unfold Client.insert_memory.
    destruct (negb (between _ 0 1)); simpl; intros H; [discriminate|].
    injection H as <- <- <-. eexists. simpl.
    repeat (split; [reflexivity|]). reflexivity.
Qed.

(** X18. A memory that was just created is found again by any query of
    its agent, whatever the query says: if [limit] exceeds the number of
    rows stored before, the type filter admits its type and it still
    retains more than [min_retention], the new row is among the results,
    with the similarity of its content to the query. *)
Theorem store_then_retrieve :
  forall (now now2 : timestamptz) (agent text query : string)
         (kw : Client.store_options) (kwr : Client.retrieve_options)
         (db db1 db2 : database) (i : uuid) (t : timestamptz)
         (res : Client.retrieval),
    Client.store_memory cosine_distance get_embedding score_importance
      extract_topics now agent text kw db
    = Done (Client.created i t, db1) ->
    Client.retrieve_memories cosine_distance get_embedding now2 agent query
      kwr db1
    = Done (res, db2) ->
    (List.length (memories db) < Client.kw_limit kwr)%nat ->
    Client.kw_min_retention kwr
    < Server.calculate_retention now2 0.3
        (Laws.stored_importance score_importance kw text) now ->
    (forall m, mtype m = Client.kw_memory_type kw ->
               Client.type_filter (Client.kw_memory_types kwr) m = true) ->
    exists r,
      In r (Client.result_memories res)
      /\ id (Client.row r) = i /\ content (Client.row r) = text
      /\ Client.similarity r
         = 1 - cosine_distance (get_embedding text) (get_embedding query)
      /\ Client.retention r
         = Server.calculate_retention now2 0.3
             (Laws.stored_importance score_importance kw text) now.
Proof.
  intros now now2 agent text query kw kwr db db1 db2 i t res Hst Hre Hlim
         Hret Hty.
  destruct (store_memory_created_row _ _ _ _ _ _ _ _ Hst)
    as (m & Hms & Hid & Hag & Hco & Hem & Hmt & Himp & Hstab & Hla & Hdel).
  destruct (retrieve_memories_done _ _ _ _ _ _ _ _ _ Hre)
    as (ms1 & _ & Hf & _).
  exists (Client.mkRetrieved m
            (Client.similarity_to cosine_distance (get_embedding query) m)
            (Client.retention_of now2 m)).
  split.
  - rewrite Hf. apply select_primary_complete.
    + rewrite Hms, length_app. simpl. lia.
    + rewrite Hms. apply in_or_app. right. left. reflexivity.
    + unfold Laws.retrievable. rewrite Hstab, Himp, Hla.
      repeat split; auto.
  - simpl. unfold Client.similarity_to, Client.retention_of.
    rewrite Hem, Hstab, Himp, Hla. auto.
Qed.

End RoundTrip.

(** *** The new properties on the sample data *)

(** X11, witness: the preference of scenario 1 was soft-deleted, so storing
    its near-duplicate creates a new row. *)
Lemma forgotten_store :
  exists m,
    Client.store_memory Fixtures.cosine_distance Cases.wide_embedding
      Fixtures.score_importance Fixtures.extract_topics
      5 "a" Fixtures.dark_mode_again Client.store_defaults Cases.forgotten
    = Done (Client.created (id m) 5,
            mkDatabase (memories Cases.forgotten ++ [m]) [])
    /\ ~ In (id m) (map id (memories Cases.forgotten))
    /\ agent_id m = "a"%string /\ content m = Fixtures.dark_mode_again
    /\ embedding m = Cases.wide_embedding Fixtures.dark_mode_again
    /\ mtype m = episodic
    /\ importance m = 0.5
    /\ stability m = 0.3 /\ access_count m = 0%Z
    /\ created_at m = 5 /\ last_accessed m = 5
    /\ is_summary m = false /\ summarizes m = [] /\ is_deleted m = false.
Proof.
  apply (store_memory_insert_path Fixtures.cosine_distance
           Cases.wide_embedding Fixtures.score_importance
           Fixtures.extract_topics 5 "a"%string Fixtures.dark_mode_again
           Client.store_defaults Cases.forgotten).
  - unfold Laws.fits_columns. split; [simpl; lia|].
    split; [apply repeat_length|].
    split; intros c Hc; discriminate Hc.
  - right. intros m [<-|[]]. right. left. reflexivity.
  - unfold Laws.stored_importance. simpl. lra.
Defined.

(** X12, witness: a near-duplicate stored with the defaults, and with the
    type semantic and the importance 1.5, gives the same outcome. *)
Lemma duplicate_with_other_fields :
  Fixtures.store_memory 0 "a" Fixtures.dark_mode_again Client.store_defaults
    Fixtures.after_first_store
  = Fixtures.store_memory 0 "a" Fixtures.dark_mode_again Cases.overrated
      Fixtures.after_first_store.
Proof.
  apply (store_memory_duplicate_ignores_fields Fixtures.cosine_distance
           Fixtures.get_embedding Fixtures.score_importance
           Fixtures.score_importance Fixtures.extract_topics
           Fixtures.extract_topics 0 "a"%string Fixtures.dark_mode_again
           Client.store_defaults Cases.overrated Fixtures.after_first_store
           (Fixtures.row 1%N Fixtures.dark_mode ["ui"%string] 0)).
  - reflexivity.
  - reflexivity.
  - reflexivity.
  - left. reflexivity.
  - unfold Spec.dedup_candidate, Client.similarity_to.
    unfold Fixtures.get_embedding. cbn -[Fixtures.cosine_distance].
    rewrite cosine_unit. repeat split; lra.
Defined.

Lemma fresh_is_retrievable :
  Laws.retrievable Fixtures.much_later "a" Client.retrieve_defaults
    (Fixtures.row 1%N "fresh" [] Fixtures.much_later).
Proof.
  unfold Laws.retrievable. simpl. rewrite retention_fresh.
  repeat split; lra.
Qed.

(** X13, witness: the fresh memory of the sample graph. *)
Lemma graph_top_ranked :
  exists res db',
    Fixtures.retrieve_memories Fixtures.much_later "a" "q"
      Client.retrieve_defaults Fixtures.graph
    = Done (res, db')
    /\ ((exists r, In r (Client.result_memories res)
                   /\ Client.row r
                      = Fixtures.row 1%N "fresh" [] Fixtures.much_later)
        \/ (List.length (Client.result_memories res) = 5%nat
            /\ forall r, In r (Client.result_memories res) ->
                 Client.similarity_to Fixtures.cosine_distance
                   (Fixtures.get_embedding "q")
                   (Fixtures.row 1%N "fresh" [] Fixtures.much_later)
                 * Server.calculate_retention Fixtures.much_later 0.3 0.5
                     Fixtures.much_later
                 <= Client.similarity r * Client.retention r)).
Proof.
  destruct graph_retrieval as (res & db' & Hrun & _).
  exists res, db'. split; [exact Hrun|].
  apply (retrieve_memories_top_ranked Fixtures.cosine_distance
           Fixtures.get_embedding Fixtures.much_later "a"%string "q"%string
           Client.retrieve_defaults Fixtures.graph db' res
           (Fixtures.row 1%N "fresh" [] Fixtures.much_later) Hrun).
  - left. reflexivity.
  - exact fresh_is_retrievable.
Defined.

(** X14, witness: the retrieval of the sample graph with the default limit
    5. *)
Lemma graph_shape :
  exists res db',
    Fixtures.retrieve_memories Fixtures.much_later "a" "q"
      Client.retrieve_defaults Fixtures.graph
    = Done (res, db')
    /\ (List.length (Client.result_memories res) <= 5)%nat
    /\ (List.length (Client.result_associations res) <= 5)%nat.
Proof.
  destruct graph_retrieval as (res & db' & Hrun & _).
  exists res, db'. split; [exact Hrun|].
  destruct (retrieve_memories_shape Fixtures.cosine_distance
              Fixtures.get_embedding Fixtures.much_later "a"%string
              "q"%string Client.retrieve_defaults Fixtures.graph db' res Hrun)
    as (H1 & H2 & _).
  split; [exact H1 | exact H2].
Defined.

(** X15, witness: a retrieval with limit 0 on the sample graph. *)
Lemma graph_no_rows :
  Fixtures.retrieve_memories Fixtures.much_later "a" "q" Cases.no_rows
    Fixtures.graph
  = Done (Client.mkRetrieval [] [] "q" 0 0, Fixtures.graph).
Proof.
  apply (retrieve_memories_nothing Fixtures.cosine_distance
           Fixtures.get_embedding Fixtures.much_later "a"%string "q"%string
           Cases.no_rows Fixtures.graph).
  left. reflexivity.
Defined.

Lemma two_rows_ok (m : memory) : In m Fixtures.two_rows -> Spec.row_ok 0 m.
Proof.
  intros [<-|[<-|[]]]; unfold Spec.row_ok, integer_max; simpl;
    repeat split; try lra; lia.
Qed.

(** X16, witness: a retrieval over the two sample rows at the time they were
    stored. *)
Lemma pair_reinforced :
  exists res db',
    Fixtures.retrieve_memories 0 "a" "q" Client.retrieve_defaults
      Fixtures.pair
    = Done (res, db')
    /\ memories db'
       = map (fun m =>
                if Client.any_id (id m)
                     (map (fun r => id (Client.row r))
                          (Client.result_memories res)
                      ++ map (fun a => id (Client.assoc_row a))
                           (Client.result_associations res))
                then Spec.reinforced 0 m else m)
             (memories Fixtures.pair)
    /\ memory_links db' = memory_links Fixtures.pair.
Proof.
  apply (retrieve_memories_reinforces_returned Fixtures.cosine_distance
           Fixtures.get_embedding 0 "a"%string "q"%string
           Client.retrieve_defaults Fixtures.pair).
  - exact two_rows_key.
  - exact two_rows_ok.
Defined.

Lemma graph_key : Spec.primary_key (memories Fixtures.graph).
Proof.
  unfold Spec.primary_key. simpl.
  repeat constructor; simpl; intros H;
    repeat (destruct H as [H|H]; [discriminate H|]); exact H.
Qed.

(** X17, witness: the memory 3 of the sample graph, linked from the fresh
    memory at strength 0.9, comes back although its retention is below 0.01.
    *)
Lemma graph_association :
  exists res db' a,
    Fixtures.retrieve_memories Fixtures.much_later "a" "q"
      Client.retrieve_defaults Fixtures.graph
    = Done (res, db')
    /\ In a (Client.result_associations res)
    /\ Client.assoc_row a = Fixtures.row 3%N "older" [] 0
    /\ 0.9 <= Client.link_strength a.
Proof.
  destruct graph_retrieval as (res & db' & Hrun & Hids & _).
  destruct (Client.result_memories res) as [|r [|r' rest]] eqn:Hres;
    try discriminate Hids.
  injection Hids as Hid.
  destruct (retrieve_memories_association_complete Fixtures.cosine_distance
              Fixtures.get_embedding Fixtures.much_later "a"%string
              "q"%string Client.retrieve_defaults Fixtures.graph db' res r
              (mkLink 1%N 3%N 0.9 "association" 0 0)
              (Fixtures.row 3%N "older" [] 0) Hrun graph_key)
    as (a & Ha & Hrow & Hs).
  - simpl. lia.
  - reflexivity.
  - rewrite Hres. left. reflexivity.
  - right. left. reflexivity.
  - simpl. symmetry. exact Hid.
  - right. right. left. reflexivity.
  - reflexivity.
  - reflexivity.
  - simpl. lra.
  - rewrite Hres. simpl. rewrite Hid. intros [H|[]]. discriminate H.
  - exists res, db', a. split; [exact Hrun|]. split; [exact Ha|].
    split; [exact Hrow | exact Hs].
Defined.

(** X18, witness: the preference of scenario 1 is found by a query that says
    something else. *)
Lemma first_store_found_again :
  exists res db2 r,
    Fixtures.retrieve_memories 0 "a" "anything" Client.retrieve_defaults
      Fixtures.after_first_store
    = Done (res, db2)
    /\ In r (Client.result_memories res)
    /\ id (Client.row r) = 1%N /\ content (Client.row r) = Fixtures.dark_mode.
Proof.
  destruct (retrieve_memories_returns Fixtures.cosine_distance
              Fixtures.get_embedding 0 "a"%string "anything"%string
              Client.retrieve_defaults Fixtures.after_first_store)
    as (res & db2 & Hrun).
  { repeat constructor. intros []. }
  { intros m [<-|[]]. unfold Spec.row_ok, integer_max. simpl.
    repeat split; try lra; lia. }
  destruct (store_then_retrieve Fixtures.cosine_distance
              Fixtures.get_embedding Fixtures.score_importance
              Fixtures.extract_topics 0 0 "a"%string Fixtures.dark_mode
              "anything"%string Fixtures.dark_mode_options
              Client.retrieve_defaults Fixtures.empty
              Fixtures.after_first_store db2 1%N 0 res first_store Hrun)
    as (r & Hr & Hid & Hco & _).
  - simpl. lia.
  - rewrite retention_fresh. simpl. lra.
  - intros m _. reflexivity.
  - exists res, db2, r. auto.
Defined.

(** ** Consolidation: what a run can and cannot change *)

Lemma with_flags_same (m : memory) :
  Laws.with_flags (is_summary m) (is_deleted m) m = m.
Proof. destruct m; reflexivity. Qed.

Lemma flags_raised_refl (m : memory) : Laws.flags_raised m m.
Proof.
  unfold Laws.flags_raised. rewrite with_flags_same. auto.
Qed.

Lemma flags_raised_trans (a b c : memory) :
  Laws.flags_raised a b -> Laws.flags_raised b c -> Laws.flags_raised a c.
Proof.
  unfold Laws.flags_raised. intros (E1 & S1 & D1) (E2 & S2 & D2).
  split; [|split; auto].
  rewrite E2 at 1. rewrite E1. reflexivity.
Qed.

Lemma mark_summarized_row (ids : list uuid) (m : memory) :
  Laws.flags_raised m
    (if Client.any_id (id m) ids
     then mkMemory (id m) (agent_id m) (content m) (embedding m)
            (mtype m) (topics m) (created_at m) (event_date m)
            (expires_at m) (importance m) (stability m)
            (last_accessed m) (access_count m) (source_channel m)
            (source_session m) true (summarizes m) (is_deleted m)
     else m).
Proof.
  destruct (Client.any_id (id m) ids); [|apply flags_raised_refl].
  unfold Laws.flags_raised. simpl. auto.
Qed.

Lemma soft_delete_dormant_row (now : timestamptz) (agent : string)
    (m : memory) :
  Laws.flags_raised m
    (if Client.dormant now agent m
     then mkMemory (id m) (agent_id m) (content m) (embedding m)
            (mtype m) (topics m) (created_at m) (event_date m)
            (expires_at m) (importance m) (stability m)
            (last_accessed m) (access_count m) (source_channel m)
            (source_session m) (is_summary m) (summarizes m) true
     else m).
Proof.
  destruct (Client.dormant now agent m); [|apply flags_raised_refl].
  unfold Laws.flags_raised. simpl. auto.
Qed.

Lemma sweep_after_mark (now : timestamptz) (agent : string)
    (ids : list uuid) (ms : list memory) :
  Forall2 Laws.flags_raised ms
    (Client.soft_delete_dormant now agent (Client.mark_summarized ids ms)).
Proof.
  unfold Client.soft_delete_dormant, Client.mark_summarized.
  induction ms as [|m ms IH]; simpl; constructor; [|exact IH].
  eapply flags_raised_trans;
    [apply (mark_summarized_row ids) | apply soft_delete_dormant_row].
Qed.

(** What the decayed scan selects. *)
Lemma select_fading_row (now : timestamptz) (agent : string)
    (ms : list memory) (f : Client.fading_memory) :
  In f (Client.select_fading now agent ms) ->
  exists m, In m ms /\ id m = Client.f_id f /\ agent_id m = agent
            /\ is_deleted m = false /\ is_summary m = false
            /\ Client.f_topics f = topics m.
Proof.
  unfold Client.select_fading. intros H. apply in_map_iff in H.
  destruct H as [m [<- H]]. apply filter_In in H. destruct H as [Hin Hc].
  rewrite !andb_true_iff, String.eqb_eq, !negb_true_iff in Hc.
  exists m. simpl. tauto.
Qed.

(** Filing one memory under one topic. *)
Lemma group_of_append (t u : string) (mem : Client.fading_memory)
    (groups : Client.topic_groups) :
  Laws.group_of u (Client.group_append t mem groups)
  = Laws.group_of u groups ++ (if String.eqb u t then [mem] else []).
Proof.
  unfold Laws.group_of.
  induction groups as [|[k mems] rest IH]; simpl.
  - rewrite (String.eqb_sym t u). destruct (String.eqb u t); reflexivity.
  - destruct (String.eqb k t) eqn:Ekt; simpl.
    + apply String.eqb_eq in Ekt. subst k.
      rewrite (String.eqb_sym t u).
      destruct (String.eqb u t); [reflexivity | rewrite app_nil_r; reflexivity].
    + destruct (String.eqb k u) eqn:Eku; [|exact IH].
      apply String.eqb_eq in Eku. subst k.
      rewrite Ekt, app_nil_r. reflexivity.
Qed.

Lemma group_of_topics (mem : Client.fading_memory) (u : string)
    (ts : list string) :
  forall groups : Client.topic_groups,
    Laws.group_of u
      (fold_left (fun g t => Client.group_append t mem g) ts groups)
    = Laws.group_of u groups ++ repeat mem (Spec.occurrences u ts).
Proof.
  unfold Spec.occurrences.
  induction ts as [|t ts IH]; intros groups; simpl.
  - rewrite app_nil_r. reflexivity.
  - rewrite IH, group_of_append, <- app_assoc. f_equal.
    destruct (String.eqb u t); reflexivity.
Qed.

Lemma group_of_fading (u : string) (fading : list Client.fading_memory) :
  forall groups : Client.topic_groups,
    Laws.group_of u
      (fold_left
         (fun g mem =>
            fold_left (fun g t => Client.group_append t mem g)
                      (Client.f_topics mem) g)
         fading groups)
    = Laws.group_of u groups ++ Laws.filed_under u fading.
Proof.
  unfold Laws.filed_under.
  induction fading as [|f fading IH]; intros groups; simpl.
  - rewrite app_nil_r. reflexivity.
  - rewrite IH, group_of_topics, <- app_assoc. reflexivity.
Qed.

Lemma group_of_key (groups : Client.topic_groups)
    (g : string * list Client.fading_memory) :
  NoDup (map fst groups) -> In g groups ->
  Laws.group_of (fst g) groups = snd g.
Proof.
  unfold Laws.group_of.
  induction groups as [|x rest IH]; simpl; intros Hnd Hin; [destruct Hin|].
  inversion Hnd as [|? ? Hnot Hrest]; subst.
  destruct Hin as [->|Hin].
  - rewrite String.eqb_refl. reflexivity.
  - destruct (String.eqb (fst x) (fst g)) eqn:E.
    + apply String.eqb_eq in E. exfalso. apply Hnot. rewrite E.
      apply in_map. exact Hin.
    + apply IH; assumption.
Qed.

(** The dictionary [topic_groups] after the scan: under every key, the
    fading memories that carry it, with multiplicity. *)
Lemma group_by_topic_contents (fading : list Client.fading_memory)
    (g : string * list Client.fading_memory) :
  In g (Client.group_by_topic fading) ->
  snd g = Laws.filed_under (fst g) fading.
Proof.
  intros Hin. rewrite <- (group_of_key (Client.group_by_topic fading) g).
  - unfold Client.group_by_topic. rewrite group_of_fading. reflexivity.
  - rewrite (proj1 (group_by_topic_keys fading)). apply first_seen_nodup.
  - exact Hin.
Qed.

Lemma filed_under_none (t : string) (fading : list Client.fading_memory) :
  (forall f, In f fading -> Client.f_topics f = []) ->
  Laws.filed_under t fading = [].
Proof.
  unfold Laws.filed_under. induction fading as [|f fading IH]; intros H;
    simpl; [reflexivity|].
  rewrite (H f (or_introl eq_refl)). simpl.
  apply IH. intros x Hx. apply H. right. exact Hx.
Qed.

Lemma select_promotion_marked (agent : string) (ids : list uuid)
    (ms : list memory) :
  Client.select_promotion agent (Client.mark_summarized ids ms)
  = Client.select_promotion agent ms.
Proof.
  unfold Client.select_promotion, Client.mark_summarized.
  induction ms as [|m ms IH]; simpl; [reflexivity|].
  destruct (Client.any_id (id m) ids); simpl;
    (match goal with
     | |- map _ (if ?c then _ else _) = _ => destruct c
     end; simpl; rewrite IH; reflexivity).
Qed.

Lemma select_promotion_app (agent : string) (ms1 ms2 : list memory) :
  Client.select_promotion agent (ms1 ++ ms2)
  = Client.select_promotion agent ms1 ++ Client.select_promotion agent ms2.
Proof.
  unfold Client.select_promotion. rewrite filter_app, map_app. reflexivity.
Qed.

Lemma select_promotion_unread (agent : string) (ms : list memory) :
  (forall m, In m ms -> access_count m = 0%Z) ->
  Client.select_promotion agent ms = [].
Proof.
  unfold Client.select_promotion.
  induction ms as [|m ms IH]; intros H; simpl; [reflexivity|].
  rewrite (H m (or_introl eq_refl)). simpl. rewrite !andb_false_r.
  apply IH. intros x Hx. apply H. right. exact Hx.
Qed.

Section ConsolidationFacts.
Variable cosine_distance : vector -> vector -> R.
Variable get_embedding : string -> vector.
Variable score_importance : string -> R.
Variable extract_topics : string -> list string.
Variable chat_summary : list Client.fading_memory -> string.

Local Abbreviation consolidate_memories :=
  (Client.consolidate_memories cosine_distance get_embedding
     score_importance extract_topics chat_summary).
Local Abbreviation compress_groups :=
  (Client.compress_groups cosine_distance get_embedding score_importance
     extract_topics chat_summary).
Local Abbreviation store_memory :=
  (Client.store_memory cosine_distance get_embedding score_importance
     extract_topics).

(** Every row that the loop of step 2 leaves comes from a row it found or
    from a row that was never accessed, up to the two flags. *)
Lemma compress_groups_rows (store_clock : nat -> timestamptz)
    (agent : string) (groups : Client.topic_groups) :
  forall (db db' : database) (done out : list Client.compressed_entry),
    compress_groups store_clock agent groups db done = Done (out, db') ->
    forall m', In m' (memories db') ->
      exists m, (In m (memories db) \/ access_count m = 0%Z)
                /\ Laws.flags_raised m m'.
Proof.
  induction groups as [|[topic mems] rest IH]; intros db db' done out H m' Hm'.
  - simpl in H. injection H as _ <-. exists m'.
    split; [left; exact Hm' | apply flags_raised_refl].
  - cbn -[Nat.leb Client.store_memory] in H.
    destruct (3 <=? List.length mems)%nat.
    + destruct (store_memory _ agent _ (Client.summary_options topic) db)
        as [[r db1]|] eqn:Hst; simpl in H; [|discriminate].
      destruct (IH _ _ _ _ H m' Hm') as (m1 & Hm1 & Hf1).
      destruct Hm1 as [Hm1|Hm1]; [|exists m1; split; [right|]; assumption].
      simpl in Hm1. unfold Client.mark_summarized in Hm1.
      apply in_map_iff in Hm1. destruct Hm1 as (m0 & E & Hm0).
      pose proof (mark_summarized_row (map Client.f_id mems) m0) as Hf0.
      rewrite E in Hf0.
      exists m0. split; [|exact (flags_raised_trans _ _ _ Hf0 Hf1)].
      destruct r as [i c x|i t].
      * exfalso. revert Hst. unfold Client.store_memory. cbv zeta. simpl.
        unfold Client.insert_memory.
        destruct (negb (between 0.7 0 1)); simpl; discriminate.
      * destruct (store_memory_created _ _ _ _ _ _ _ _ _ _ _ _ Hst)
          as (s & Hms & _ & _ & _ & _ & _ & _ & _ & _ & _ & _ & _ & Hac & _).
        rewrite Hms in Hm0. apply in_app_or in Hm0.
        destruct Hm0 as [Hm0|[<-|[]]]; [left; exact Hm0 | right; exact Hac].
    + exact (IH _ _ _ _ H m' Hm').
Qed.

(** X19. A consolidation run never raises, and of a stored row it can
    only raise the flags [is_summary] and [is_deleted]: content, topics,
    importance, stability, access data and all other columns stay, no
    flag is lowered, no row is removed; the new rows, one per entry of the
    compression report, come after the old ones; links are not touched
    and [links_created] is 0. *)
Theorem consolidate_memories_frame :
  forall (now : timestamptz) (store_clock : nat -> timestamptz)
         (agent : string) (threshold : nat) (db : database),
    exists rep db' kept added,
      consolidate_memories now store_clock agent threshold db
      = Done (rep, db')
      /\ memories db' = kept ++ added
      /\ Forall2 Laws.flags_raised (memories db) kept
      /\ List.length added = List.length (Client.compressed rep)
      /\ memory_links db' = memory_links db
      /\ Client.links_created rep = O.
Proof.
  intros now store_clock agent threshold db.
  destruct (consolidate_memories_run cosine_distance get_embedding
              score_importance extract_topics chat_summary now store_clock
              agent threshold db) as (es & ss & Hrun & _ & Hss).
  eexists. eexists.
  exists (Client.soft_delete_dormant now agent
            (Client.mark_summarized (flat_map Client.c_original_ids es)
               (memories db))),
    (Client.soft_delete_dormant now agent ss).
  split; [exact Hrun|]. simpl.
  split; [unfold Client.soft_delete_dormant; apply map_app|].
  split; [apply sweep_after_mark|].
  split; [|split; reflexivity].
  unfold Client.soft_delete_dormant. rewrite length_map.
  symmetry. exact (Forall2_length Hss).
Qed.

(** X20. Below the compression threshold, or when no fading memory has a
    topic, a run writes no summary and marks nothing: the report lists the
    fading set as decayed, nothing as compressed and the promotion
    candidates of the table it found, and the stored rows are those of
    step 4 applied to that table. *)
Theorem consolidate_memories_without_compression :
  forall (now : timestamptz) (store_clock : nat -> timestamptz)
         (agent : string) (threshold : nat) (db : database),
    let fading := Client.select_fading now agent (memories db) in
    (List.length fading < threshold)%nat
    \/ (forall f, In f fading -> Client.f_topics f = []) ->
    consolidate_memories now store_clock agent threshold db
    = Done (Client.mkReport
              (map (fun f => (Client.f_id f,
                              substring 0 100 (Client.f_content f),
                              Client.f_retention f)) fading)
              []
              (Client.select_promotion agent (memories db))
              0,
            mkDatabase (Client.soft_delete_dormant now agent (memories db))
                       (memory_links db)).
Proof.
  intros now store_clock agent threshold db fading Hsmall.
  destruct (consolidate_memories_run cosine_distance get_embedding
              score_importance extract_topics chat_summary now store_clock
              agent threshold db) as (es & ss & Hrun & Hes & Hss).
  fold fading in Hrun, Hes.
  assert (Hnone : es = []).
  { destruct Hsmall as [Hlt|Htop].
    - apply Nat.leb_gt in Hlt. rewrite Hlt in Hes.
      inversion Hes. reflexivity.
    - destruct (threshold <=? List.length fading)%nat;
        [|inversion Hes; reflexivity].
      destruct es as [|e es]; [reflexivity|]. exfalso.
      destruct (Forall2_left_in _ _ _ _ Hes (or_introl eq_refl))
        as (g & Hin & _).
      apply filter_In in Hin. destruct Hin as [Hin Hbig].
      rewrite (group_by_topic_contents fading g Hin) in Hbig.
      rewrite (filed_under_none _ _ Htop) in Hbig. discriminate Hbig. }
  subst es. inversion Hss; subst. simpl in Hrun.
  rewrite app_nil_r in Hrun.
  rewrite mark_summarized_other in Hrun by (intros m _ []).
  exact Hrun.
Qed.

(** X21. The originals of a compressed group are marked before the
    sweep runs, so no run deletes what it has just compressed: after the
    run, on a table with a primary key, every row named by an entry of
    the compression report is a summary-marked row that is not deleted,
    however low its retention. *)
Theorem consolidate_memories_keeps_compressed :
  forall (now : timestamptz) (store_clock : nat -> timestamptz)
         (agent : string) (threshold : nat) (db : database),
    Spec.primary_key (memories db) ->
    exists rep db',
      consolidate_memories now store_clock agent threshold db
      = Done (rep, db')
      /\ forall e i m',
           In e (Client.compressed rep) ->
           In i (Client.c_original_ids e) ->
           In m' (memories db') -> id m' = i ->
           is_summary m' = true /\ is_deleted m' = false.
Proof.
  intros now store_clock agent threshold db Hk.
  destruct (consolidate_memories_run cosine_distance get_embedding
              score_importance extract_topics chat_summary now store_clock
              agent threshold db) as (es & ss & Hrun & Hes & Hss).
  eexists. eexists. split; [exact Hrun|]. simpl.
  set (fading := Client.select_fading now agent (memories db)) in *.
  set (marked := flat_map Client.c_original_ids es).
  intros e i m' He Hi Hm' Hid.
  (* the identifier is that of a fading row *)
  assert (Hf : exists f, In f fading /\ Client.f_id f = i).
  { destruct (Forall2_left_in _ _ _ _ Hes He) as (g & Hg & _ & Ho & _).
    rewrite Ho in Hi. apply in_map_iff in Hi. destruct Hi as [f [E Hf]].
    destruct (threshold <=? List.length fading)%nat; [|destruct Hg].
    apply filter_In in Hg. destruct Hg as [Hg _].
    exists f. split; [|exact E].
    apply (group_by_topic_members (fun f => In f fading) fading
             (fun x Hx => Hx) g f Hg Hf). }
  destruct Hf as (f & Hf & Hfi).
  destruct (select_fading_row _ _ _ _ Hf)
    as (m0 & Hm0 & Hid0 & _ & Hdel0 & _).
  (* the row after the sweep *)
  unfold Client.soft_delete_dormant in Hm'. apply in_map_iff in Hm'.
  destruct Hm' as (m2 & E2 & Hm2).
  assert (Hid2 : id m2 = i).
  { rewrite <- Hid, <- E2. destruct (Client.dormant now agent m2); reflexivity. }
  apply in_app_or in Hm2. destruct Hm2 as [Hm2|Hm2].
  - unfold Client.mark_summarized in Hm2. apply in_map_iff in Hm2.
    destruct Hm2 as (m1 & E1 & Hm1).
    assert (Hid1 : id m1 = i).
    { rewrite <- Hid2, <- E1.
      destruct (Client.any_id (id m1) marked); reflexivity. }
    assert (m1 = m0)
      by (apply (same_identifier (memories db)); auto; congruence).
    subst m1.
    assert (Hany : Client.any_id (id m0) marked = true).
    { apply any_id_iff. unfold marked. apply in_flat_map.
      exists e. split; [exact He | congruence]. }
    rewrite Hany in E1. subst m2. unfold Client.dormant in E2. simpl in E2.
    rewrite !andb_false_r in E2. simpl in E2. subst m'. simpl. auto.
  - exfalso.
    destruct (Forall2_left_in _ _ _ _ (Forall2_flip Hss) Hm2)
      as (e' & _ & Hs').
    destruct Hs' as (_ & _ & _ & _ & _ & _ & _ & _ & Hnew).
    apply Hnew. rewrite Hid2, <- Hfi, <- Hid0. apply in_map. exact Hm0.
Qed.

(** X22. A run for one agent leaves the memories of every other agent as
    they are, on a table with a primary key: each of them is still stored
    unchanged, and every row of another agent found after the run was
    there before. *)
Theorem consolidate_memories_other_agents :
  forall (now : timestamptz) (store_clock : nat -> timestamptz)
         (agent : string) (threshold : nat) (db : database),
    Spec.primary_key (memories db) ->
    exists rep db',
      consolidate_memories now store_clock agent threshold db
      = Done (rep, db')
      /\ forall m, agent_id m <> agent ->
                   (In m (memories db) <-> In m (memories db')).
Proof.
  intros now store_clock agent threshold db Hk.
  destruct (consolidate_memories_run cosine_distance get_embedding
              score_importance extract_topics chat_summary now store_clock
              agent threshold db) as (es & ss & Hrun & Hes & Hss).
  eexists. eexists. split; [exact Hrun|]. simpl.
  set (fading := Client.select_fading now agent (memories db)) in *.
  set (marked := flat_map Client.c_original_ids es).
  assert (Hmarked : forall m, In m (memories db) -> agent_id m <> agent ->
                              Client.any_id (id m) marked = false).
  { intros m Hm Hag. apply any_id_false_iff. intros Hi.
    unfold marked in Hi. apply in_flat_map in Hi.
    destruct Hi as (e & He & Hi).
    destruct (Forall2_left_in _ _ _ _ Hes He) as (g & Hg & _ & Ho & _).
    rewrite Ho in Hi. apply in_map_iff in Hi. destruct Hi as [f [E Hf]].
    destruct (threshold <=? List.length fading)%nat; [|destruct Hg].
    apply filter_In in Hg. destruct Hg as [Hg _].
    assert (Hff : In f fading)
      by exact (group_by_topic_members (fun f => In f fading) fading
                  (fun x Hx => Hx) g f Hg Hf).
    destruct (select_fading_row _ _ _ _ Hff) as (m0 & Hm0 & Hid0 & Hag0 & _).
    assert (m0 = m)
      by (apply (same_identifier (memories db)); auto; congruence).
    subst m0. contradiction. }
  assert (Hawake : forall m, agent_id m <> agent ->
                             Client.dormant now agent m = false).
  { intros m Hag. unfold Client.dormant.
    apply String.eqb_neq in Hag. rewrite Hag. reflexivity. }
  intros m Hag. split.
  - intros Hm. unfold Client.soft_delete_dormant. apply in_map_iff.
    exists m. split; [rewrite (Hawake m Hag); reflexivity|].
    apply in_or_app. left. unfold Client.mark_summarized.
    apply in_map_iff. exists m.
    split; [rewrite (Hmarked m Hm Hag); reflexivity | exact Hm].
  - intros Hm'. unfold Client.soft_delete_dormant in Hm'.
    apply in_map_iff in Hm'. destruct Hm' as (m2 & E2 & Hm2).
    assert (Hag2 : agent_id m2 <> agent).
    { assert (Hsame : agent_id m = agent_id m2)
        by (rewrite <- E2; destruct (Client.dormant now agent m2);
            reflexivity).
      congruence. }
    rewrite (Hawake m2 Hag2) in E2. subst m2.
    apply in_app_or in Hm2. destruct Hm2 as [Hm2|Hm2].
    + unfold Client.mark_summarized in Hm2. apply in_map_iff in Hm2.
      destruct Hm2 as (m1 & E1 & Hm1).
      assert (Hag1 : agent_id m1 <> agent).
      { assert (Hsame : agent_id m = agent_id m1)
          by (rewrite <- E1; destruct (Client.any_id (id m1) marked);
              reflexivity).
        congruence. }
      rewrite (Hmarked m1 Hm1 Hag1) in E1. subst m1. exact Hm1.
    + exfalso.
      destruct (Forall2_left_in _ _ _ _ (Forall2_flip Hss) Hm2)
        as (e' & _ & Hs').
      destruct Hs' as (_ & _ & _ & _ & _ & _ & Hags & _).
      contradiction.
Qed.

(** X23. An entry of the compression report is made from the fading
    memories that carry its topic, in scan order, each counted as often
    as its topic list names the topic: [original_ids] lists them so and
    [count] is the length of that list, at least 3. *)
Theorem consolidate_memories_entries :
  forall (now : timestamptz) (store_clock : nat -> timestamptz)
         (agent : string) (threshold : nat) (db : database),
    let fading := Client.select_fading now agent (memories db) in
    exists rep db',
      consolidate_memories now store_clock agent threshold db
      = Done (rep, db')
      /\ forall e, In e (Client.compressed rep) ->
           Client.c_original_ids e
           = map Client.f_id (Laws.filed_under (Client.c_topic e) fading)
           /\ Client.c_count e
              = Spec.occurrences (Client.c_topic e)
                  (Spec.scanned_topics fading)
           /\ (3 <= Client.c_count e)%nat
           /\ (threshold <= List.length fading)%nat.
Proof.
  intros now store_clock agent threshold db fading.
  destruct (consolidate_memories_run cosine_distance get_embedding
              score_importance extract_topics chat_summary now store_clock
              agent threshold db) as (es & ss & Hrun & Hes & _).
  fold fading in Hrun, Hes.
  eexists. eexists. split; [exact Hrun|]. simpl.
  intros e He.
  destruct (Forall2_left_in _ _ _ _ Hes He) as (g & Hg & Ht & Ho & Hc).
  destruct (threshold <=? List.length fading)%nat eqn:Hth; [|destruct Hg].
  apply filter_In in Hg. destruct Hg as [Hg Hbig].
  pose proof (group_by_topic_contents fading g Hg) as Hcont.
  pose proof (proj2 (group_by_topic_keys fading) (fst g)) as Hsize.
  assert (Hgs : Spec.group_size (fst g) (Client.group_by_topic fading)
                = List.length (snd g)).
  { pose proof (group_of_key (Client.group_by_topic fading) g) as Hkey.
    unfold Laws.group_of in Hkey. unfold Spec.group_size.
    destruct (find _ _) as [x|].
    - rewrite Hkey; [reflexivity | | exact Hg].
      rewrite (proj1 (group_by_topic_keys fading)). apply first_seen_nodup.
    - rewrite <- Hkey; [reflexivity | | exact Hg].
      rewrite (proj1 (group_by_topic_keys fading)). apply first_seen_nodup. }
  rewrite Ho, Hc, Ht. split; [rewrite Hcont at 1; reflexivity|].
  split; [rewrite <- Hgs; exact Hsize|].
  split; [apply Nat.leb_le; exact Hbig | apply Nat.leb_le; exact Hth].
Qed.

(** X24. Compression does not disturb the promotion report: the
    candidates are those of the table as the run found it, since marking
    changes none of the columns read and a new summary has never been
    accessed. *)
Theorem consolidate_memories_promotion :
  forall (now : timestamptz) (store_clock : nat -> timestamptz)
         (agent : string) (threshold : nat) (db : database),
    exists rep db',
      consolidate_memories now store_clock agent threshold db
      = Done (rep, db')
      /\ Client.promotion_candidates rep
         = Client.select_promotion agent (memories db).
Proof.
  intros now store_clock agent threshold db.
  unfold Client.consolidate_memories. cbv zeta.
  set (fading := Client.select_fading now agent (memories db)).
  destruct (threshold <=? List.length fading)%nat.
  - destruct (compress_groups_closed cosine_distance get_embedding
                score_importance extract_topics chat_summary store_clock
                agent (Client.group_by_topic fading) db [])
      as (es & ss & Hrun & _ & Hss).
    { apply (group_by_topic_members
               (fun f => In (Client.f_id f) (map id (memories db)))).
      intros f Hf. apply (select_fading_in now agent). exact Hf. }
    rewrite Hrun. simpl. eexists. eexists. split; [reflexivity|]. simpl.
    rewrite select_promotion_app, select_promotion_marked.
    rewrite (select_promotion_unread agent ss); [apply app_nil_r|].
    intros s Hs.
    destruct (compress_groups_rows _ _ _ _ _ _ _ Hrun s) as (m & Hm & Hf).
    { simpl. apply in_or_app. right. exact Hs. }
    destruct Hf as (E & _). rewrite E. simpl.
    destruct Hm as [Hm|Hm]; [exfalso | exact Hm].
    destruct (Forall2_left_in _ _ _ _ (Forall2_flip Hss) Hs)
      as (e' & _ & Hs').
    destruct Hs' as (_ & _ & _ & _ & _ & _ & _ & _ & Hnew).
    apply Hnew. rewrite E. simpl. apply in_map. exact Hm.
  - simpl. eexists. eexists. split; reflexivity.
Qed.

End ConsolidationFacts.

(** ** Text handling *)

Import Ascii.

Section TextFacts.
Local Open Scope string_scope.
Variable isspace : ascii -> bool.

Local Abbreviation lstrip := (Text.lstrip isspace).
Local Abbreviation rstrip := (Text.rstrip isspace).
Local Abbreviation strip := (Text.strip isspace).

Lemma lstrip_starts_clean (s : string) :
  Laws.starts_clean isspace (lstrip s).
Proof.
  induction s as [|c s IH]; simpl; [exact I|].
  destruct (isspace c) eqn:E; [exact IH | exact E].
Qed.

Lemma lstrip_clean (s : string) :
  Laws.starts_clean isspace s -> lstrip s = s.
Proof.
  destruct s as [|c s]; simpl; [reflexivity|]. intros ->. reflexivity.
Qed.

Lemma rstrip_starts_clean (s : string) :
  Laws.starts_clean isspace s -> Laws.starts_clean isspace (rstrip s).
Proof.
  destruct s as [|c s]; simpl; [auto|]. intros E.
  destruct (Text.rstrip isspace s); [rewrite E|]; exact E.
Qed.

Lemma rstrip_twice (s : string) : rstrip (rstrip s) = rstrip s.
Proof.
  induction s as [|c s IH]; simpl; [reflexivity|].
  destruct (Text.rstrip isspace s) as [|d k] eqn:E.
  - destruct (isspace c) eqn:Ec; simpl; [reflexivity|].
    rewrite Ec. reflexivity.
  - simpl in IH |- *. rewrite IH. reflexivity.
Qed.

Lemma strip_twice (s : string) : strip (strip s) = strip s.
Proof.
  unfold Text.strip.
  rewrite (lstrip_clean (rstrip (lstrip s))).
  - apply rstrip_twice.
  - apply rstrip_starts_clean, lstrip_starts_clean.
Qed.

Lemma lstrip_length (s : string) :
  lstrip s = s \/ (String.length (lstrip s) < String.length s)%nat.
Proof.
  induction s as [|c s IH]; simpl; [left; reflexivity|].
  destruct (isspace c); [right | left; reflexivity].
  destruct IH as [->|H]; lia.
Qed.

Lemma rstrip_length (s : string) :
  (String.length (rstrip s) <= String.length s)%nat.
Proof.
  induction s as [|c s IH]; simpl; [lia|].
  destruct (Text.rstrip isspace s); [destruct (isspace c)|]; simpl in *; lia.
Qed.

(** A string that [strip] keeps is kept by [lstrip] and by [rstrip]. *)
Lemma strip_fixed (s : string) :
  strip s = s -> lstrip s = s /\ rstrip s = s.
Proof.
  unfold Text.strip. intros H.
  destruct (lstrip_length s) as [E|Hlt].
  - rewrite E in H. auto.
  - exfalso. pose proof (rstrip_length (lstrip s)) as Hle.
    rewrite H in Hle. lia.
Qed.

Lemma strip_leading (c : ascii) (s : string) :
  isspace c = true -> strip (String c s) = strip s.
Proof. unfold Text.strip. simpl. intros ->. reflexivity. Qed.

Lemma mentions_lstrip (c : ascii) (s : string) :
  Laws.mentions c s = false -> Laws.mentions c (lstrip s) = false.
Proof.
  induction s as [|d s IH]; simpl; [auto|]. intros H.
  apply orb_false_iff in H. destruct H as [H1 H2].
  destruct (isspace d); [apply IH; exact H2|].
  simpl. rewrite H1, H2. reflexivity.
Qed.

Lemma mentions_rstrip (c : ascii) (s : string) :
  Laws.mentions c s = false -> Laws.mentions c (rstrip s) = false.
Proof.
  induction s as [|d s IH]; simpl; [auto|]. intros H.
  apply orb_false_iff in H. destruct H as [H1 H2]. specialize (IH H2).
  destruct (Text.rstrip isspace s) as [|e k].
  - destruct (isspace d); simpl; [reflexivity|]. rewrite H1. reflexivity.
  - simpl in IH |- *. rewrite H1, IH. reflexivity.
Qed.

Lemma mentions_strip (c : ascii) (s : string) :
  Laws.mentions c s = false -> Laws.mentions c (strip s) = false.
Proof.
  intros H. apply mentions_rstrip, mentions_lstrip, H.
Qed.

Lemma rstrip_app (a b : string) :
  rstrip b <> "" -> rstrip (a ++ b) = a ++ rstrip b.
Proof.
  intros Hb. induction a as [|c a IH]; simpl; [reflexivity|].
  rewrite IH. destruct (a ++ Text.rstrip isspace b) eqn:E; [|reflexivity].
  exfalso. destruct a; simpl in E; [contradiction | discriminate].
Qed.

Lemma rstrip_cons (c : ascii) (s : string) :
  rstrip s = s -> s <> "" -> rstrip (String c s) = String c s.
Proof.
  intros E Hne. simpl. rewrite E. destruct s; [contradiction | reflexivity].
Qed.

Lemma split_nonempty (sep : ascii) (s : string) : Text.split sep s <> [].
Proof.
  destruct s as [|c s]; simpl; [discriminate|].
  destruct (Ascii.eqb c sep); [discriminate|].
  destruct (Text.split sep s); discriminate.
Qed.

(** No piece of a split holds the separator. *)
Lemma split_pieces (sep : ascii) (s : string) (p : string) :
  In p (Text.split sep s) -> Laws.mentions sep p = false.
Proof.
  revert p. induction s as [|c s IH]; simpl; intros p Hin.
  - destruct Hin as [<-|[]]. reflexivity.
  - destruct (Ascii.eqb c sep) eqn:E.
    + destruct Hin as [<-|Hin]; [reflexivity | apply IH; exact Hin].
    + destruct (Text.split sep s) as [|q qs].
      * destruct Hin as [<-|[]]. simpl. rewrite E. reflexivity.
      * destruct Hin as [<-|Hin].
        -- simpl. rewrite E. apply IH. left. reflexivity.
        -- apply IH. right. exact Hin.
Qed.

(** The text before the first separator is the first piece. *)
Lemma split_first (sep : ascii) (p rest : string) :
  Laws.mentions sep p = false ->
  Text.split sep (p ++ String sep rest) = p :: Text.split sep rest.
Proof.
  induction p as [|c p IH]; simpl; intros H.
  - rewrite Ascii.eqb_refl. reflexivity.
  - apply orb_false_iff in H. destruct H as [H1 H2].
    rewrite H1, (IH H2). reflexivity.
Qed.

Lemma split_whole (sep : ascii) (p : string) :
  Laws.mentions sep p = false -> Text.split sep p = [p].
Proof.
  induction p as [|c p IH]; simpl; intros H; [reflexivity|].
  apply orb_false_iff in H. destruct H as [H1 H2].
  rewrite H1, (IH H2). reflexivity.
Qed.

Lemma split_cons (sep c : ascii) (s : string) :
  Ascii.eqb c sep = false ->
  exists p ps, Text.split sep s = p :: ps
               /\ Text.split sep (String c s) = String c p :: ps.
Proof.
  intros H. simpl. rewrite H.
  destruct (Text.split sep s) as [|p ps] eqn:E.
  - exfalso. exact (split_nonempty sep s E).
  - exists p, ps. auto.
Qed.

(** *** Topics from the reply of the language model *)

Section Replies.
Variable topics_reply : string -> string.
Variable rating_reply : string -> string -> string.
Variable parse_float : string -> option Llm.pyfloat.

Local Abbreviation extract_topics :=
  (Llm.extract_topics isspace topics_reply).
Local Abbreviation score_importance :=
  (Llm.score_importance isspace rating_reply parse_float).

(** X25. Whatever the language model replies, [extract_topics] returns
    clean topics: none is empty, none holds a comma, none begins or ends
    with white space; and for [max_topics >= 0] there are at most
    [max_topics] of them. *)
Theorem extract_topics_clean :
  forall (text : string) (max_topics : Z),
    (forall t, In t (extract_topics text max_topics) ->
               Laws.clean_topic isspace t)
    /\ ((0 <= max_topics)%Z ->
        (Z.of_nat (List.length (extract_topics text max_topics))
         <= max_topics)%Z).
Proof.
  intros text k. unfold Llm.extract_topics, Text.slice_to. split.
  - intros t Ht.
    assert (Hin : In t (map strip
                          (filter (fun t => Text.truthy (strip t))
                             (Text.split ","
                                (strip (topics_reply text)))))).
    { destruct (0 <=? k)%Z; exact (firstn_in _ _ _ Ht). }
    apply in_map_iff in Hin. destruct Hin as (p & <- & Hp).
    apply filter_In in Hp. destruct Hp as [Hp Htrue].
    unfold Laws.clean_topic. split; [|split].
    + intros E. rewrite E in Htrue. discriminate Htrue.
    + apply mentions_strip. exact (split_pieces _ _ _ Hp).
    + apply strip_twice.
  - intros Hk. apply Z.leb_le in Hk. rewrite Hk.
    pose proof (firstn_le_length (Z.to_nat k)
                  (map strip
                     (filter (fun t => Text.truthy (strip t))
                        (Text.split "," (strip (topics_reply text))))))
      as Hle.
    apply Z.leb_le in Hk. lia.
Qed.

Lemma clean_topic_kept (t : string) :
  Laws.clean_topic isspace t ->
  Text.truthy (strip t) = true /\ strip t = t
  /\ Laws.starts_clean isspace t /\ rstrip t = t /\ t <> "".
Proof.
  intros (Hne & _ & Hs). destruct (strip_fixed t Hs) as [Hl Hr].
  rewrite Hs. repeat split; auto.
  - destruct t; [contradiction | reflexivity].
  - rewrite <- Hl. apply lstrip_starts_clean.
Qed.

Lemma joined_topics_split (t : string) (ts : list string) :
  Forall (Laws.clean_topic isspace) (t :: ts) ->
  Text.split "," (String.concat ", " (t :: ts))
  = t :: map (String " ") ts.
Proof.
  revert t. induction ts as [|u ts IH]; intros t H.
  - simpl. apply split_whole. inversion H as [|? ? Ht _]; subst. apply Ht.
  - inversion H as [|? ? Ht Hrest]; subst.
    change (String.concat ", " (t :: u :: ts))
      with (t ++ String "," (String " " (String.concat ", " (u :: ts)))).
    rewrite split_first by apply Ht. f_equal.
    destruct (split_cons "," " " (String.concat ", " (u :: ts)) eq_refl)
      as (p & ps & E1 & E2).
    rewrite E2. rewrite (IH u Hrest) in E1. injection E1 as <- <-.
    reflexivity.
Qed.

Lemma joined_topics_stripped (t : string) (ts : list string) :
  Forall (Laws.clean_topic isspace) (t :: ts) ->
  strip (String.concat ", " (t :: ts)) = String.concat ", " (t :: ts)
  /\ String.concat ", " (t :: ts) <> "".
Proof.
  revert t. induction ts as [|u ts IH]; intros t H;
    inversion H as [|? ? Ht Hrest]; subst;
    destruct (clean_topic_kept t Ht) as (_ & Hs & Hc & Hr & Hne).
  - simpl. auto.
  - change (String.concat ", " (t :: u :: ts))
      with (t ++ String "," (String " " (String.concat ", " (u :: ts)))).
    destruct (IH u Hrest) as [IH1 IH2].
    destruct (strip_fixed _ IH1) as [_ IHr].
    split.
    + unfold Text.strip. rewrite lstrip_clean.
      * assert (Htail : rstrip (String "," (String " "
                                  (String.concat ", " (u :: ts))))
                        = String "," (String " "
                                  (String.concat ", " (u :: ts)))).
        { apply rstrip_cons; [|discriminate].
          apply rstrip_cons; assumption. }
        rewrite rstrip_app; rewrite Htail; [reflexivity | discriminate].
      * destruct t; [contradiction | exact Hc].
    + destruct t; [contradiction | discriminate].
Qed.

(** X26. A reply that is a list of clean topics joined by a comma and a
    space is read back as that list, when white space includes the space
    character and [max_topics] is not below the number of topics. *)
Theorem extract_topics_round_trip :
  forall (text : string) (max_topics : Z) (topics : list string),
    isspace " " = true ->
    Forall (Laws.clean_topic isspace) topics ->
    (Z.of_nat (List.length topics) <= max_topics)%Z ->
    topics_reply text = String.concat ", " topics ->
    extract_topics text max_topics = topics.
Proof.
  intros text k topics Hsp Hclean Hk Hreply.
  unfold Llm.extract_topics, Text.slice_to. rewrite Hreply.
  replace (0 <=? k)%Z with true by (symmetry; apply Z.leb_le; lia).
  destruct topics as [|t ts].
  - simpl. unfold Text.strip. simpl. apply firstn_nil.
  - rewrite (proj1 (joined_topics_stripped t ts Hclean)).
    rewrite (joined_topics_split t ts Hclean).
    assert (Hall : forall l,
               Forall (Laws.clean_topic isspace) l ->
               map strip (filter (fun t => Text.truthy (strip t))
                                 (map (String " ") l)) = l).
    { induction l as [|u l IH]; intros Hl; [reflexivity|].
      inversion Hl as [|? ? Hu Hrest]; subst. simpl.
      rewrite (strip_leading " " u Hsp).
      destruct (clean_topic_kept u Hu) as (Htrue & Hs & _).
      rewrite Htrue. simpl. rewrite (strip_leading " " u Hsp), Hs.
      rewrite (IH Hrest). reflexivity. }
    inversion Hclean as [|? ? Ht Hrest]; subst.
    destruct (clean_topic_kept t Ht) as (Htrue & Hs & _).
    simpl filter. rewrite Htrue. simpl map at 1.
    rewrite Hs, (Hall ts Hrest).
    apply firstn_all2. lia.
Qed.

(** X27. Whatever the language model replies, [score_importance] returns
    a number between 0 and 1: a finite score is clamped, [inf] and [nan]
    give 1, [-inf] gives 0, and a reply that [float] rejects gives 0.5. *)
Theorem score_importance_range :
  forall (text context : string),
    (exists x, score_importance text context = Llm.finite x /\ 0 <= x <= 1)
    /\ (forall reply,
          reply = strip (rating_reply text context) ->
          (parse_float reply = None ->
           score_importance text context = Llm.finite 0.5)
          /\ (parse_float reply = Some Llm.nan ->
              score_importance text context = Llm.finite 1)
          /\ (parse_float reply = Some Llm.pos_inf ->
              score_importance text context = Llm.finite 1)
          /\ (parse_float reply = Some Llm.neg_inf ->
              score_importance text context = Llm.finite 0)
          /\ (forall x, parse_float reply = Some (Llm.finite x) ->
                score_importance text context
                = Llm.finite (Rmax 0 (Rmin 1 x)))).
Proof.
  intros text context.
  assert (Hclamp : forall x,
             Llm.py_max (Llm.finite 0) (Llm.py_min (Llm.finite 1)
                                          (Llm.finite x))
             = Llm.finite (Rmax 0 (Rmin 1 x))).
  { intros x. unfold Llm.py_min, Llm.py_max. simpl.
    unfold Rltb. destruct (Rlt_dec x 1) as [H1|H1]; simpl.
    - rewrite Rmin_right by lra. unfold Rltb.
      destruct (Rlt_dec 0 x) as [H0|H0];
        [rewrite Rmax_right by lra | rewrite Rmax_left by lra]; reflexivity.
    - rewrite Rmin_left by lra. unfold Rltb.
      destruct (Rlt_dec 0 1) as [H0|H0]; [|lra].
      rewrite Rmax_right by lra. reflexivity. }
  split.
  - unfold Llm.score_importance.
    destruct (parse_float _) as [[x| | |]|].
    + rewrite Hclamp. eexists. split; [reflexivity|].
      split; [apply Rmax_l|]. apply Rmax_lub; [lra | apply Rmin_l].
    + exists 1. split; [|lra]. unfold Llm.py_min, Llm.py_max. simpl.
      unfold Rltb. destruct (Rlt_dec 0 1); [reflexivity | lra].
    + exists 0. split; [|lra]. reflexivity.
    + exists 1. split; [|lra]. unfold Llm.py_min, Llm.py_max. simpl.
      unfold Rltb. destruct (Rlt_dec 0 1); [reflexivity | lra].
    + exists 0.5. split; [reflexivity | lra].
  - intros reply ->. unfold Llm.score_importance.
    repeat split.
    + intros ->. reflexivity.
    + intros ->. unfold Llm.py_min, Llm.py_max. simpl.
      unfold Rltb. destruct (Rlt_dec 0 1); [reflexivity | lra].
    + intros ->. unfold Llm.py_min, Llm.py_max. simpl.
      unfold Rltb. destruct (Rlt_dec 0 1); [reflexivity | lra].
    + intros ->. reflexivity.
    + intros x ->. apply Hclamp.
Qed.

End Replies.

(** *** The statements of a schema file *)

Local Abbreviation statements := (Setup.statements isspace).

(** X28. Every statement that [setup-db.py] executes is a stripped,
    non-empty piece of the file between two semicolons that does not
    start with a comment mark; in particular it holds no semicolon, so a
    statement of the file that contains one, such as a function body, is
    never executed whole. *)
Theorem statements_clean :
  forall (schema stmt : string),
    In stmt (statements schema) ->
    Laws.clean_statement isspace stmt
    /\ exists piece, In piece (Text.split ";" schema) /\ stmt = strip piece.
Proof.
  intros schema stmt H. unfold Setup.statements in H.
  apply filter_In in H. destruct H as [Hin Hrun].
  apply in_map_iff in Hin. destruct Hin as (p & <- & Hp).
  split; [|exists p; auto].
  unfold Laws.clean_statement. split; [exact Hrun|]. split.
  - apply mentions_strip. exact (split_pieces _ _ _ Hp).
  - apply strip_twice.
Qed.

(** X29. The loop reads the file piece by piece.  The text before the
    first semicolon yields its stripped form if that is runnable, and
    nothing otherwise; so when it starts with a comment line, the SQL
    that follows the comment up to the semicolon is not executed. *)
Theorem statements_first_piece :
  forall (piece rest : string),
    Laws.mentions ";" piece = false ->
    statements (piece ++ String ";" rest)
    = ((if Setup.runnable (strip piece) then [strip piece] else [])
       ++ statements rest)%list
    /\ (Text.startswith (strip piece) "--" = true ->
        statements (piece ++ String ";" rest) = statements rest).
Proof.
  intros piece rest H.
  assert (E : statements (piece ++ String ";" rest)
              = ((if Setup.runnable (strip piece) then [strip piece] else [])
                 ++ statements rest)%list).
  { unfold Setup.statements. rewrite (split_first ";" piece rest H).
    simpl. destruct (Setup.runnable (strip piece)); reflexivity. }
  split; [exact E|]. intros Hc. rewrite E.
  unfold Setup.runnable. rewrite Hc, andb_false_r. reflexivity.
Qed.

Lemma script_lines (stmts : list string) :
  isspace "010" = true ->
  Forall (Laws.clean_statement isspace) stmts ->
  statements (String "010" (Laws.script stmts)) = stmts.
Proof.
  intros Hnl. induction stmts as [|s rest IH]; intros H.
  - unfold Setup.statements. simpl. unfold Text.strip. simpl.
    rewrite Hnl. reflexivity.
  - inversion H as [|? ? (Hrun & Hno & Hs) Hrest]; subst.
    change (String "010" (Laws.script (s :: rest)))
      with (String "010" s ++ String ";" (String "010" (Laws.script rest))).
    unfold Setup.statements. rewrite split_first by (simpl; exact Hno).
    simpl. rewrite (strip_leading "010" s Hnl), Hs, Hrun.
    f_equal. apply IH. exact Hrest.
Qed.

(** X30. A schema file written one statement per line, each closed by a
    semicolon, is executed statement by statement, in order, when the
    statements are clean and white space includes the line feed. *)
Theorem statements_round_trip :
  forall stmts : list string,
    isspace "010" = true ->
    Forall (Laws.clean_statement isspace) stmts ->
    statements (Laws.script stmts) = stmts.
Proof.
  intros stmts Hnl H. destruct stmts as [|s rest]; [reflexivity|].
  inversion H as [|? ? (Hrun & Hno & Hs) Hrest]; subst.
  change (Laws.script (s :: rest))
    with (s ++ String ";" (String "010" (Laws.script rest))).
  unfold Setup.statements. rewrite split_first by exact Hno.
  simpl. rewrite Hs, Hrun. f_equal.
  apply script_lines; assumption.
Qed.

End TextFacts.

(** *** The remaining properties on the sample data *)

(** The two sample rows 1800 days after they were stored: both have
    faded, and the sweep deletes both. *)
Lemma pair_faded :
  Client.select_fading Fixtures.much_later "a" (memories Fixtures.pair)
  = [Client.mkFading 1%N "tea" episodic []
       (Server.calculate_retention Fixtures.much_later 0.3 0.5 0) 0;
     Client.mkFading 2%N "coffee" episodic []
       (Server.calculate_retention Fixtures.much_later 0.3 0.5 0) 0].
Proof.
  pose proof old_retention as Hold.
  unfold Client.select_fading, Client.retention_of, Fixtures.pair,
    Fixtures.two_rows, Fixtures.row.
  repeat (progress evaluate). reflexivity.
Qed.

(** X20, witness: 1800 days on, the two sample rows have faded; two are
    fewer than the threshold 5, so the run reports both and compresses
    nothing. *)
Lemma pair_without_compression :
  Fixtures.consolidate_memories Fixtures.much_later
    (fun _ => Fixtures.much_later) "a" 5 Fixtures.pair
  = Done (Client.mkReport
            [(1%N, "tea"%string,
              Server.calculate_retention Fixtures.much_later 0.3 0.5 0);
             (2%N, "coffee"%string,
              Server.calculate_retention Fixtures.much_later 0.3 0.5 0)]
            [] [] 0,
          mkDatabase
            (Client.soft_delete_dormant Fixtures.much_later "a"
               (memories Fixtures.pair))
            []).
Proof.
  unfold Fixtures.consolidate_memories.
  rewrite (consolidate_memories_without_compression Fixtures.cosine_distance
             Fixtures.get_embedding Fixtures.score_importance
             Fixtures.extract_topics Fixtures.chat_summary
             Fixtures.much_later (fun _ => Fixtures.much_later)
             "a"%string 5%nat Fixtures.pair).
  - rewrite pair_faded. reflexivity.
  - left. rewrite pair_faded. simpl. lia.
Defined.

Lemma faded_key : Spec.primary_key (memories Fixtures.faded).
Proof.
  unfold Spec.primary_key. simpl.
  repeat constructor; simpl; intros H;
    repeat (destruct H as [H|H]; [discriminate H|]); exact H.
Qed.

(** The consolidation of the five faded memories, 1800 days on: the
    groups of [b] and of [a] are compressed from the memories 1, 2 and 3;
    the run leaves these three marked and not deleted, deletes the
    memories 4 and 5, and appends the two summaries. *)
Lemma faded_run :
  exists rep db',
    Fixtures.consolidate_memories Fixtures.much_later
      (fun _ => Fixtures.much_later) "a" 5 Fixtures.faded
    = Done (rep, db')
    /\ map Client.c_original_ids (Client.compressed rep)
       = [[1%N; 2%N; 3%N]; [1%N; 2%N; 3%N]]
    /\ map (fun m => (id m, is_summary m, is_deleted m)) (memories db')
       = [(1%N, true, false); (2%N, true, false); (3%N, true, false);
          (4%N, false, true); (5%N, false, true);
          (6%N, false, false); (7%N, false, false)].
Proof.
  pose proof old_retention as Hold.
  pose proof (retention_fresh Fixtures.much_later 0.3 0.7) as Hfresh.
  assert (Hlater : Fixtures.much_later = 155520000) by reflexivity.
  unfold Fixtures.consolidate_memories, Client.consolidate_memories,
    Client.select_fading, Client.retention_of, Fixtures.faded, Fixtures.row.
  repeat (progress evaluate).
  unfold Client.store_memory, Client.insert_memory,
    Client.soft_delete_dormant, Client.dormant, Client.retention_of,
    Client.select_promotion.
  repeat (progress evaluate).
  eexists. eexists. split; [reflexivity|]. split; reflexivity.
Qed.

(** X21, witness: the five faded memories, 1800 days on.  The memories 1,
    2 and 3 are compressed under two topics; all five are dormant, yet
    the run deletes only the memories 4 and 5. *)
Lemma faded_keeps_compressed :
  exists rep db',
    Fixtures.consolidate_memories Fixtures.much_later
      (fun _ => Fixtures.much_later) "a" 5 Fixtures.faded
    = Done (rep, db')
    /\ map Client.c_original_ids (Client.compressed rep)
       = [[1%N; 2%N; 3%N]; [1%N; 2%N; 3%N]]
    /\ map (fun m => (id m, is_summary m, is_deleted m)) (memories db')
       = [(1%N, true, false); (2%N, true, false); (3%N, true, false);
          (4%N, false, true); (5%N, false, true);
          (6%N, false, false); (7%N, false, false)]
    /\ forall e i m',
         In e (Client.compressed rep) ->
         In i (Client.c_original_ids e) ->
         In m' (memories db') -> id m' = i ->
         is_summary m' = true /\ is_deleted m' = false.
Proof.
  destruct faded_run as (rep & db' & Hrun & Hids & Hrows).
  destruct (consolidate_memories_keeps_compressed Fixtures.cosine_distance
              Fixtures.get_embedding Fixtures.score_importance
              Fixtures.extract_topics Fixtures.chat_summary
              Fixtures.much_later (fun _ => Fixtures.much_later)
              "a"%string 5%nat Fixtures.faded faded_key)
    as (rep2 & db2 & Hrun2 & Hkeep).
  unfold Fixtures.consolidate_memories in Hrun. rewrite Hrun in Hrun2.
  injection Hrun2 as <- <-.
  exists rep, db'. split; [exact Hrun|]. split; [exact Hids|].
  split; [exact Hrows | exact Hkeep].
Defined.

(** X22, witness: a run for agent b over the two rows of agent a. *)
Lemma pair_other_agents :
  exists rep db',
    Fixtures.consolidate_memories 0 (fun _ => 0) "b" 5 Fixtures.pair
    = Done (rep, db')
    /\ forall m, agent_id m <> "b"%string ->
                 (In m (memories Fixtures.pair) <-> In m (memories db')).
Proof.
  apply (consolidate_memories_other_agents Fixtures.cosine_distance
           Fixtures.get_embedding Fixtures.score_importance
           Fixtures.extract_topics Fixtures.chat_summary 0 (fun _ => 0)
           "b"%string 5%nat Fixtures.pair).
  exact two_rows_key.
Defined.

Lemma two_topics_clean :
  Forall (Laws.clean_topic Cases.isspace) ["ui"; "dark mode"]%string.
Proof.
  repeat constructor; try discriminate.
Qed.

(** X26, witness: the reply [ui, dark mode]. *)
Lemma two_topics_read_back :
  Llm.extract_topics Cases.isspace Cases.two_topics "any text" 5
  = ["ui"; "dark mode"]%string.
Proof.
  apply (extract_topics_round_trip Cases.isspace Cases.two_topics
           "any text"%string 5%Z ["ui"; "dark mode"]%string).
  - reflexivity.
  - exact two_topics_clean.
  - simpl. lia.
  - reflexivity.
Defined.

Lemma two_statements_clean :
  Forall (Laws.clean_statement Cases.isspace) Cases.two_statements.
Proof.
  repeat constructor.
Qed.

(** X30, witness: a file of two statements. *)
Lemma two_statements_executed :
  Setup.statements Cases.isspace (Laws.script Cases.two_statements)
  = Cases.two_statements.
Proof.
  apply (statements_round_trip Cases.isspace Cases.two_statements).
  - reflexivity.
  - exact two_statements_clean.
Defined.

(** X28, witness: the first statement of a file of two. *)
Lemma first_statement_clean :
  Laws.clean_statement Cases.isspace "CREATE TABLE notes (body TEXT)".
Proof.
  apply (statements_clean Cases.isspace
           (Laws.script Cases.two_statements)
           "CREATE TABLE notes (body TEXT)"%string).
  left. reflexivity.
Defined.

(** X29, witness: a [CREATE TABLE] under a comment line is skipped; the
    statement after it runs. *)
Lemma commented_statement_skipped :
  Setup.statements Cases.isspace
    (Cases.commented ++ String ";" "CREATE INDEX notes_idx ON notes(body);")%string
  = ["CREATE INDEX notes_idx ON notes(body)"%string].
Proof.
  rewrite (proj2 (statements_first_piece Cases.isspace Cases.commented
                    "CREATE INDEX notes_idx ON notes(body);"%string
                    eq_refl) eq_refl).
  reflexivity.
Defined.
